(** * DoxygenToDrawio: a shallow embedding of the graph-to-diagram core

    The development follows [src/DoxygenToDrawio.py]: label normalisation
    and similarity ([clean_node_label], [are_labels_similar]), ingestion of
    parsed DOT documents ([process_single_dot_file],
    [final_deduplication_pass]), the hierarchical layout
    ([calculate_hierarchical_layout] and its helpers) and the edge styling
    ([get_edge_style]).

    Conventions.
    - Python [str] values are modelled as [string] (one [ascii] per
      character); [lower] folds the letters A-Z only, so the model speaks
      about ASCII labels.
    - Python [dict]s iterate in insertion order and the code relies on it,
      so they are association lists ([dict]) with in-place update.
    - Python [int]s are [Z] (or [nat] for counters and lengths). *)

From Stdlib Require Import List String Ascii ZArith Bool Arith Lia.
From Stdlib Require Import Permutation Sorted DecimalString DecimalNat DecimalFacts.
Import ListNotations.

Open Scope string_scope.

(** ** Python string primitives *)

Module PyStr.

Definition is_upper (c : ascii) : bool :=
  let n := nat_of_ascii c in (65 <=? n)%nat && (n <=? 90)%nat.

Definition lower_char (c : ascii) : ascii :=
  if is_upper c then ascii_of_nat (nat_of_ascii c + 32) else c.

(** [s.lower()] *)
Fixpoint lower (s : string) : string :=
  match s with
  | EmptyString => EmptyString
  | String c s' => String (lower_char c) (lower s')
  end.

(** [sub in s] *)
Fixpoint contains (sub s : string) : bool :=
  prefix sub s ||
  match s with
  | EmptyString => false
  | String _ s' => contains sub s'
  end.

(** [any(p in s for p in ps)] *)
Definition any_in (ps : list string) (s : string) : bool :=
  existsb (fun p => contains p s) ps.

(** [s in l] for a list of strings *)
Definition mem (s : string) (l : list string) : bool :=
  existsb (String.eqb s) l.

(** [s.replace(old, new)] for a non-empty [old]: occurrences are found left
    to right and do not overlap.  [skip] counts the characters of the
    occurrence just replaced that are still to be dropped. *)
Fixpoint replace_from (old new : string) (skip : nat) (s : string) : string :=
  match s with
  | EmptyString => EmptyString
  | String c s' =>
      match skip with
      | S k => replace_from old new k s'
      | O =>
          if prefix old s
          then new ++ replace_from old new (String.length old - 1) s'
          else String c (replace_from old new 0 s')
      end
  end.

(** [s.replace("", new)] puts [new] before every character and at the end *)
Fixpoint replace_empty (new s : string) : string :=
  match s with
  | EmptyString => new
  | String c s' => new ++ String c (replace_empty new s')
  end.

Definition replace (old new s : string) : string :=
  match old with
  | EmptyString => replace_empty new s
  | _ => replace_from old new 0 s
  end.

Definition char_in (c : ascii) (chars : string) : bool :=
  existsb (Ascii.eqb c) (list_ascii_of_string chars).

Fixpoint lstrip (chars s : string) : string :=
  match s with
  | EmptyString => EmptyString
  | String c s' => if char_in c chars then lstrip chars s' else s
  end.

Fixpoint rstrip (chars s : string) : string :=
  match s with
  | EmptyString => EmptyString
  | String c s' =>
      match rstrip chars s' with
      | EmptyString => if char_in c chars then EmptyString else String c EmptyString
      | r => String c r
      end
  end.

(** [s.strip(chars)] *)
Definition strip (chars s : string) : string := rstrip chars (lstrip chars s).

(** The ASCII characters for which [str.isspace] holds: tab, line feed,
    vertical tab, form feed, carriage return, the four separators 28-31 and
    the space. *)
Definition whitespace : string :=
  string_of_list_ascii
    (map ascii_of_nat [9; 10; 11; 12; 13; 28; 29; 30; 31; 32]%nat).

(** [s.strip()] *)
Definition strip_ws (s : string) : string := strip whitespace s.

(** [s[:n]] *)
Definition take (n : nat) (s : string) : string := substring 0 n s.

(** [s[n:]] *)
Fixpoint drop (n : nat) (s : string) : string :=
  match n, s with
  | O, _ => s
  | S _, EmptyString => EmptyString
  | S k, String _ s' => drop k s'
  end.

(** [s.startswith(p)] *)
Definition startswith (p s : string) : bool := prefix p s.

(** [s.endswith(p)] *)
Definition endswith (p s : string) : bool :=
  (String.length p <=? String.length s)%nat &&
  String.eqb (drop (String.length s - String.length p) s) p.

(** [str(n)] for a non-negative integer *)
Definition of_nat (n : nat) : string := NilZero.string_of_uint (Nat.to_uint n).

End PyStr.

(** ** Dictionaries in insertion order *)

Definition dict (V : Type) : Type := list (string * V).

Section Dict.
Context {V : Type}.

(** [d.get(k)] / [d[k]] *)
Fixpoint dict_get (d : dict V) (k : string) : option V :=
  match d with
  | [] => None
  | (k', v) :: d' => if String.eqb k' k then Some v else dict_get d' k
  end.

(** [k in d] *)
Definition dict_has (d : dict V) (k : string) : bool :=
  match dict_get d k with Some _ => true | None => false end.

(** [d[k] = v]: an existing key keeps its place, a new key goes last *)
Fixpoint dict_set (d : dict V) (k : string) (v : V) : dict V :=
  match d with
  | [] => [(k, v)]
  | (k', v') :: d' =>
      if String.eqb k' k then (k', v) :: d' else (k', v') :: dict_set d' k v
  end.

(** [d.get(k, default)] *)
Definition dict_get_default (d : dict V) (k : string) (default : V) : V :=
  match dict_get d k with Some v => v | None => default end.

(** [d.keys()] *)
Definition dict_keys (d : dict V) : list string := map fst d.
End Dict.

(** ** Label similarity (lines 130-158) *)

Definition patterns_to_remove : list string :=
  ["get_"; "set_"; "is_"; "has_"; "do_"; "handle_"; "process_"; "init_";
   "setup_"; "create_"; "delete_"; "update_"].

(** [label.lower().strip('_').replace('_', '').replace('-', '')] *)
Definition normalize_label (label : string) : string :=
  PyStr.replace "-" "" (PyStr.replace "_" "" (PyStr.strip "_" (PyStr.lower label))).

(** The loop [for pattern in patterns_to_remove: clean = clean.replace(pattern, '')] *)
Definition remove_patterns (s : string) : string :=
  fold_left (fun acc pattern => PyStr.replace pattern "" acc) patterns_to_remove s.

(** [max_len <= min_len * 1.5] compares an integer with a float that is a
    multiple of one half; it is the integer comparison
    [2 * max_len <= 3 * min_len]. *)
Definition within_half (min_len max_len : nat) : bool :=
  (2 * max_len <=? 3 * min_len)%nat.

Definition are_labels_similar (label1 label2 : string) : bool :=
  if String.eqb label1 label2 then true
  else
    let norm1 := normalize_label label1 in
    let norm2 := normalize_label label2 in
    if (PyStr.contains norm1 norm2 || PyStr.contains norm2 norm1)
       && within_half (Nat.min (String.length norm1) (String.length norm2))
                      (Nat.max (String.length norm1) (String.length norm2))
    then true
    else String.eqb (remove_patterns norm1) (remove_patterns norm2).


(** ** Label normalisation (lines 73-114)

    The [re.sub] calls of [clean_node_label] delete or replace the matches of
    fixed patterns.  Each pattern is embedded by a function [string -> option
    string] that, for a match starting at the head of its argument, returns
    what follows the match Python's backtracking selects; [sub_delete] then
    scans left to right as [re.sub] does (leftmost match first, resuming
    after it).  None of the patterns matches the empty string. *)

Module Re.

Definition slash : ascii := "/"%char.

(** [(?:src/|include/|lib/|bin/|Source/|Headers/)] *)
Definition dir_tokens : list string :=
  ["src/"; "include/"; "lib/"; "bin/"; "Source/"; "Headers/"].

(** [(?:Core/(?:Inc|Src)/|src/|include/|lib/|bin/|Source/|Headers/)] *)
Definition core_dir_tokens : list string :=
  "Core/Inc/" :: "Core/Src/" :: dir_tokens.

(** Match one alternative at the head; no token is a prefix of another, so
    the order of the alternatives does not matter. *)
Fixpoint strip_token (tokens : list string) (s : string) : option string :=
  match tokens with
  | [] => None
  | t :: ts =>
      if prefix t s then Some (PyStr.drop (String.length t) s)
      else strip_token ts s
  end.

(** What follows the first '/' of [s], if any *)
Fixpoint after_slash (s : string) : option string :=
  match s with
  | EmptyString => None
  | String c s' => if Ascii.eqb c slash then Some s' else after_slash s'
  end.

(** [[^/]+/(?:Core/(?:Inc|Src)/|src/|...)]: a non-empty run without '/',
    the '/' that ends it, and a directory token.  The greedy run cannot be
    shortened, as the character after it has to be that '/'. *)
Definition match_segment_dir (s : string) : option string :=
  match s with
  | EmptyString => None
  | String c _ =>
      if Ascii.eqb c slash then None
      else match after_slash s with
           | Some rest => strip_token core_dir_tokens rest
           | None => None
           end
  end.

(** The greedy [(?:\.\./)*] *)
Fixpoint skip_dotdot (s : string) : string :=
  match s with
  | String "."%char (String "."%char (String "/"%char s')) => skip_dotdot s'
  | _ => s
  end.

(** [(?:\.\./)*/(?:src/|include/|...)]: giving back a "../" leaves a '.'
    where the '/' is needed, so only the longest run of "../" can match. *)
Definition match_dotdot_dir (s : string) : option string :=
  match skip_dotdot s with
  | String "/"%char rest => strip_token dir_tokens rest
  | _ => None
  end.

(** [/(?:src/|include/|...)/] at the head *)
Definition match_slash_dir_slash (s : string) : option string :=
  match s with
  | String "/"%char rest =>
      match strip_token dir_tokens rest with
      | Some (String "/"%char r) => Some r
      | _ => None
      end
  | _ => None
  end.

(** What follows the last place of [s] where [/(?:src/|...)/] matches *)
Fixpoint after_last_dir (s : string) : option string :=
  match s with
  | EmptyString => None
  | String _ s' =>
      match after_last_dir s' with
      | Some r => Some r
      | None => match_slash_dir_slash s
      end
  end.

(** [re.sub(r'.*/(?:src/|...)/', '', s)] on a string without line feeds:
    the greedy [.*] starts at the head and reaches the last match of the
    rest of the pattern; nothing after it can match again. *)
Definition delete_through_last_dir (s : string) : string :=
  match after_last_dir s with
  | Some r => r
  | None => s
  end.

Definition extensions : list string :=
  ["c"; "h"; "cpp"; "hpp"; "cc"; "cxx"; "c++"; "py"; "pyx"; "pyi"; "java";
   "js"; "ts"; "jsx"; "tsx"; "go"; "rs"; "swift"; "m"; "mm"; "cs"; "php";
   "rb"; "pl"; "sh"; "asm"; "s"].

(** [\.(c|h|cpp|...)$] on a string without line feeds: a '.' followed by
    exactly one extension up to the end of the string. *)
Definition match_extension (s : string) : option string :=
  match s with
  | String "."%char rest =>
      if PyStr.mem rest extensions then Some EmptyString else None
  | _ => None
  end.

(** [re.sub(pattern, '', s)] for a pattern without empty matches *)
Fixpoint sub_delete_fuel (m : string -> option string) (fuel : nat)
    (s : string) : string :=
  match fuel with
  | O => s
  | S f =>
      match s with
      | EmptyString => EmptyString
      | String c s' =>
          match m s with
          | Some rest => sub_delete_fuel m f rest
          | None => String c (sub_delete_fuel m f s')
          end
      end
  end.

Definition sub_delete (m : string -> option string) (s : string) : string :=
  sub_delete_fuel m (S (String.length s)) s.

(** The character class of line 94: the brackets, braces, parentheses and
    angle brackets, backslash, slash, colon, star, question mark, bar, and
    the double quote (character 34). *)
Definition invalid_chars : string :=
  "<>{}\/:*?|[]()" ++ String (ascii_of_nat 34) EmptyString.

(** [re.sub] of that class by the empty string *)
Fixpoint delete_invalid (s : string) : string :=
  match s with
  | EmptyString => EmptyString
  | String c s' =>
      if PyStr.char_in c invalid_chars then delete_invalid s'
      else String c (delete_invalid s')
  end.

(** [re.sub(r'[_]{2,}', '_', s)]: a run of two or more underscores becomes
    one underscore.  [in_run] tells that the previous character was an
    underscore that has been kept. *)
Fixpoint collapse_underscores (in_run : bool) (s : string) : string :=
  match s with
  | EmptyString => EmptyString
  | String c s' =>
      if Ascii.eqb c "_"%char
      then if in_run then collapse_underscores true s'
           else String c (collapse_underscores true s')
      else String c (collapse_underscores false s')
  end.

End Re.

(** Lines 79-96: the label after escape removal, path and extension
    stripping, separator replacement and trimming. *)
Definition cleaned_form (label : string) : string :=
  let label := PyStr.replace "\l" " " label in
  let label := PyStr.replace (String (ascii_of_nat 10) EmptyString) " " label in
  let label := PyStr.strip_ws label in
  let label := Re.sub_delete Re.match_segment_dir label in
  let label := Re.sub_delete Re.match_dotdot_dir label in
  let label := Re.delete_through_last_dir label in
  let label := Re.sub_delete Re.match_extension label in
  let label := PyStr.replace "::" "_" label in
  let label := PyStr.replace "." "_" label in
  let label := PyStr.replace "->" "_" label in
  let label := Re.delete_invalid label in
  let label := Re.collapse_underscores false label in
  PyStr.strip "_" label.

(** Lines 106-114: the fallback for an empty label and the truncation *)
Definition finish_label (node_counter : nat) (label : string) : string :=
  let label :=
    if String.eqb label EmptyString
    then "Node" ++ PyStr.of_nat node_counter
    else label in
  if (25 <? String.length label)%nat
  then PyStr.take 22 label ++ "..."
  else label.

Definition clean_node_label (node_counter : nat) (label : string) : string :=
  if String.eqb label EmptyString
  then "Node" ++ PyStr.of_nat node_counter
  else finish_label node_counter (cleaned_form label).

(** ** Role classification (lines 160-199, 258-294) *)

Open Scope Z_scope.

Definition lenZ {A : Type} (l : list A) : Z := Z.of_nat (List.length l).

(** The ordered keyword table of [get_execution_priority]: the first group
    with a keyword inside the lower-cased label gives the base score. *)
Definition priority_table : list (list string * Z) :=
  [ (["main"; "__main__"; "main()"; "int main"], 100);
    (["__init__"; "constructor"], 90);
    (["setup"; "initialize"; "init"; "config"], 80);
    (["start"; "begin"; "run"; "execute"], 70);
    (["process"; "handle"; "update"; "loop"], 60);
    (["read"; "input"; "receive"; "get"], 50);
    (["write"; "output"; "send"; "transmit"], 45);
    (["calculate"; "compute"; "transform"], 40);
    (["validate"; "check"; "verify"], 35);
    (["save"; "store"; "persist"], 30);
    (["cleanup"; "close"; "finalize"; "destroy"], 20);
    (["error"; "fail"; "exception"; "abort"], 15);
    (["test"; "debug"; "trace"], 10);
    (["helper"; "utility"; "util"], 5) ].

(** An [if / elif / ... / else] chain over keyword groups *)
Fixpoint first_group {A : Type} (table : list (list string * A)) (default : A)
    (label : string) : A :=
  match table with
  | [] => default
  | (keywords, v) :: rest =>
      if PyStr.any_in keywords label then v else first_group rest default label
  end.

Definition get_execution_priority (label : string)
    (outgoing_count incoming_count : Z) : Z :=
  let label_lower := PyStr.lower label in
  let priority := 0 + first_group priority_table 0 label_lower in
  let priority := priority + Z.min 20 (outgoing_count * 2) in
  priority + Z.min 10 incoming_count.

Definition category_table : list (list string * Z) :=
  [ (["main"; "__main__"; "main()"], 1);
    (["__init__"; "constructor"; "setup"], 2);
    (["config"; "configure"; "initialize"], 3);
    (["start"; "begin"; "run"; "execute"], 4);
    (["read"; "input"; "receive"; "get"], 5);
    (["process"; "handle"; "calculate"; "compute"], 6);
    (["validate"; "check"; "verify"], 7);
    (["write"; "output"; "send"; "transmit"], 8);
    (["update"; "modify"; "change"], 9);
    (["save"; "store"; "persist"], 10);
    (["timer"; "delay"; "wait"; "sleep"], 11);
    (["cleanup"; "close"; "finalize"], 12);
    (["error"; "fail"; "exception"], 13);
    (["test"; "debug"; "trace"], 14);
    (["helper"; "utility"; "util"], 15) ].

Definition get_function_category_order (label : string) : Z :=
  first_group category_table 6 (PyStr.lower label).

(** ** Edge style (lines 296-372)

    The coordinates are numbers that are only subtracted and compared; the
    caller passes integer x coordinates.  The y coordinates enter through
    the three comparisons alone, so integers stand for them (a y that ends
    in one half can be passed doubled together with the other y). *)

Inductive flow : Type := Downward | Upward | Lateral.

Definition flow_direction (source_y target_y : Z) : flow :=
  if source_y <? target_y then Downward
  else if target_y <? source_y then Upward
  else Lateral.

Definition base_style : string :=
  "edgeStyle=orthogonalEdgeStyle;rounded=1;orthogonalLoop=1;jettySize=auto;html=1;endArrow=classic;shadow=1;labelBackgroundColor=#ffffff;".

Definition get_edge_style (source_label target_label : string)
    (source_x source_y target_x target_y : Z) : string :=
  let is_downward := source_y <? target_y in
  let is_upward := target_y <? source_y in
  let is_lateral := target_y =? source_y in
  let x_distance := Z.abs (target_x - source_x) in
  let is_main_entry := PyStr.any_in ["main"; "__main__"; "init"; "setup"] source_label in
  let is_error_handling := PyStr.any_in ["error"; "fail"; "exception"; "abort"] target_label in
  let is_utility_call := PyStr.any_in ["get"; "set"; "property"; "util"; "helper"] target_label in
  let is_io_operation := PyStr.any_in ["read"; "write"; "input"; "output"; "send"; "receive"] target_label in
  let is_cleanup := PyStr.any_in ["cleanup"; "close"; "finalize"; "destroy"] target_label in
  let is_timing := PyStr.any_in ["timer"; "delay"; "wait"; "sleep"] target_label in
  let routing_style :=
    if (300 <? x_distance) || (is_lateral && (200 <? x_distance))
       || (is_upward && (150 <? x_distance))
    then "entryX=0.5;entryY=0;exitX=0.5;exitY=1;noEdgeStyle=1;"
    else "entryX=0.5;entryY=0;exitX=0.5;exitY=1;" in
  if is_downward then
    if is_main_entry then
      base_style ++ routing_style ++ "strokeWidth=4;strokeColor=#1976d2;fontColor=#1976d2;fontStyle=1;opacity=90;"
    else if is_error_handling then
      base_style ++ routing_style ++ "strokeWidth=2.5;strokeColor=#e53e3e;dashed=1;opacity=85;"
    else if is_io_operation then
      base_style ++ routing_style ++ "strokeWidth=2.5;strokeColor=#9775fa;opacity=85;"
    else if is_cleanup then
      base_style ++ routing_style ++ "strokeWidth=2;strokeColor=#fd7e14;dashed=1;opacity=80;"
    else
      base_style ++ routing_style ++ "strokeWidth=2;strokeColor=#339af0;opacity=85;"
  else if is_upward then
    if is_error_handling then
      base_style ++ "edgeStyle=elbowEdgeStyle;elbow=vertical;" ++ "strokeWidth=2.5;strokeColor=#e53e3e;dashed=1;opacity=80;"
    else
      base_style ++ "edgeStyle=elbowEdgeStyle;elbow=vertical;" ++ "strokeWidth=2;strokeColor=#fd7e14;dashed=1;opacity=75;"
  else
    let curve_style :=
      if 200 <? x_distance then "edgeStyle=elbowEdgeStyle;elbow=horizontal;"
      else "edgeStyle=orthogonalEdgeStyle;" in
    if is_error_handling then
      base_style ++ curve_style ++ "strokeWidth=2;strokeColor=#e53e3e;opacity=80;"
    else if is_utility_call then
      base_style ++ curve_style ++ "strokeWidth=1.5;strokeColor=#37b24d;opacity=75;"
    else if is_timing then
      base_style ++ curve_style ++ "strokeWidth=2;strokeColor=#ff8787;opacity=80;"
    else if is_io_operation then
      base_style ++ curve_style ++ "strokeWidth=2;strokeColor=#9775fa;opacity=80;"
    else
      base_style ++ curve_style ++ "strokeWidth=2;strokeColor=#38d9a9;opacity=80;".

(** The role signals [get_edge_style] derives from the two labels *)
Record role_signals : Type := {
  sig_main_entry : bool;
  sig_error_handling : bool;
  sig_utility_call : bool;
  sig_io_operation : bool;
  sig_cleanup : bool;
  sig_timing : bool
}.

Definition edge_signals (source_label target_label : string) : role_signals :=
  {| sig_main_entry := PyStr.any_in ["main"; "__main__"; "init"; "setup"] source_label;
     sig_error_handling := PyStr.any_in ["error"; "fail"; "exception"; "abort"] target_label;
     sig_utility_call := PyStr.any_in ["get"; "set"; "property"; "util"; "helper"] target_label;
     sig_io_operation := PyStr.any_in ["read"; "write"; "input"; "output"; "send"; "receive"] target_label;
     sig_cleanup := PyStr.any_in ["cleanup"; "close"; "finalize"; "destroy"] target_label;
     sig_timing := PyStr.any_in ["timer"; "delay"; "wait"; "sleep"] target_label |}.

(** ** Ingestion (lines 41-55, 116-128, 1209-1405) *)

Definition edge : Type := (string * string)%type.

Definition edge_eqb (e1 e2 : edge) : bool :=
  String.eqb (fst e1) (fst e2) && String.eqb (snd e1) (snd e2).

(** [e in edges] *)
Definition edge_in (e : edge) (edges : list edge) : bool :=
  existsb (edge_eqb e) edges.

(** The accumulating fields of [DoxygenToDrawioConverter] *)
Record converter : Type := {
  label_to_simple : dict string;
  simple_to_label : dict string;
  all_edges : list edge;
  node_counter : nat;
  original_to_simple : dict string;
  file_sources : dict string
}.

Definition new_converter : converter :=
  {| label_to_simple := [];
     simple_to_label := [];
     all_edges := [];
     node_counter := 1;
     original_to_simple := [];
     file_sources := [] |}.

(** Truth value of a string *)
Definition truthy (s : string) : bool := negb (String.eqb s EmptyString).

(** The first existing label similar to [clean_label], in insertion order *)
Fixpoint first_similar (clean_label : string) (items : dict string)
    : option string :=
  match items with
  | [] => None
  | (existing_label, existing_id) :: rest =>
      if are_labels_similar clean_label existing_label then Some existing_id
      else first_similar clean_label rest
  end.

Definition find_similar_node (c : converter) (clean_label : string)
    : option string :=
  match dict_get (label_to_simple c) clean_label with
  | Some id => Some id
  | None => first_similar clean_label (label_to_simple c)
  end.

(** One match of a node pattern, with the groups as the pattern yields them
    (patterns 0 to 3 of [node_patterns]). *)
Inductive node_match : Type :=
| StandardNode (original_node_id node_unique_id node_label : string)
| SimpleNode (original_node_id node_label : string)
| FullNode (original_node_id node_unique_id node_label : string)
| ComplexNode (original_node_id middle_part node_label : string).

Definition match_original_id (m : node_match) : string :=
  match m with
  | StandardNode o _ _ | SimpleNode o _ | FullNode o _ _ | ComplexNode o _ _ => o
  end.

Definition match_label (m : node_match) : string :=
  match m with
  | StandardNode _ _ l | SimpleNode _ l | FullNode _ _ l | ComplexNode _ _ l => l
  end.

(** A DOT document as the regular expressions of [process_single_dot_file]
    see it: whether it could be read, whether [digraph\s+] occurs, and the
    matches of the node patterns and of the edge patterns, each list in the
    order the nested loops visit them (pattern by pattern, match by match). *)
Record document : Type := {
  file_basename : string;
  readable : bool;
  has_digraph : bool;
  node_matches : list node_match;
  edge_matches : list (string * string)
}.

Definition reserved_labels : list string := ["node"; "graph"; "cluster"].

Definition scoped_id (basename original_id : string) : string :=
  basename ++ "::" ++ original_id.

(** Lines 1283-1288: a new node takes the next identifier *)
Definition mint_node (basename : string) (c : converter) (clean_label : string)
    : converter * string :=
  let simple_node_id := "node-" ++ PyStr.of_nat (node_counter c) in
  ({| label_to_simple := dict_set (label_to_simple c) clean_label simple_node_id;
      simple_to_label := dict_set (simple_to_label c) simple_node_id clean_label;
      all_edges := all_edges c;
      node_counter := S (node_counter c);
      original_to_simple := original_to_simple c;
      file_sources := dict_set (file_sources c) simple_node_id basename |},
   simple_node_id).

(** Body of the node loop (lines 1249-1294); the second component is the
    set [processed_nodes]. *)
Definition ingest_node (basename : string) (acc : converter * list string)
    (m : node_match) : converter * list string :=
  let (c, processed_nodes) := acc in
  let original_node_id := match_original_id m in
  let node_key := scoped_id basename original_node_id in
  if PyStr.mem node_key processed_nodes then (c, processed_nodes)
  else
    let processed_nodes := node_key :: processed_nodes in
    let clean_label := clean_node_label (node_counter c) (match_label m) in
    if negb (truthy clean_label)
       || PyStr.mem (PyStr.lower clean_label) reserved_labels
    then (c, processed_nodes)
    else
      let similar_node_id := find_similar_node c clean_label in
      let (c, simple_node_id) :=
        match similar_node_id with
        | Some id =>
            if truthy id then (c, id)
            else mint_node basename c clean_label
        | None => mint_node basename c clean_label
        end in
      let full_original_id := scoped_id basename original_node_id in
      let o2s := dict_set (original_to_simple c) full_original_id simple_node_id in
      let o2s := dict_set o2s original_node_id simple_node_id in
      ({| label_to_simple := label_to_simple c;
          simple_to_label := simple_to_label c;
          all_edges := all_edges c;
          node_counter := node_counter c;
          original_to_simple := o2s;
          file_sources := file_sources c |}, processed_nodes).

(** The first candidate present in [original_to_simple] (lines 1318-1326) *)
Fixpoint resolve (o2s : dict string) (candidates : list string) : option string :=
  match candidates with
  | [] => None
  | cand :: rest =>
      match dict_get o2s cand with
      | Some id => Some id
      | None => resolve o2s rest
      end
  end.

(** Body of the edge loop (lines 1309-1335); the second component is the
    set [processed_edges]. *)
Definition ingest_edge (basename : string) (acc : converter * list edge)
    (m : string * string) : converter * list edge :=
  let (c, processed_edges) := acc in
  let (source_original, target_original) := m in
  let source_simple :=
    resolve (original_to_simple c)
            [scoped_id basename source_original; source_original] in
  let target_simple :=
    resolve (original_to_simple c)
            [scoped_id basename target_original; target_original] in
  match source_simple, target_simple with
  | Some src, Some tgt =>
      if truthy src && truthy tgt && negb (String.eqb src tgt) then
        let e : edge := (src, tgt) in
        if negb (edge_in e processed_edges) && negb (edge_in e (all_edges c))
        then ({| label_to_simple := label_to_simple c;
                 simple_to_label := simple_to_label c;
                 all_edges := all_edges c ++ [e];
                 node_counter := node_counter c;
                 original_to_simple := original_to_simple c;
                 file_sources := file_sources c |}, e :: processed_edges)
        else (c, processed_edges)
      else (c, processed_edges)
  | _, _ => (c, processed_edges)
  end.

Definition process_single_dot_file (c : converter) (doc : document) : converter :=
  if negb (readable doc) then c
  else if negb (has_digraph doc) then c
  else if PyStr.contains "dep.dot" (file_basename doc)
          || PyStr.contains "dir_" (file_basename doc) then c
  else
    let (c, _) :=
      fold_left (ingest_node (file_basename doc)) (node_matches doc) (c, []) in
    let (c, _) :=
      fold_left (ingest_edge (file_basename doc)) (edge_matches doc) (c, []) in
    c.

(** The loop of lines 1371-1380: keep the first occurrence of every edge.
    [seen_edges] is kept in reverse order of insertion. *)
Fixpoint unique_edges_from (seen_edges : list edge) (edges : list edge) : list edge :=
  match edges with
  | [] => []
  | e :: rest =>
      if edge_in e seen_edges then unique_edges_from seen_edges rest
      else e :: unique_edges_from (e :: seen_edges) rest
  end.

Definition final_deduplication_pass (c : converter) : converter :=
  let valid (id : string) := dict_has (simple_to_label c) id in
  {| label_to_simple := label_to_simple c;
     simple_to_label := simple_to_label c;
     all_edges := unique_edges_from [] (all_edges c);
     node_counter := node_counter c;
     original_to_simple :=
       filter (fun kv => valid (snd kv)) (original_to_simple c);
     file_sources := filter (fun kv => valid (fst kv)) (file_sources c) |}.

(** [combine_all_dot_files] after the files have been found: the converter
    after all documents and the final pass, and the returned flag. *)
Definition ingest_all (docs : list document) : converter :=
  final_deduplication_pass (fold_left process_single_dot_file docs new_converter).

Definition combine_all_dot_files (docs : list document) : converter * bool :=
  match docs with
  | [] => (new_converter, false)
  | _ =>
      let c := ingest_all docs in
      (c, (0 <? List.length (simple_to_label c))%nat)
  end.

(** ** Sorting

    [sorted] and [list.sort] are stable, and so is [reverse=True]; the
    result of a stable sort is determined by the key order, so insertion
    sort stands for it.  [before x y] says that [x] may stay in front of
    [y] when [x] comes first in the input. *)

Section Sort.
Context {A : Type} (before : A -> A -> bool).

Fixpoint insert_sorted (x : A) (l : list A) : list A :=
  match l with
  | [] => [x]
  | y :: l' => if before x y then x :: l else y :: insert_sorted x l'
  end.

Fixpoint stable_sort (l : list A) : list A :=
  match l with
  | [] => []
  | x :: l' => insert_sorted x (stable_sort l')
  end.
End Sort.

(** Comparison of tuples of integers *)
Fixpoint lex_compare (a b : list Z) : comparison :=
  match a, b with
  | [], [] => Eq
  | [], _ :: _ => Lt
  | _ :: _, [] => Gt
  | x :: a', y :: b' =>
      match x ?= y with
      | Eq => lex_compare a' b'
      | c => c
      end
  end.

Definition lex_leb (a b : list Z) : bool :=
  match lex_compare a b with Gt => false | _ => true end.

(** Comparison of tuples that end in a string *)
Definition keyed_leb (a b : list Z * string) : bool :=
  match lex_compare (fst a) (fst b) with
  | Lt => true
  | Gt => false
  | Eq => String.leb (snd a) (snd b)
  end.

(** [sorted(l, key=key)] and [sorted(l, key=key, reverse=True)] for an
    integer-tuple key *)
Definition sort_ascending {A : Type} (key : A -> list Z) (l : list A) : list A :=
  stable_sort (fun x y => lex_leb (key x) (key y)) l.

Definition sort_descending {A : Type} (key : A -> list Z) (l : list A) : list A :=
  stable_sort (fun x y => lex_leb (key y) (key x)) l.

(** [max(l)] and [min(l)], with the value for the empty list given *)
Definition max_list (default : Z) (l : list Z) : Z :=
  match l with
  | [] => default
  | x :: l' => fold_left Z.max l' x
  end.

Definition min_list (default : Z) (l : list Z) : Z :=
  match l with
  | [] => default
  | x :: l' => fold_left Z.min l' x
  end.

Definition is_empty {A : Type} (l : list A) : bool :=
  match l with [] => true | _ => false end.

(** ** Hierarchical layout: adjacency and roots (lines 1407-1486) *)

(** The edges that pass [source in nodes and target in nodes] *)
Definition valid_edges (nodes : dict string) (edges : list edge) : list edge :=
  filter (fun e => dict_has nodes (fst e) && dict_has nodes (snd e)) edges.

(** [outgoing[n]] and [incoming[n]] for a node of [nodes]: the adjacency
    lists are filled in edge order. *)
Definition outgoing (nodes : dict string) (edges : list edge) (n : string)
    : list string :=
  map snd (filter (fun e => String.eqb (fst e) n) (valid_edges nodes edges)).

Definition incoming (nodes : dict string) (edges : list edge) (n : string)
    : list string :=
  map fst (filter (fun e => String.eqb (snd e) n) (valid_edges nodes edges)).

Definition adjacency : Type := string -> list string.

Definition is_isolated (inc out : adjacency) (n : string) : bool :=
  is_empty (inc n) && is_empty (out n).

Definition isolated_nodes (nodes : dict string) (inc out : adjacency)
    : list string :=
  filter (is_isolated inc out) (dict_keys nodes).

Definition connected_nodes (nodes : dict string) (inc out : adjacency)
    : dict string :=
  filter (fun kv => negb (is_isolated inc out (fst kv))) nodes.

Definition entry_table : list (list string * Z) :=
  [ (["main"; "__main__"; "main()"; "int main"], 20);
    (["__init__"; "constructor"; "setup"; "start"; "begin"], 15);
    (["init"; "config"; "configure"; "initialize"], 12);
    (["run"; "execute"; "process"; "loop"; "update"], 10);
    (["read"; "write"; "send"; "receive"; "input"; "output"], 8);
    (["timer"; "delay"; "wait"; "sleep"; "schedule"], 6);
    (["handle"; "callback"; "event"; "interrupt"; "trigger"], 5);
    (["error"; "fail"; "exception"; "abort"; "catch"], 3);
    (["test"; "unittest"; "pytest"; "assert"; "check"], 2) ].

(** One element of [entry_candidates] (lines 1437-1476) *)
Definition entry_candidate (out : adjacency) (kv : string * string)
    : string * Z :=
  let (node, label) := kv in
  let priority := first_group entry_table 1 (PyStr.lower label) in
  let connectivity_boost := Z.min 5 (lenZ (out node)) in
  (node, priority + connectivity_boost).

(** The sort key of line 1480 *)
Definition entry_key (inc out : adjacency) (x : string * Z) : list Z :=
  [snd x; lenZ (out (fst x)); - lenZ (inc (fst x))].

Definition max_roots (candidates : Z) : Z :=
  Z.min 5 (Z.max 1 (candidates / 10)).

(** The synthetic roots (lines 1478-1486) *)
Definition synthetic_roots (connected : dict string) (inc out : adjacency)
    : list string :=
  let entry_candidates := map (entry_candidate out) connected in
  match entry_candidates with
  | _ :: _ =>
      let sorted := sort_descending (entry_key inc out) entry_candidates in
      map fst (firstn (Z.to_nat (max_roots (lenZ entry_candidates))) sorted)
  | [] =>
      firstn 3 (sort_descending (fun x => [lenZ (out x)]) (dict_keys connected))
  end.

Definition select_roots (connected : dict string) (inc out : adjacency)
    : list string :=
  match filter (fun n => is_empty (inc n)) (dict_keys connected) with
  | (_ :: _) as roots => roots
  | [] => synthetic_roots connected inc out
  end.

(** ** Level assignment (lines 1488-1529, 201-256) *)

(** The iterations of the [while] loop that pop an already visited node *)
Fixpoint drop_visited (visited : list string) (queue : list (string * Z))
    : list (string * Z) :=
  match queue with
  | [] => []
  | (node, level) :: queue' =>
      if PyStr.mem node visited then drop_visited visited queue' else queue
  end.

(** The sort key of the children (lines 1507-1509) *)
Definition child_key (nodes : dict string) (inc out : adjacency) (x : string)
    : list Z :=
  [get_execution_priority (dict_get_default nodes x EmptyString)
                          (lenZ (out x)) (lenZ (inc x))].

(** The first pass (lines 1495-1513).  One unit of [fuel] is spent for each
    node that is visited; [None] means that the fuel ran out. *)
Fixpoint bfs_loop (fuel : nat) (nodes connected : dict string)
    (inc out : adjacency) (queue : list (string * Z)) (levels : dict Z)
    (visited : list string) : option (dict Z) :=
  match drop_visited visited queue with
  | [] => Some levels
  | (node, level) :: queue' =>
      match fuel with
      | O => None
      | S fuel' =>
          let visited := node :: visited in
          let level :=
            match dict_get levels node with
            | Some l => Z.max level l
            | None => level
            end in
          let levels := dict_set levels node level in
          let children := sort_descending (child_key nodes inc out) (out node) in
          let new_entries :=
            map (fun child => (child, level + 1))
                (filter (fun child => negb (PyStr.mem child visited)
                                      && dict_has connected child) children) in
          bfs_loop fuel' nodes connected inc out (queue' ++ new_entries)
                   levels visited
      end
  end.

(** Every visit takes a node of [connected] that was not visited before, so
    as many units of fuel as there are connected nodes suffice
    ([bfs_levels_total] below). *)
Definition bfs_levels (nodes connected : dict string) (inc out : adjacency)
    (roots : list string) : dict Z :=
  match bfs_loop (List.length connected) nodes connected inc out
                 (map (fun root => (root, 0)) roots) [] [] with
  | Some levels => levels
  | None => []
  end.

Inductive function_group : Type :=
| Entry | Core | IO | Processing | Utility | Error | Cleanup.

Definition function_group_eqb (a b : function_group) : bool :=
  match a, b with
  | Entry, Entry | Core, Core | IO, IO | Processing, Processing
  | Utility, Utility | Error, Error | Cleanup, Cleanup => true
  | _, _ => false
  end.

Definition group_table : list (list string * function_group) :=
  [ (["main"; "__main__"; "__init__"; "constructor"; "setup"; "initialize"], Entry);
    (["error"; "fail"; "exception"; "abort"; "catch"], Error);
    (["cleanup"; "close"; "finalize"; "destroy"; "delete"], Cleanup);
    (["read"; "write"; "input"; "output"; "send"; "receive"], IO);
    (["process"; "calculate"; "compute"; "transform"; "parse"], Processing);
    (["helper"; "utility"; "util"; "get"; "set"], Utility) ].

Definition group_of (label : string) : function_group :=
  first_group group_table Core (PyStr.lower label).

(** [function_groups[g]]: the connected nodes of a group, in dict order *)
Definition function_group_nodes (connected : dict string) (g : function_group)
    : list string :=
  map fst (filter (fun kv => function_group_eqb (group_of (snd kv)) g) connected).

(** [levels.get(node, 0)] *)
Definition level_of (levels : dict Z) (node : string) : Z :=
  dict_get_default levels node 0.

(** One iteration of the error loop (lines 240-246) *)
Definition pull_error (inc : adjacency) (error_target_level : Z)
    (levels : dict Z) (node : string) : dict Z :=
  if error_target_level + 1 <? level_of levels node then
    let can_move :=
      forallb (fun parent => level_of levels parent <? error_target_level)
              (inc node) in
    if can_move then dict_set levels node error_target_level else levels
  else levels.

(** One iteration of the cleanup loop (lines 251-256) *)
Definition pull_cleanup (inc : adjacency) (cleanup_base_level : Z)
    (levels : dict Z) (node : string) : dict Z :=
  if level_of levels node <? cleanup_base_level then
    let can_move :=
      forallb (fun parent => level_of levels parent <? cleanup_base_level)
              (inc node) in
    if can_move then dict_set levels node cleanup_base_level else levels
  else levels.

(** Lines 235-246 *)
Definition refine_errors (levels : dict Z) (connected : dict string)
    (inc : adjacency) : dict Z :=
  let min_entry_level :=
    min_list 0 (map (level_of levels) (function_group_nodes connected Entry)) in
  match function_group_nodes connected Error with
  | [] => levels
  | errors =>
      let error_target_level := Z.max 2 (min_entry_level + 2) in
      fold_left (pull_error inc error_target_level) errors levels
  end.

(** [cleanup_base_level] of line 250; the generator is not empty when the
    cleanup group is not. *)
Definition cleanup_base (levels : dict Z) (connected : dict string) : Z :=
  max_list 0 (map (level_of levels) (dict_keys connected)) - 1.

(** Lines 248-256 *)
Definition refine_cleanups (levels : dict Z) (connected : dict string)
    (inc : adjacency) : dict Z :=
  match function_group_nodes connected Cleanup with
  | [] => levels
  | cleanups =>
      fold_left (pull_cleanup inc (cleanup_base levels connected)) cleanups levels
  end.

Definition refine_levels_by_function_type (levels : dict Z)
    (connected : dict string) (inc out : adjacency) : dict Z :=
  refine_cleanups (refine_errors levels connected inc) connected inc.

(** One iteration of the loop of lines 1522-1529 *)
Definition assign_remaining_node (inc : adjacency) (levels : dict Z)
    (node : string) : dict Z :=
  if dict_has levels node then levels
  else
    match inc node with
    | [] => dict_set levels node 0
    | parents =>
        let max_parent_level := max_list 0 (map (level_of levels) parents) in
        dict_set levels node (max_parent_level + 1)
    end.

Definition assign_remaining (levels : dict Z) (connected : dict string)
    (inc : adjacency) : dict Z :=
  fold_left (assign_remaining_node inc) (dict_keys connected) levels.

(** The levels before the crowded ones are split (lines 1489-1529) *)
Definition assign_levels (nodes : dict string) (edges : list edge) : dict Z :=
  let inc := incoming nodes edges in
  let out := outgoing nodes edges in
  let connected := connected_nodes nodes inc out in
  let roots := select_roots connected inc out in
  let levels := bfs_levels nodes connected inc out roots in
  let levels := refine_levels_by_function_type levels connected inc out in
  assign_remaining levels connected inc.

(** ** Crowded levels (lines 1531-1559)

    From here on a level may be an integer plus one half ([level + 0.5]).
    A [rank] is twice the Python level: an exact integer encoding of these
    values, with the same order. *)

Definition rank : Type := Z.

Definition rank_of_level (level : Z) : rank := 2 * level.

(** [level + 0.5] *)
Definition half_above (r : rank) : rank := r + 1.

(** [level_groups]: a dict from rank to the nodes of that rank *)
Definition groups : Type := list (rank * list string).

Fixpoint groups_get (g : groups) (r : rank) : list string :=
  match g with
  | [] => []
  | (r', l) :: g' => if r' =? r then l else groups_get g' r
  end.

Fixpoint groups_set (g : groups) (r : rank) (l : list string) : groups :=
  match g with
  | [] => [(r, l)]
  | (r', l') :: g' =>
      if r' =? r then (r', l) :: g' else (r', l') :: groups_set g' r l
  end.

(** Body of the loop of lines 1533-1536 *)
Fixpoint groups_append (g : groups) (r : rank) (node : string) : groups :=
  match g with
  | [] => [(r, [node])]
  | (r', l) :: g' =>
      if r' =? r then (r', (l ++ [node])%list) :: g'
      else (r', l) :: groups_append g' r node
  end.

Definition group_by_level (levels : dict rank) : groups :=
  fold_left (fun g kv => groups_append g (snd kv) (fst kv)) levels [].

Definition sorted_ranks (g : groups) : list rank :=
  sort_ascending (fun r => [r]) (map fst g).

Definition max_nodes_per_level : Z := 8.

Definition is_important (nodes : dict string) (out : adjacency) (n : string)
    : bool :=
  (1 <? lenZ (out n))
  || PyStr.any_in ["main"; "init"; "setup"; "create"; "start"]
       (PyStr.lower (dict_get_default nodes n EmptyString)).

(** Body of the loop of lines 1540-1559 *)
Definition split_level (nodes : dict string) (out : adjacency)
    (acc : groups * dict rank) (level : rank) : groups * dict rank :=
  let (level_groups, levels) := acc in
  let nodes_in_level := groups_get level_groups level in
  if max_nodes_per_level <? lenZ nodes_in_level then
    let important_nodes := filter (is_important nodes out) nodes_in_level in
    let regular_nodes :=
      filter (fun n => negb (PyStr.mem n important_nodes)) nodes_in_level in
    let level_groups := groups_set level_groups level important_nodes in
    match regular_nodes with
    | [] => (level_groups, levels)
    | _ =>
        let new_level := half_above level in
        (groups_set level_groups new_level regular_nodes,
         fold_left (fun lv node => dict_set lv node new_level) regular_nodes levels)
    end
  else (level_groups, levels).

(** [level_groups] and [levels] after the redistribution *)
Definition redistribute (nodes : dict string) (out : adjacency)
    (levels : dict Z) : groups * dict rank :=
  let ranks := map (fun kv => (fst kv, rank_of_level (snd kv))) levels in
  let level_groups := group_by_level ranks in
  fold_left (split_level nodes out) (sorted_ranks level_groups)
            (level_groups, ranks).

(** The rank of every connected node when the layout is done *)
Definition final_ranks (nodes : dict string) (edges : list edge) : dict rank :=
  snd (redistribute nodes (outgoing nodes edges) (assign_levels nodes edges)).

(** ** Node sizes (lines 1707-1770) *)

Definition font_table : list (list string * Z) :=
  [ (["main"; "__main__"; "main()"; "int main"], 12);
    (["__init__"; "constructor"; "destructor"; "~"; "setup"; "start"; "begin"; "run"], 11);
    (["error"; "fail"; "exception"; "abort"; "throw"; "catch"; "except"], 11);
    (["test"; "unittest"; "pytest"; "assert"; "check"], 10) ].

Definition get_node_font_size (label : string) (isolated : bool) : Z :=
  if isolated then 10 else first_group font_table 11 (PyStr.lower label).

(** [char_width_map.get(font_size, 6.5)], in half pixels: the widths are
    multiples of one half, so the text width is kept doubled and exact. *)
Definition char_width2 (font_size : Z) : Z :=
  if font_size =? 9 then 11
  else if font_size =? 10 then 12
  else if font_size =? 11 then 13
  else if font_size =? 12 then 14
  else if font_size =? 13 then 15
  else if font_size =? 14 then 16
  else if font_size =? 16 then 18
  else 13.

(** The pair [(int(calculated_width), int(calculated_height))] *)
Definition calculate_node_size (label : string) (font_size : Z)
    (isolated : bool) : Z * Z :=
  let text_width2 := Z.of_nat (String.length label) * char_width2 font_size in
  let min_width := 100 in
  let max_width := 300 in
  let min_height := 50 in
  let max_height := 100 in
  let padding_horizontal := 20 in
  let calculated_width2 :=
    Z.max (2 * min_width)
          (Z.min (2 * max_width) (text_width2 + 2 * padding_horizontal)) in
  let padding_vertical := 20 in
  let line_height := font_size + 4 in
  let calculated_height :=
    if 2 * (max_width - padding_horizontal) <? text_width2 then
      let lines_needed :=
        Z.max 1 (text_width2 / (2 * (max_width - padding_horizontal)) + 1) in
      Z.max min_height
            (Z.min max_height (lines_needed * line_height + padding_vertical))
    else Z.max min_height (line_height + padding_vertical) in
  let calculated_width2 :=
    if isolated
    then Z.max (2 * (min_width - 10)) (calculated_width2 - 2 * 10)
    else calculated_width2 in
  let calculated_height :=
    if isolated
    then Z.max (min_height - 5) (calculated_height - 5)
    else calculated_height in
  (calculated_width2 / 2, calculated_height).

(** ** Positions (lines 1561-1705) *)

(** A position [(x, y)].  The x coordinate is an integer; [pos_y2] is twice
    the y coordinate, which is [200 + level * level_spacing] with a level
    that may end in one half. *)
Record position : Type := { pos_x : Z; pos_y2 : Z }.

(** Lines 1566-1576 *)
Definition node_size_of (isolated : list string) (kv : string * string)
    : string * (Z * Z) :=
  let (node_id, label) := kv in
  let is_isolated := PyStr.mem node_id isolated in
  let font_size := get_node_font_size label is_isolated in
  (node_id, calculate_node_size label font_size is_isolated).

Definition compute_node_sizes (nodes : dict string) (isolated : list string)
    : dict (Z * Z) :=
  fold_left (fun sizes kv =>
               let (node_id, size) := node_size_of isolated kv in
               dict_set sizes node_id size)
            nodes [].

Definition max_width_of (nodes : dict string) (isolated : list string) : Z :=
  fold_left (fun m kv => Z.max m (fst (snd (node_size_of isolated kv)))) nodes 0.

Definition max_height_of (nodes : dict string) (isolated : list string) : Z :=
  fold_left (fun m kv => Z.max m (snd (snd (node_size_of isolated kv)))) nodes 0.

(** Lines 1579-1586: [(level_spacing, base_node_spacing)] *)
Definition spacing (total_nodes max_node_width max_node_height : Z) : Z * Z :=
  if total_nodes <=? 10 then
    (Z.max 220 (max_node_height + 150), Z.max 280 (max_node_width + 120))
  else if total_nodes <=? 30 then
    (Z.max 250 (max_node_height + 180), Z.max 320 (max_node_width + 140))
  else if total_nodes <=? 60 then
    (Z.max 280 (max_node_height + 200), Z.max 360 (max_node_width + 160))
  else
    (Z.max 320 (max_node_height + 220), Z.max 400 (max_node_width + 180)).

(** Line 1589 *)
Definition max_nodes_in_level (level_groups : groups) : Z :=
  match level_groups with
  | [] => 1
  | _ => max_list 0 (map (fun g => lenZ (snd g)) level_groups)
  end.

(** Lines 1592-1597 *)
Definition main_graph_width_of (total_nodes max_in_level base_node_spacing : Z)
    : Z :=
  if total_nodes <=? 20 then Z.max 1200 (max_in_level * base_node_spacing + 600)
  else if total_nodes <=? 50 then Z.max 1600 (max_in_level * base_node_spacing + 800)
  else Z.max 2200 (max_in_level * base_node_spacing + 1000).

(** Lines 1600-1608 *)
Definition isolated_area_width_of (isolated_count : Z) : Z :=
  if 0 <? isolated_count then
    if isolated_count <=? 5 then 400
    else if isolated_count <=? 15 then 550
    else 700
  else 0.

(** Lines 1618-1625 *)
Definition node_spacing_of (count main_graph_width base_node_spacing : Z) : Z :=
  if 12 <? count then Z.max 280 (main_graph_width / (count + 1))
  else if 8 <? count then Z.max 320 (main_graph_width / (count + 1))
  else if 4 <? count then
    Z.max (base_node_spacing + 60) (main_graph_width / (count + 1))
  else base_node_spacing + 80.

(** The sort key of lines 1632-1638 *)
Definition level_node_key (nodes : dict string) (inc out : adjacency)
    (x : string) : list Z * string :=
  let label := dict_get_default nodes x EmptyString in
  ([ - get_execution_priority label (lenZ (out x)) (lenZ (inc x));
     - lenZ (out x);
     - lenZ (inc x);
     get_function_category_order label ],
   PyStr.lower label).

(** [for i, node in enumerate(l): positions[node] = place(i)] *)
Fixpoint place_all (place : Z -> position) (i : Z) (l : list string)
    (positions : dict position) : dict position :=
  match l with
  | [] => positions
  | node :: l' => place_all place (i + 1) l' (dict_set positions node (place i))
  end.

(** Body of the loop of lines 1614-1643 *)
Definition place_level (nodes : dict string) (inc out : adjacency)
    (level_groups : groups)
    (main_graph_width base_node_spacing level_spacing : Z)
    (positions : dict position) (level : rank) : dict position :=
  let level_nodes := groups_get level_groups level in
  let node_spacing :=
    node_spacing_of (lenZ level_nodes) main_graph_width base_node_spacing in
  let total_width := (lenZ level_nodes - 1) * node_spacing in
  let start_x := Z.max 200 ((main_graph_width - total_width) / 2) in
  let sorted_level_nodes :=
    stable_sort (fun x y => keyed_leb (level_node_key nodes inc out x)
                                      (level_node_key nodes inc out y))
                level_nodes in
  place_all (fun i => {| pos_x := start_x + i * node_spacing;
                         pos_y2 := 2 * 200 + level * level_spacing |})
            0 sorted_level_nodes positions.

Definition isolated_table : list (list string * Z) :=
  [ (["main"; "__main__"; "init"; "setup"], 1);
    (["config"; "configure"; "initialize"], 2);
    (["read"; "input"; "get"], 3);
    (["process"; "calculate"; "compute"], 4);
    (["write"; "output"; "send"], 5);
    (["validate"; "check"; "verify"], 6);
    (["timer"; "delay"; "wait"], 7);
    (["update"; "modify"; "set"], 8);
    (["save"; "store"; "persist"], 9);
    (["cleanup"; "close"; "finalize"], 10);
    (["test"; "check"; "assert"], 11);
    (["error"; "fail"; "exception"], 12);
    (["helper"; "utility"; "util"], 13) ].

Definition get_isolated_node_priority (nodes : dict string) (node : string)
    : list Z * string :=
  let label := PyStr.lower (dict_get_default nodes node EmptyString) in
  ([first_group isolated_table 7 label], label).

(** Lines 1648-1656: [(isolated_cols, gap)] *)
Definition isolated_columns (isolated_count : Z) : Z * Z :=
  if isolated_count <=? 6 then (1, 150)
  else if isolated_count <=? 18 then (2, 180)
  else (3, 200).

(** Lines 1646-1703 *)
Definition place_isolated (nodes : dict string) (isolated : list string)
    (main_graph_width max_node_width max_node_height : Z)
    (positions : dict position) : dict position :=
  match isolated with
  | [] => positions
  | _ =>
      let (isolated_cols, gap) := isolated_columns (lenZ isolated) in
      let isolated_start_x := main_graph_width + gap in
      let isolated_spacing_x := max_node_width + 60 in
      let isolated_spacing_y := max_node_height + 50 in
      let sorted_isolated :=
        stable_sort (fun x y => keyed_leb (get_isolated_node_priority nodes x)
                                          (get_isolated_node_priority nodes y))
                    isolated in
      place_all (fun i =>
                   let col := i mod isolated_cols in
                   let row := i / isolated_cols in
                   {| pos_x := isolated_start_x + col * isolated_spacing_x;
                      pos_y2 := 2 * (200 + row * isolated_spacing_y) |})
                0 sorted_isolated positions
  end.

(** What [calculate_hierarchical_layout] returns, with the main graph width
    it used. *)
Record layout : Type := {
  positions : dict position;
  node_sizes : dict (Z * Z);
  max_node_width : Z;
  max_node_height : Z;
  isolated_count : Z;
  canvas_width : Z;
  main_graph_width : Z
}.

Definition calculate_hierarchical_layout (nodes : dict string)
    (edges : list edge) : layout :=
  let inc := incoming nodes edges in
  let out := outgoing nodes edges in
  let isolated := isolated_nodes nodes inc out in
  let levels := assign_levels nodes edges in
  let (level_groups, _) := redistribute nodes out levels in
  let total_nodes := lenZ nodes in
  let sizes := compute_node_sizes nodes isolated in
  let max_w := max_width_of nodes isolated in
  let max_h := max_height_of nodes isolated in
  let (level_spacing, base_node_spacing) := spacing total_nodes max_w max_h in
  let mgw :=
    main_graph_width_of total_nodes (max_nodes_in_level level_groups)
                        base_node_spacing in
  let positions :=
    fold_left (place_level nodes inc out level_groups mgw base_node_spacing
                           level_spacing)
              (sorted_ranks level_groups) [] in
  let positions := place_isolated nodes isolated mgw max_w max_h positions in
  {| positions := positions;
     node_sizes := sizes;
     max_node_width := max_w;
     max_node_height := max_h;
     isolated_count := lenZ isolated;
     canvas_width := mgw + isolated_area_width_of (lenZ isolated);
     main_graph_width := mgw |}.

(** The lookups of the emitter's node loop (lines 1919-1921):
    [node_positions[node_id]] and [node_sizes[node_id]]; [None] stands for
    a [KeyError]. *)
Definition emitter_lookup (l : layout) (node_id : string)
    : option (position * (Z * Z)) :=
  match dict_get (positions l) node_id, dict_get (node_sizes l) node_id with
  | Some p, Some size => Some (p, size)
  | _, _ => None
  end.

(** ** Predicates used in the statements below *)

Definition underscore : ascii := "_"%char.

(** No character of [s] is an underscore *)
Fixpoint underscore_free (s : string) : Prop :=
  match s with
  | EmptyString => True
  | String c s' => c <> underscore /\ underscore_free s'
  end.

(** Some character of [s] is an underscore *)
Fixpoint has_underscore (s : string) : Prop :=
  match s with
  | EmptyString => False
  | String c s' => c = underscore \/ has_underscore s'
  end.

(** An edge list without self-loops and without repeated pairs *)
Definition edges_ok (l : list edge) : Prop :=
  NoDup l /\ forall e, In e l -> fst e <> snd e.

(** The order in which [sort_descending key] leaves its elements *)
Definition descending {A : Type} (key : A -> list Z) (x y : A) : Prop :=
  lex_leb (key y) (key x) = true.

(** The ring of eleven nodes of the counterexample to C4: every node has one
    incoming and one outgoing edge. *)
Definition ring_nodes : dict string :=
  [("node-1", "alpha"); ("node-2", "bravo"); ("node-3", "charlie");
   ("node-4", "delta"); ("node-5", "echo"); ("node-6", "foxtrot");
   ("node-7", "golf"); ("node-8", "hotel"); ("node-9", "india");
   ("node-10", "juliet"); ("node-11", "kilo")].

Definition ring_edges : list edge :=
  [("node-1", "node-2"); ("node-2", "node-3"); ("node-3", "node-4");
   ("node-4", "node-5"); ("node-5", "node-6"); ("node-6", "node-7");
   ("node-7", "node-8"); ("node-8", "node-9"); ("node-9", "node-10");
   ("node-10", "node-11"); ("node-11", "node-1")].

(** The graph of the counterexample to C2: a chain of three steps below "main",
    and a cleanup node below "main" with a successor of its own. *)
Definition cleanup_nodes : dict string :=
  [("node-1", "main"); ("node-2", "step_one"); ("node-3", "step_two");
   ("node-4", "step_three"); ("node-5", "cleanup"); ("node-6", "flush")].

Definition cleanup_edges : list edge :=
  [("node-1", "node-2"); ("node-2", "node-3"); ("node-3", "node-4");
   ("node-1", "node-5"); ("node-5", "node-6")].

(** The levels after the first pass of [calculate_hierarchical_layout] *)
Definition first_pass_levels (nodes : dict string) (edges : list edge) : dict Z :=
  let inc := incoming nodes edges in
  let out := outgoing nodes edges in
  let connected := connected_nodes nodes inc out in
  bfs_levels nodes connected inc out (select_roots connected inc out).

(** The levels after the second pass *)
Definition second_pass_levels (nodes : dict string) (edges : list edge) : dict Z :=
  let inc := incoming nodes edges in
  let out := outgoing nodes edges in
  let connected := connected_nodes nodes inc out in
  refine_levels_by_function_type (first_pass_levels nodes edges) connected inc out.

(** Why a node stands at a level after the first pass: it is a root at
    level 0, or some node one level above has an edge to it. *)
Definition reached (out : adjacency) (roots : list string) (levels : dict Z)
    (n : string) (l : Z) : Prop :=
  (In n roots /\ l = 0)
  \/ exists u, In n (out u) /\ dict_get levels u = Some (l - 1).

(** The invariant of the [while] loop of the first pass *)
Record bfs_invariant (connected : dict string) (out : adjacency)
    (roots : list string) (queue : list (string * Z)) (levels : dict Z)
    (visited : list string) : Prop := {
  queue_connected :
    forall n l, In (n, l) queue -> In n (dict_keys connected);
  visited_nodup : NoDup visited;
  visited_connected : incl visited (dict_keys connected);
  levels_visited : forall n, dict_has levels n = true -> In n visited;
  levels_nodup : NoDup (dict_keys levels);
  queue_reached : forall n l, In (n, l) queue -> reached out roots levels n l;
  levels_reached :
    forall n l, dict_get levels n = Some l -> reached out roots levels n l
}.

(** The invariant of the loop that splits the crowded levels: [levels] are
    the levels before the loop, [todo] the ranks still to be looked at,
    [g] and [lv] the current [level_groups] and [levels]. *)
Record split_invariant (levels : dict Z) (todo : list rank) (g : groups)
    (lv : dict rank) : Prop := {
  group_ranked : forall n r, In n (groups_get g r) -> dict_get lv n = Some r;
  ranked_grouped : forall n r, dict_get lv n = Some r -> In n (groups_get g r);
  rank_of_original :
    forall n l, dict_get levels n = Some l ->
      dict_get lv n = Some (rank_of_level l)
      \/ dict_get lv n = Some (half_above (rank_of_level l));
  ranked_original : forall n, dict_has lv n = true -> dict_has levels n = true;
  half_done :
    forall n r, dict_get lv n = Some r -> Z.even r = false -> ~ In (r - 1) todo
}.

(** The graph of the counterexample to C1: "node-1" calls "node-2" and "node-3",
    and "node-3" calls "node-2"; no label carries a role keyword. *)
Definition triangle_nodes : dict string :=
  [("node-1", "alpha"); ("node-2", "beta"); ("node-3", "gamma")].

Definition triangle_edges : list edge :=
  [("node-1", "node-2"); ("node-1", "node-3"); ("node-3", "node-2")].

(** [connected_nodes] and the roots as [calculate_hierarchical_layout]
    computes them *)
Definition layout_connected (nodes : dict string) (edges : list edge)
    : dict string :=
  connected_nodes nodes (incoming nodes edges) (outgoing nodes edges).

Definition layout_roots (nodes : dict string) (edges : list edge) : list string :=
  select_roots (layout_connected nodes edges)
               (incoming nodes edges) (outgoing nodes edges).

(** The x coordinate of slot [i] in a level of [count] nodes
    (lines 1618-1629 and 1641) *)
Definition slot_x (count main_graph_width base_node_spacing i : Z) : Z :=
  let node_spacing := node_spacing_of count main_graph_width base_node_spacing in
  let total_width := (count - 1) * node_spacing in
  Z.max 200 ((main_graph_width - total_width) / 2) + i * node_spacing.

(** The intermediate values of [calculate_hierarchical_layout] *)
Definition layout_isolated (nodes : dict string) (edges : list edge)
    : list string :=
  isolated_nodes nodes (incoming nodes edges) (outgoing nodes edges).

Definition layout_groups (nodes : dict string) (edges : list edge) : groups :=
  fst (redistribute nodes (outgoing nodes edges) (assign_levels nodes edges)).

Definition layout_max_width (nodes : dict string) (edges : list edge) : Z :=
  max_width_of nodes (layout_isolated nodes edges).

Definition layout_max_height (nodes : dict string) (edges : list edge) : Z :=
  max_height_of nodes (layout_isolated nodes edges).

Definition layout_level_spacing (nodes : dict string) (edges : list edge) : Z :=
  fst (spacing (lenZ nodes) (layout_max_width nodes edges)
               (layout_max_height nodes edges)).

Definition layout_base_spacing (nodes : dict string) (edges : list edge) : Z :=
  snd (spacing (lenZ nodes) (layout_max_width nodes edges)
               (layout_max_height nodes edges)).

Definition layout_main_width (nodes : dict string) (edges : list edge) : Z :=
  main_graph_width_of (lenZ nodes) (max_nodes_in_level (layout_groups nodes edges))
                      (layout_base_spacing nodes edges).

(** The positions after the loop over the levels, before the isolated nodes
    are placed *)
Definition ranked_positions (nodes : dict string) (edges : list edge)
    : dict position :=
  fold_left (place_level nodes (incoming nodes edges) (outgoing nodes edges)
                         (layout_groups nodes edges)
                         (layout_main_width nodes edges)
                         (layout_base_spacing nodes edges)
                         (layout_level_spacing nodes edges))
            (sorted_ranks (layout_groups nodes edges)) [].

(** The cleanup graph with one more node that no edge touches *)
Definition orphan_nodes : dict string :=
  (cleanup_nodes ++ [("node-7", "orphan")])%list.

(** ** Further predicates and helpers for the properties of the code *)

(** The characters of a string *)
Definition chars (s : string) : list ascii := list_ascii_of_string s.

Definition first_char (s : string) : option ascii :=
  match s with
  | EmptyString => None
  | String c _ => Some c
  end.

Fixpoint last_char (s : string) : option ascii :=
  match s with
  | EmptyString => None
  | String c EmptyString => Some c
  | String _ s' => last_char s'
  end.

(** No two underscores stand side by side in [s] *)
Fixpoint no_double_underscore (s : string) : Prop :=
  match s with
  | EmptyString => True
  | String c s' =>
      (c = underscore -> first_char s' <> Some underscore)
      /\ no_double_underscore s'
  end.

(** The identifier minted for the node counted [k] (line 1284) *)
Definition node_id (k : nat) : string := "node-" ++ PyStr.of_nat k.

Definition swap {A B : Type} (p : A * B) : B * A := (snd p, fst p).

(** What the accumulating fields of the converter satisfy between two node
    or edge statements *)
Record ingest_invariant (c : converter) : Prop := {
  counter_positive : (1 <= node_counter c)%nat;
  ids_sequential :
    dict_keys (simple_to_label c) = map node_id (seq 1 (node_counter c - 1));
  labels_inverse : simple_to_label c = map swap (label_to_simple c);
  labels_nodup : NoDup (dict_keys (label_to_simple c));
  labels_dissimilar :
    ForallOrdPairs
      (fun earlier later => are_labels_similar (fst later) (fst earlier) = false)
      (label_to_simple c);
  aliases_known :
    forall k v, In (k, v) (original_to_simple c) ->
                dict_has (simple_to_label c) v = true;
  edges_known :
    forall s t, In (s, t) (all_edges c) ->
                dict_has (simple_to_label c) s = true
                /\ dict_has (simple_to_label c) t = true;
  sources_known :
    forall k v, In (k, v) (file_sources c) ->
                dict_has (simple_to_label c) k = true
}.

(** The converter after the documents, before the final pass *)
Definition ingest_documents (docs : list document) : converter :=
  fold_left process_single_dot_file docs new_converter.

(** Two documents: the second declares "main" again and a cleanup node *)
Definition first_document : document :=
  {| file_basename := "a_cgraph.dot"; readable := true; has_digraph := true;
     node_matches :=
       [ StandardNode "Node1" "Node000001" "main";
         StandardNode "Node2" "Node000002" "init_config";
         StandardNode "Node3" "Node000003" "process_data" ];
     edge_matches := [("Node1", "Node2"); ("Node2", "Node3")] |}.

Definition second_document : document :=
  {| file_basename := "b_cgraph.dot"; readable := true; has_digraph := true;
     node_matches :=
       [ StandardNode "Node1" "Node000001" "main";
         StandardNode "Node2" "Node000002" "cleanup" ];
     edge_matches := [("Node1", "Node2")] |}.

(** The number of nodes that stand at [level] before the crowded levels are
    split, and whether that is more than [max_nodes_per_level] *)
Definition level_population (levels : dict Z) (level : Z) : Z :=
  lenZ (filter (fun kv => snd kv =? level) levels).

Definition crowded (levels : dict Z) (level : Z) : bool :=
  max_nodes_per_level <? level_population levels level.

(** A fan: "main" calls nine functions, one of which calls two more; level 1
    then holds nine nodes. *)
Definition fan_nodes : dict string :=
  [("node-1", "main"); ("node-2", "alpha"); ("node-3", "bravo");
   ("node-4", "charlie"); ("node-5", "delta"); ("node-6", "echo");
   ("node-7", "foxtrot"); ("node-8", "golf"); ("node-9", "hotel");
   ("node-10", "india"); ("node-11", "juliet"); ("node-12", "kilo")].

Definition fan_edges : list edge :=
  [("node-1", "node-2"); ("node-1", "node-3"); ("node-1", "node-4");
   ("node-1", "node-5"); ("node-1", "node-6"); ("node-1", "node-7");
   ("node-1", "node-8"); ("node-1", "node-9"); ("node-1", "node-10");
   ("node-2", "node-11"); ("node-2", "node-12")].

(** The nodes of a level, and the isolated nodes, in the order in which they
    are placed (lines 1632-1638 and 1696) *)
Definition level_order (nodes : dict string) (inc out : adjacency)
    (level_groups : groups) (level : rank) : list string :=
  stable_sort (fun x y => keyed_leb (level_node_key nodes inc out x)
                                    (level_node_key nodes inc out y))
              (groups_get level_groups level).

Definition isolated_order (nodes : dict string) (isolated : list string)
    : list string :=
  stable_sort (fun x y => keyed_leb (get_isolated_node_priority nodes x)
                                    (get_isolated_node_priority nodes y))
              isolated.

(** Two boxes, each given by the position of its top left corner and its
    [(width, height)], that share no point: one lies to the left of the other
    or above it. *)
Definition disjoint_boxes (p : position) (sp : Z * Z) (q : position)
    (sq : Z * Z) : Prop :=
  pos_x p + fst sp <= pos_x q \/ pos_x q + fst sq <= pos_x p
  \/ pos_y2 p + 2 * snd sp <= pos_y2 q \/ pos_y2 q + 2 * snd sq <= pos_y2 p.

(** The cleanup graph with two more nodes that no edge touches *)
Definition stray_nodes : dict string :=
  (cleanup_nodes ++ [("node-7", "orphan"); ("node-8", "read_config")])%list.

(** ** The emitter: side panel, node loop and edge loop (lines 1874-1988) *)

(** The x coordinates and sizes of the decorations of the isolated area
    (lines 1874-1916); [None] when there is no isolated node. *)
Record side_panel : Type := {
  background_x : Z;
  background_width : Z;
  header_x : Z;
  separator_x : Z;
  panel_height : Z
}.

Definition emitter_side_panel (l : layout) : option side_panel :=
  if 0 <? isolated_count l then
    let isolated_area_width :=
      if 15 <? isolated_count l then 700
      else if 5 <? isolated_count l then 550 else 400 in
    let main_graph_width := canvas_width l - isolated_area_width in
    Some {| background_x := main_graph_width + 80;
            background_width := isolated_area_width - 80;
            header_x := main_graph_width + 120;
            separator_x := main_graph_width + 50;
            panel_height := Z.max 700 (isolated_count l * 130) |}
  else None.

(** Line 1927: the emitter's own test for an isolated node *)
Definition emitter_is_isolated (edges : list edge) (node_id : string) : bool :=
  negb (PyStr.mem node_id (map fst edges))
  && negb (PyStr.mem node_id (map snd edges)).

(** Lines 1960-1980: the connection points [(x, y)] of the source and of the
    target, with the y coordinates doubled as in [pos_y2]. *)
Definition connection_points (source target : position)
    (source_size target_size : Z * Z) : (Z * Z) * (Z * Z) :=
  let (source_width, source_height) := source_size in
  let (target_width, target_height) := target_size in
  if pos_y2 source <? pos_y2 target then
    ((pos_x source + source_width / 2, pos_y2 source + 2 * source_height),
     (pos_x target + target_width / 2, pos_y2 target))
  else if pos_y2 target <? pos_y2 source then
    ((pos_x source + source_width / 2, pos_y2 source),
     (pos_x target + target_width / 2, pos_y2 target + 2 * target_height))
  else if pos_x source <? pos_x target then
    ((pos_x source + source_width, pos_y2 source + 2 * (source_height / 2)),
     (pos_x target, pos_y2 target + 2 * (target_height / 2)))
  else
    ((pos_x source, pos_y2 source + 2 * (source_height / 2)),
     (pos_x target + target_width, pos_y2 target + 2 * (target_height / 2))).

(** What the edge loop does with one edge (lines 1948-1988) *)
Inductive edge_outcome : Type :=
| EdgeSkipped
| EdgeKeyError
| EdgeStyled (style : string) (source_point target_point : Z * Z).

Definition emitter_edge (nodes : dict string) (l : layout) (e : edge)
    : edge_outcome :=
  let (source_id, target_id) := e in
  match dict_get (positions l) source_id, dict_get (positions l) target_id with
  | Some source, Some target =>
      match dict_get (node_sizes l) source_id,
            dict_get (node_sizes l) target_id,
            dict_get nodes source_id, dict_get nodes target_id with
      | Some source_size, Some target_size, Some source_label, Some target_label =>
          let (source_point, target_point) :=
            connection_points source target source_size target_size in
          EdgeStyled
            (get_edge_style (PyStr.lower source_label) (PyStr.lower target_label)
                            (fst source_point) (snd source_point)
                            (fst target_point) (snd target_point))
            source_point target_point
      | _, _, _, _ => EdgeKeyError
      end
  | _, _ => EdgeSkipped
  end.

(** The diagram of a converter: the layout of its nodes and edges *)
Definition converter_layout (c : converter) : layout :=
  calculate_hierarchical_layout (simple_to_label c) (all_edges c).

(** What the queue discipline of the first pass keeps true: the queue is in
    level order and spans at most two consecutive levels, a visited node
    has a level that no queued level undercuts, a successor of a leveled
    node is leveled or queued at most one level below it, and a root has
    level 0 or waits in the queue with level 0. *)
Record bfs_order (connected : dict string) (out : adjacency)
    (roots : list string) (queue : list (string * Z)) (levels : dict Z)
    (visited : list string) : Prop := {
  queue_sorted :
    StronglySorted (fun a b : string * Z => snd a <= snd b) queue;
  queue_narrow : forall a b, In a queue -> In b queue -> snd b <= snd a + 1;
  queue_nonneg : forall a, In a queue -> 0 <= snd a;
  visited_leveled :
    forall n, In n visited ->
      exists l, dict_get levels n = Some l /\ 0 <= l
                /\ forall a, In a queue -> l <= snd a;
  children_bounded :
    forall u lu v,
      dict_get levels u = Some lu -> In v (out u) ->
      dict_has connected v = true ->
      (exists lv, dict_get levels v = Some lv /\ lv <= lu + 1)
      \/ (exists l, In (v, l) queue /\ l <= lu + 1);
  roots_first :
    forall r, In r roots -> dict_get levels r = Some 0 \/ In (r, 0) queue
}.

(** ** Waypoints of same-level edges (lines 417-456)

    The waypoints are computed in floating point from integer x coordinates
    and from y coordinates that are integers or end in one half; every
    product here is by 0.25, 0.5, 0.75, 1.5 or 3 and is exact.  A waypoint
    is kept as [(4 * x, 2 * y)], and [mx_point] is the pair
    [(int(x), int(y))] that is written to the file. *)
Definition waypoint : Type := (Z * Z)%type.

Definition mx_point (w : waypoint) : Z * Z :=
  (Z.quot (fst w) 4, Z.quot (snd w) 2).



(** A document whose node statements can be read again without surprise:
    no label falls back to the synthetic label (which depends on the node
    counter), and no original identifier looks like another one prefixed
    with the file name. *)
Definition plain_document (doc : document) : Prop :=
  (forall m, In m (node_matches doc) ->
     match_label m <> EmptyString
     /\ cleaned_form (match_label m) <> EmptyString)
  /\ (forall m m', In m (node_matches doc) -> In m' (node_matches doc) ->
        match_original_id m
        <> scoped_id (file_basename doc) (match_original_id m')).

(** A document whose only label is cleaned away, so that the label falls
    back to the synthetic one *)
Definition blank_document : document :=
  {| file_basename := "c_cgraph.dot"; readable := true; has_digraph := true;
     node_matches := [ SimpleNode "Node1" "()" ];
     edge_matches := [] |}.

(** [page_width] of line 1856, before it is written as a string *)
Definition page_width (l : layout) : Z := Z.max 1800 (canvas_width l + 400).

(** * Properties *)

(** ** Dictionaries *)

Section DictFacts.
Context {V : Type}.
Implicit Types (d : dict V) (k : string) (v : V).

Lemma dict_get_set_same d k v : dict_get (dict_set d k v) k = Some v.
Proof.
  induction d as [|[k' v'] d IH]; simpl.
  - now rewrite String.eqb_refl.
  - destruct (String.eqb k' k) eqn:E; simpl; rewrite E; auto.
Qed.

Lemma dict_get_set_other d k k' v :
  k <> k' -> dict_get (dict_set d k v) k' = dict_get d k'.
Proof.
  intros Hne. induction d as [|[k0 v0] d IH]; simpl.
  - destruct (String.eqb_spec k k'); [contradiction | reflexivity].
  - destruct (String.eqb_spec k0 k) as [->|Hk]; simpl.
    + destruct (String.eqb_spec k k'); [contradiction | reflexivity].
    + destruct (String.eqb_spec k0 k'); auto.
Qed.

Lemma dict_get_set d k k' v :
  dict_get (dict_set d k v) k' = if String.eqb k k' then Some v else dict_get d k'.
Proof.
  destruct (String.eqb_spec k k') as [->|Hne].
  - apply dict_get_set_same.
  - now apply dict_get_set_other.
Qed.

Lemma dict_has_set d k k' v :
  dict_has (dict_set d k v) k' = String.eqb k k' || dict_has d k'.
Proof.
  unfold dict_has. rewrite dict_get_set.
  destruct (String.eqb k k'); reflexivity.
Qed.

Lemma dict_has_set_mono d k k' v :
  dict_has d k' = true -> dict_has (dict_set d k v) k' = true.
Proof. intros H. rewrite dict_has_set, H. apply orb_true_r. Qed.

Lemma dict_has_In_keys d k : dict_has d k = true <-> In k (dict_keys d).
Proof.
  unfold dict_has. induction d as [|[k0 v0] d IH]; simpl.
  - split; [discriminate | tauto].
  - destruct (String.eqb_spec k0 k) as [->|Hne].
    + split; auto.
    + rewrite IH. split; [auto | intros [?|?]; [contradiction | assumption]].
Qed.

Lemma dict_get_In d k v : dict_get d k = Some v -> In (k, v) d.
Proof.
  induction d as [|[k0 v0] d IH]; simpl; [discriminate|].
  destruct (String.eqb_spec k0 k) as [->|Hne].
  - intros [= ->]. now left.
  - intros H. right. auto.
Qed.

Lemma dict_In_get d k v :
  NoDup (dict_keys d) -> In (k, v) d -> dict_get d k = Some v.
Proof.
  induction d as [|[k0 v0] d IH]; simpl; [tauto|].
  intros Hnd [Heq|Hin]; inversion Hnd as [|? ? Hnotin Hnd']; subst.
  - injection Heq as -> ->. now rewrite String.eqb_refl.
  - destruct (String.eqb_spec k0 k) as [->|Hne]; auto.
    exfalso. apply Hnotin. change k with (fst (k, v)). now apply in_map.
Qed.

Lemma dict_keys_set d k v :
  dict_keys (dict_set d k v) =
  if dict_has d k then dict_keys d else (dict_keys d ++ [k])%list.
Proof.
  unfold dict_has. induction d as [|[k0 v0] d IH]; simpl; [reflexivity|].
  destruct (String.eqb_spec k0 k) as [->|Hne]; simpl; [reflexivity|].
  rewrite IH. now destruct (dict_get d k).
Qed.

Lemma dict_set_NoDup d k v :
  NoDup (dict_keys d) -> NoDup (dict_keys (dict_set d k v)).
Proof.
  intros Hnd. rewrite dict_keys_set.
  destruct (dict_has d k) eqn:E; [assumption|].
  apply NoDup_app; auto.
  - constructor; [simpl; tauto | constructor].
  - intros x Hx [<-|[]].
    apply dict_has_In_keys in Hx. congruence.
Qed.
End DictFacts.

(** ** Label similarity *)

Section Similarity.

Lemma underscore_free_append s t :
  underscore_free s -> underscore_free t -> underscore_free (s ++ t).
Proof. induction s; simpl; intuition. Qed.

Lemma replace_from_keeps_free old k s :
  underscore_free s -> underscore_free (PyStr.replace_from old "" k s).
Proof.
  revert k. induction s as [|c s IH]; intros k Hs; [exact I|].
  destruct Hs as [Hc Hs]. cbn [PyStr.replace_from]. destruct k.
  - destruct (prefix old (String c s)); simpl; auto.
  - auto.
Qed.

Lemma replace_underscore_free s :
  underscore_free (PyStr.replace "_" "" s).
Proof.
  unfold PyStr.replace. induction s as [|c s IH]; [exact I|].
  cbn [PyStr.replace_from prefix].
  destruct (ascii_dec "_" c) as [<-|Hne].
  - replace (prefix "" s) with true by (now destruct s). exact IH.
  - split; [|exact IH]. intros ->. now apply Hne.
Qed.

Lemma normalize_label_underscore_free label :
  underscore_free (normalize_label label).
Proof.
  unfold normalize_label, PyStr.replace at 1.
  apply replace_from_keeps_free, replace_underscore_free.
Qed.

Lemma prefix_underscore p s :
  prefix p s = true -> has_underscore p -> has_underscore s.
Proof.
  revert s. induction p as [|a p IH]; intros s Hp Hu; [destruct Hu|].
  destruct s as [|b s]; [discriminate|].
  cbn [prefix] in Hp. cbn [has_underscore] in Hu.
  destruct (ascii_dec a b) as [<-|]; [|discriminate].
  simpl. destruct Hu; [now left | right; now apply IH].
Qed.

Lemma free_not_has s : underscore_free s -> has_underscore s -> False.
Proof. induction s; simpl; intuition. Qed.

Lemma replace_from_free_id old new s :
  has_underscore old -> underscore_free s ->
  PyStr.replace_from old new 0 s = s.
Proof.
  intros Hold. induction s as [|c s IH]; intros Hs; [reflexivity|].
  cbn [PyStr.replace_from].
  destruct (prefix old (String c s)) eqn:E.
  - exfalso. eapply free_not_has; [exact Hs|].
    eapply prefix_underscore; eauto.
  - f_equal. apply IH. apply Hs.
Qed.

Lemma replace_free_id old new s :
  has_underscore old -> underscore_free s -> PyStr.replace old new s = s.
Proof.
  intros Hold Hs. unfold PyStr.replace.
  destruct old; [destruct Hold|]. now apply replace_from_free_id.
Qed.

(** On a normalised label the removal of the verb prefixes changes
    nothing: every pattern holds an underscore and the label holds none. *)
Lemma remove_patterns_normalized label :
  remove_patterns (normalize_label label) = normalize_label label.
Proof.
  pose proof (normalize_label_underscore_free label) as Hfree.
  unfold remove_patterns, patterns_to_remove. cbn [fold_left].
  repeat (rewrite (replace_free_id _ _ (normalize_label label));
          [| simpl; tauto | exact Hfree]).
  reflexivity.
Qed.

(** What [are_labels_similar] decides, without the dead branch *)
Lemma are_labels_similar_spec label1 label2 :
  are_labels_similar label1 label2 =
  String.eqb label1 label2
  || ((PyStr.contains (normalize_label label1) (normalize_label label2)
       || PyStr.contains (normalize_label label2) (normalize_label label1))
      && within_half
           (Nat.min (String.length (normalize_label label1))
                    (String.length (normalize_label label2)))
           (Nat.max (String.length (normalize_label label1))
                    (String.length (normalize_label label2))))
  || String.eqb (normalize_label label1) (normalize_label label2).
Proof.
  unfold are_labels_similar. rewrite !remove_patterns_normalized.
  destruct (String.eqb label1 label2); [reflexivity|]. simpl.
  match goal with |- (if ?b then _ else _) = _ => destruct b end; reflexivity.
Qed.

End Similarity.

(** C3 (as stated, refuted): the three merges the claim lists cannot hold
    together, because "initialize" and "init" are not similar. *)
Lemma C3_as_stated_fails :
  ~ (are_labels_similar "get_data" "getData" = true
     /\ are_labels_similar "initialize" "init" = true
     /\ are_labels_similar "processOrder" "processOrderValidation" = false).
Proof. intros (_ & H & _). vm_compute in H. discriminate. Qed.

(** C3 (amended): "get_data" and "getData" both normalise to "getdata" and
    are similar; "processOrder" and "processOrderValidation" are not
    similar, their normal forms having lengths 12 and 22, beyond the factor
    1.5; "initialize" and "init" are not similar either: their normal forms
    have lengths 10 and 4, and removing the verb prefixes leaves both
    unchanged. *)
Theorem C3_similarity_examples :
  normalize_label "get_data" = "getdata"
  /\ normalize_label "getData" = "getdata"
  /\ are_labels_similar "get_data" "getData" = true
  /\ are_labels_similar "processOrder" "processOrderValidation" = false
  /\ within_half (String.length (normalize_label "processOrder"))
                 (String.length (normalize_label "processOrderValidation")) = false
  /\ are_labels_similar "initialize" "init" = false
  /\ within_half (String.length (normalize_label "init"))
                 (String.length (normalize_label "initialize")) = false
  /\ remove_patterns (normalize_label "initialize") = "initialize"
  /\ remove_patterns (normalize_label "init") = "init".
Proof. repeat split; vm_compute; reflexivity. Qed.

(** ** Edge style *)

(** C5 (as stated, refuted): two downward edges with the same labels, hence
    the same flow direction and role signals, get different styles when one
    spans more than 300 horizontally and the other does not. *)
Lemma C5_style_depends_on_distance :
  flow_direction 0 100 = flow_direction 0 100
  /\ edge_signals "caller" "callee" = edge_signals "caller" "callee"
  /\ get_edge_style "caller" "callee" 0 0 0 100
     <> get_edge_style "caller" "callee" 0 0 400 100.
Proof. repeat split. vm_compute. discriminate. Qed.

(** C5 (amended): the style is a function of the flow direction, the role
    signals of the two labels and the two threshold tests on the horizontal
    distance (more than 300, more than 200): edges that agree on these get
    the identical style string. *)
Theorem C5_style_determined
    (sl1 tl1 sl2 tl2 : string) (sx1 sy1 tx1 ty1 sx2 sy2 tx2 ty2 : Z) :
  flow_direction sy1 ty1 = flow_direction sy2 ty2 ->
  edge_signals sl1 tl1 = edge_signals sl2 tl2 ->
  (300 <? Z.abs (tx1 - sx1)) = (300 <? Z.abs (tx2 - sx2)) ->
  (200 <? Z.abs (tx1 - sx1)) = (200 <? Z.abs (tx2 - sx2)) ->
  get_edge_style sl1 tl1 sx1 sy1 tx1 ty1 = get_edge_style sl2 tl2 sx2 sy2 tx2 ty2.
Proof.
  intros Hflow Hsig H300 H200.
  pose proof (f_equal sig_main_entry Hsig) as Hmain.
  pose proof (f_equal sig_error_handling Hsig) as Herr.
  pose proof (f_equal sig_utility_call Hsig) as Hutil.
  pose proof (f_equal sig_io_operation Hsig) as Hio.
  pose proof (f_equal sig_cleanup Hsig) as Hclean.
  pose proof (f_equal sig_timing Hsig) as Htime.
  cbn [edge_signals sig_main_entry sig_error_handling sig_utility_call
       sig_io_operation sig_cleanup sig_timing] in *.
  unfold get_edge_style.
  rewrite Hmain, Herr, Hutil, Hio, Hclean, Htime, H300, H200.
  unfold flow_direction in Hflow.
  destruct (sy1 <? ty1) eqn:D1, (sy2 <? ty2) eqn:D2;
    try (destruct (ty1 <? sy1); discriminate);
    try (destruct (ty2 <? sy2); discriminate).
  - apply Z.ltb_lt in D1, D2.
    replace (ty1 =? sy1) with false by (symmetry; apply Z.eqb_neq; lia).
    replace (ty2 =? sy2) with false by (symmetry; apply Z.eqb_neq; lia).
    replace (ty1 <? sy1) with false by (symmetry; apply Z.ltb_ge; lia).
    replace (ty2 <? sy2) with false by (symmetry; apply Z.ltb_ge; lia).
    reflexivity.
  - destruct (ty1 <? sy1) eqn:U1, (ty2 <? sy2) eqn:U2; try discriminate;
      reflexivity.
Qed.

Lemma C5_style_determined_witness :
  get_edge_style "main" "read_input" 0 0 120 220
  = get_edge_style "main_loop" "read_sensor" 40 300 10 520.
Proof.
  apply C5_style_determined; reflexivity.
Defined.

(** ** Label normalisation *)

Lemma length_take n s :
  String.length (PyStr.take n s) = Nat.min n (String.length s).
Proof.
  unfold PyStr.take. revert s.
  induction n as [|n IH]; intros [|c s]; simpl; auto.
Qed.

Lemma length_append s t :
  String.length (s ++ t) = (String.length s + String.length t)%nat.
Proof. induction s; simpl; auto. Qed.

Lemma endswith_append s t : PyStr.endswith t (s ++ t) = true.
Proof.
  unfold PyStr.endswith. rewrite length_append.
  replace (String.length s + String.length t - String.length t)%nat
    with (String.length s) by lia.
  apply andb_true_intro; split; [apply Nat.leb_le; lia|].
  apply String.eqb_eq. induction s; simpl; auto.
Qed.

(** C7 (as stated, refuted): a cleaned form of 23 characters is longer than
    22, yet it is returned as it is: not truncated to 22 characters plus an
    ellipsis, not ending in "...", and not 25 characters long. *)
Lemma C7_label_of_23_kept :
  let label := "abcdefghijklmnopqrstuvw" in
  (22 < String.length (cleaned_form label))%nat
  /\ clean_node_label 1 label = label
  /\ clean_node_label 1 label <> PyStr.take 22 (cleaned_form label) ++ "..."
  /\ PyStr.endswith "..." (clean_node_label 1 label) = false
  /\ String.length (clean_node_label 1 label) = 23%nat.
Proof. vm_compute. repeat split; try lia; discriminate. Qed.

(** C7 (amended): a non-empty raw label whose cleaned form is longer than 25
    characters is normalised to the first 22 characters of the cleaned form
    followed by "...", which has exactly 25 characters; a cleaned form of 1
    to 25 characters is returned unchanged. *)
Theorem C7_truncation (node_counter : nat) (label : string) :
  label <> EmptyString ->
  ((25 < String.length (cleaned_form label))%nat ->
     clean_node_label node_counter label
       = PyStr.take 22 (cleaned_form label) ++ "..."
     /\ String.length (clean_node_label node_counter label) = 25%nat
     /\ PyStr.endswith "..." (clean_node_label node_counter label) = true)
  /\ ((1 <= String.length (cleaned_form label) <= 25)%nat ->
     clean_node_label node_counter label = cleaned_form label).
Proof.
  intros Hne. unfold clean_node_label, finish_label.
  destruct (String.eqb_spec label EmptyString) as [|_]; [contradiction|].
  split.
  - intros Hlen.
    destruct (String.eqb_spec (cleaned_form label) EmptyString) as [E|_].
    { rewrite E in Hlen. cbn [String.length] in Hlen. lia. }
    apply Nat.ltb_lt in Hlen as Hb. rewrite Hb.
    split; [reflexivity|]. split.
    + rewrite length_append, length_take. cbn [String.length]. lia.
    + apply endswith_append.
  - intros [Hlo Hhi].
    destruct (String.eqb_spec (cleaned_form label) EmptyString) as [E|_].
    { rewrite E in Hlo. cbn [String.length] in Hlo. lia. }
    replace (25 <? String.length (cleaned_form label))%nat with false; auto.
    symmetry. apply Nat.ltb_ge. lia.
Qed.

Lemma C7_truncation_witness :
  clean_node_label 1 "abcdefghijklmnopqrstuvwxyz0123"
    = PyStr.take 22 (cleaned_form "abcdefghijklmnopqrstuvwxyz0123") ++ "..."
  /\ String.length (clean_node_label 1 "abcdefghijklmnopqrstuvwxyz0123") = 25%nat
  /\ PyStr.endswith "..." (clean_node_label 1 "abcdefghijklmnopqrstuvwxyz0123") = true.
Proof.
  apply (C7_truncation 1 "abcdefghijklmnopqrstuvwxyz0123").
  - discriminate.
  - vm_compute. lia.
Defined.

(** ** Ingestion *)

Lemma of_nat_not_empty n : PyStr.of_nat n <> EmptyString.
Proof.
  unfold PyStr.of_nat, NilZero.string_of_uint.
  destruct (Nat.to_uint n); simpl; discriminate.
Qed.

(** A label that starts with "Node" and has a fifth character passes the
    test of line 1272. *)
Lemma node_prefixed_label_kept s :
  prefix "Node" s = true -> (5 <= String.length s)%nat ->
  truthy s = true /\ PyStr.mem (PyStr.lower s) reserved_labels = false.
Proof.
  intros Hp Hlen.
  destruct s as [|a [|b [|c [|d [|e s]]]]]; simpl in Hlen; try lia.
  cbn [prefix] in Hp.
  destruct (ascii_dec "N" a) as [<-|]; [|discriminate].
  destruct (ascii_dec "o" b) as [<-|]; [|discriminate].
  destruct (ascii_dec "d" c) as [<-|]; [|discriminate].
  destruct (ascii_dec "e" d) as [<-|]; [|discriminate].
  split; reflexivity.
Qed.

Lemma synthetic_label_kept n :
  let plain := "Node" ++ PyStr.of_nat n in
  forall s, s = plain \/ s = PyStr.take 22 plain ++ "..." ->
  truthy s = true /\ PyStr.mem (PyStr.lower s) reserved_labels = false.
Proof.
  intros plain s Hs. subst plain. apply node_prefixed_label_kept.
  - destruct Hs as [-> | ->]; unfold PyStr.take;
      cbn [String.append substring prefix];
      repeat (destruct (ascii_dec _ _); [|congruence]);
      match goal with |- prefix EmptyString ?t = true => now destruct t end.
  - destruct Hs as [-> | ->].
    + pose proof (of_nat_not_empty n) as H.
      rewrite length_append. destruct (PyStr.of_nat n); [congruence|].
      simpl. lia.
    + rewrite length_append, length_take, length_append.
      cbn [String.length]. lia.
Qed.

(** C6 (as stated, refuted): a node whose label normalises to the reserved
    word "graph" is not given a synthetic label; it is skipped, and neither
    a node nor an alias is recorded for it. *)
Lemma C6_reserved_label_dropped :
  let doc := {| file_basename := "calls.dot"; readable := true;
                has_digraph := true;
                node_matches := [SimpleNode "Node1" "graph"];
                edge_matches := [] |} in
  clean_node_label 1 "graph" = "graph"
  /\ simple_to_label (process_single_dot_file new_converter doc) = []
  /\ original_to_simple (process_single_dot_file new_converter doc) = [].
Proof. vm_compute. repeat split. Qed.

(** C6 (amended): for a node match not yet seen in its document, (1) when
    the label is empty, or empty after cleaning, the normalised label is the
    synthetic "Node<counter>" (cut to 22 characters plus "..." if longer
    than 25) and the node is kept: an alias to a canonical node is recorded,
    and unless a similar node exists a node with that label is minted;
    (2) when the normalised label is one of "node", "graph", "cluster" in
    any letter case, the node is skipped and the converter is unchanged. *)
Theorem C6_empty_and_reserved (basename : string) (c : converter)
    (processed : list string) (m : node_match) :
  PyStr.mem (scoped_id basename (match_original_id m)) processed = false ->
  let clean_label := clean_node_label (node_counter c) (match_label m) in
  let c' := fst (ingest_node basename (c, processed) m) in
  let plain := "Node" ++ PyStr.of_nat (node_counter c) in
  ((match_label m = EmptyString \/ cleaned_form (match_label m) = EmptyString) ->
     (clean_label = plain \/ clean_label = PyStr.take 22 plain ++ "...")
     /\ (exists id,
           dict_get (original_to_simple c') (match_original_id m) = Some id)
     /\ (find_similar_node c clean_label = None ->
           dict_get (simple_to_label c')
                    ("node-" ++ PyStr.of_nat (node_counter c))
           = Some clean_label))
  /\ (PyStr.mem (PyStr.lower clean_label) reserved_labels = true -> c' = c).
Proof.
  intros Hnew clean_label c' plain. split.
  - intros Hempty.
    assert (Hsyn : clean_label = plain
                   \/ clean_label = PyStr.take 22 plain ++ "...").
    { subst clean_label plain. unfold clean_node_label.
      destruct Hempty as [-> | E].
      - left. reflexivity.
      - destruct (String.eqb (match_label m) EmptyString); [now left|].
        rewrite E. unfold finish_label. rewrite String.eqb_refl.
        destruct (25 <? String.length _)%nat; auto. }
    split; [exact Hsyn|].
    destruct (synthetic_label_kept (node_counter c) clean_label Hsyn)
      as [Htruthy Hres].
    subst c'. unfold ingest_node. rewrite Hnew.
    fold clean_label. rewrite Htruthy, Hres. cbn [negb orb].
    destruct (find_similar_node c clean_label) as [id|] eqn:Hsim.
    + destruct (truthy id); cbn [mint_node fst original_to_simple];
        (split; [eexists; apply dict_get_set_same | discriminate]).
    + cbn [mint_node fst original_to_simple simple_to_label].
      split; [eexists; apply dict_get_set_same|].
      intros _. apply dict_get_set_same.
  - intros Hres. subst c'. unfold ingest_node. rewrite Hnew.
    fold clean_label. rewrite Hres, orb_true_r. reflexivity.
Qed.

Lemma C6_empty_and_reserved_witness :
  let c' := fst (ingest_node "calls.dot" (new_converter, []) (SimpleNode "Node7" "()")) in
  dict_get (simple_to_label c') "node-1" = Some "Node1"
  /\ dict_get (original_to_simple c') "Node7" = Some "node-1".
Proof.
  destruct (C6_empty_and_reserved "calls.dot" new_converter []
              (SimpleNode "Node7" "()") eq_refl) as [H _].
  destruct (H (or_intror eq_refl)) as (_ & _ & Hmint).
  split; [exact (Hmint eq_refl) | reflexivity].
Defined.

Lemma edge_eqb_eq (e1 e2 : edge) : edge_eqb e1 e2 = true <-> e1 = e2.
Proof.
  destruct e1 as [s1 t1], e2 as [s2 t2]. unfold edge_eqb. simpl.
  rewrite andb_true_iff, !String.eqb_eq.
  split; [intros [-> ->]; reflexivity | intros [= -> ->]; auto].
Qed.

Lemma edge_in_In (e : edge) (l : list edge) : edge_in e l = true <-> In e l.
Proof.
  unfold edge_in. rewrite existsb_exists. split.
  - intros (x & Hin & Heq). apply edge_eqb_eq in Heq. now subst.
  - intros Hin. exists e. split; [assumption | now apply edge_eqb_eq].
Qed.

Lemma edge_in_false (e : edge) (l : list edge) :
  edge_in e l = false <-> ~ In e l.
Proof.
  rewrite <- edge_in_In. destruct (edge_in e l); split; congruence.
Qed.

Lemma edges_ok_snoc (l : list edge) (e : edge) :
  edges_ok l -> ~ In e l -> fst e <> snd e -> edges_ok (l ++ [e]).
Proof.
  intros [Hnd Hloop] Hnew Hne. split.
  - apply NoDup_app; auto.
    + constructor; [simpl; tauto | constructor].
    + intros x Hx [<-|[]]. contradiction.
  - intros x Hx. apply in_app_or in Hx as [Hx | [<- | []]]; auto.
Qed.

Lemma ingest_node_edges basename acc m :
  all_edges (fst (ingest_node basename acc m)) = all_edges (fst acc).
Proof.
  destruct acc as [c processed]. unfold ingest_node.
  destruct (PyStr.mem _ processed); [reflexivity|].
  destruct (negb _ || _); [reflexivity|].
  destruct (find_similar_node c _) as [id|]; [destruct (truthy id)|];
    reflexivity.
Qed.

Lemma ingest_nodes_edges basename ms acc :
  all_edges (fst (fold_left (ingest_node basename) ms acc)) = all_edges (fst acc).
Proof.
  revert acc. induction ms as [|m ms IH]; intros acc; simpl; [reflexivity|].
  rewrite IH. apply ingest_node_edges.
Qed.

Lemma ingest_edge_ok basename acc m :
  edges_ok (all_edges (fst acc)) ->
  edges_ok (all_edges (fst (ingest_edge basename acc m))).
Proof.
  destruct acc as [c processed], m as [source_original target_original].
  intros Hok. unfold ingest_edge.
  destruct (resolve _ [scoped_id basename source_original; _]) as [src|];
    [|assumption].
  destruct (resolve _ [scoped_id basename target_original; _]) as [tgt|];
    [|assumption].
  destruct (truthy src && truthy tgt && negb (String.eqb src tgt)) eqn:Hguard;
    [|assumption].
  destruct (negb (edge_in (src, tgt) processed)
            && negb (edge_in (src, tgt) (all_edges c))) eqn:Hfresh;
    [|assumption].
  cbn [fst all_edges].
  apply andb_true_iff in Hguard as [_ Hne], Hfresh as [_ Hnew].
  apply negb_true_iff in Hne, Hnew.
  apply edges_ok_snoc; [assumption | now apply edge_in_false |].
  simpl. now apply String.eqb_neq.
Qed.

Lemma ingest_edges_ok basename ms acc :
  edges_ok (all_edges (fst acc)) ->
  edges_ok (all_edges (fst (fold_left (ingest_edge basename) ms acc))).
Proof.
  revert acc. induction ms as [|m ms IH]; intros acc Hok; simpl; [assumption|].
  apply IH. now apply ingest_edge_ok.
Qed.

Lemma process_single_dot_file_ok c doc :
  edges_ok (all_edges c) -> edges_ok (all_edges (process_single_dot_file c doc)).
Proof.
  intros Hok. unfold process_single_dot_file.
  destruct (negb (readable doc)); [assumption|].
  destruct (negb (has_digraph doc)); [assumption|].
  destruct (_ || _); [assumption|].
  destruct (fold_left (ingest_node _) _ _) as [c1 p1] eqn:Hnodes.
  destruct (fold_left (ingest_edge _) _ _) as [c2 p2] eqn:Hedges.
  change c2 with (fst (c2, p2)). rewrite <- Hedges.
  apply ingest_edges_ok. cbn [fst].
  change c1 with (fst (c1, p1)). rewrite <- Hnodes.
  now rewrite ingest_nodes_edges.
Qed.

Lemma process_all_ok docs c :
  edges_ok (all_edges c) ->
  edges_ok (all_edges (fold_left process_single_dot_file docs c)).
Proof.
  revert c. induction docs as [|doc docs IH]; intros c Hok; simpl; [assumption|].
  apply IH. now apply process_single_dot_file_ok.
Qed.

Lemma unique_edges_from_spec seen l :
  NoDup (unique_edges_from seen l)
  /\ forall e, In e (unique_edges_from seen l) -> In e l /\ ~ In e seen.
Proof.
  revert seen. induction l as [|e l IH]; intros seen; simpl.
  - split; [constructor | tauto].
  - destruct (edge_in e seen) eqn:Hseen.
    + destruct (IH seen) as [Hnd Hin]. split; [assumption|].
      intros x Hx. destruct (Hin x Hx). auto.
    + destruct (IH (e :: seen)) as [Hnd Hin].
      apply edge_in_false in Hseen. split.
      * constructor; [|assumption].
        intros Hx. destruct (Hin e Hx) as [_ Habs]. apply Habs. now left.
      * intros x [<- | Hx]; [auto|].
        destruct (Hin x Hx) as [Hl Hns]. split; [auto|].
        intros Hs. apply Hns. now right.
Qed.

(** A list without repetition is left as it is by the final pass *)
Lemma unique_edges_from_NoDup seen l :
  NoDup l -> (forall e, In e l -> ~ In e seen) -> unique_edges_from seen l = l.
Proof.
  revert seen. induction l as [|e l IH]; intros seen Hnd Hdisj; simpl; auto.
  inversion Hnd as [|? ? Hnotin Hnd']; subst.
  replace (edge_in e seen) with false
    by (symmetry; apply edge_in_false, Hdisj; now left).
  f_equal. apply IH; [assumption|].
  intros x Hx [<- | Hs]; [contradiction|].
  apply (Hdisj x); [now right | assumption].
Qed.

(** C8: after all documents have been ingested and the final pass has run,
    the edge list has no edge from a node to itself and no ordered pair
    twice, whatever the documents declare (the same edge in several
    documents, raw nodes merged into one canonical node). *)
Theorem C8_no_self_loops_no_duplicates (docs : list document) :
  NoDup (all_edges (ingest_all docs))
  /\ forall source target,
       In (source, target) (all_edges (ingest_all docs)) -> source <> target.
Proof.
  unfold ingest_all, final_deduplication_pass. cbn [all_edges].
  assert (Hok : edges_ok (all_edges (fold_left process_single_dot_file docs
                                               new_converter))).
  { apply process_all_ok. split; [constructor | intros e []]. }
  destruct Hok as [Hnd Hloop].
  destruct (unique_edges_from_spec
              [] (all_edges (fold_left process_single_dot_file docs
                                       new_converter))) as [Hnd' Hin].
  split; [assumption|].
  intros source target He. apply Hin in He as [He _].
  exact (Hloop _ He).
Qed.

(** ** Sorting *)

Section SortFacts.
Context {A : Type} (before : A -> A -> bool).

Lemma insert_sorted_perm x l : Permutation (insert_sorted before x l) (x :: l).
Proof.
  induction l as [|y l IH]; simpl; [reflexivity|].
  destruct (before x y); [reflexivity|].
  rewrite IH. apply perm_swap.
Qed.

Lemma stable_sort_perm l : Permutation (stable_sort before l) l.
Proof.
  induction l as [|x l IH]; simpl; [reflexivity|].
  rewrite insert_sorted_perm. now apply perm_skip.
Qed.

Lemma stable_sort_In l x : In x (stable_sort before l) <-> In x l.
Proof.
  split; apply Permutation_in;
    [apply stable_sort_perm | apply Permutation_sym, stable_sort_perm].
Qed.

Lemma stable_sort_length l : List.length (stable_sort before l) = List.length l.
Proof. apply Permutation_length, stable_sort_perm. Qed.

Hypothesis before_total : forall x y, before x y = false -> before y x = true.
Hypothesis before_trans :
  forall x y z, before x y = true -> before y z = true -> before x z = true.

Let R (x y : A) : Prop := before x y = true.

Lemma insert_sorted_strongly x l :
  StronglySorted R l -> StronglySorted R (insert_sorted before x l).
Proof.
  induction 1 as [|y l Hl IH Hy]; simpl.
  - repeat constructor.
  - destruct (before x y) eqn:E.
    + constructor; [now constructor|].
      constructor; [exact E|].
      eapply Forall_impl; [|exact Hy].
      intros z Hz. exact (before_trans _ _ _ E Hz).
    + constructor; [assumption|].
      apply before_total in E.
      rewrite Forall_forall in *. intros z Hz.
      apply (Permutation_in _ (insert_sorted_perm x l)) in Hz.
      destruct Hz as [<- | Hz]; [exact E | now apply Hy].
Qed.

Lemma stable_sort_strongly l : StronglySorted R (stable_sort before l).
Proof.
  induction l as [|x l IH]; simpl; [constructor|].
  now apply insert_sorted_strongly.
Qed.
End SortFacts.

Lemma StronglySorted_app_cross {A : Type} (R : A -> A -> Prop) l1 l2 :
  StronglySorted R (l1 ++ l2) ->
  StronglySorted R l1 /\ forall x y, In x l1 -> In y l2 -> R x y.
Proof.
  induction l1 as [|a l1 IH]; simpl; intros H.
  - split; [constructor | intros x y []].
  - inversion H as [|? ? Hs Hall]; subst.
    destruct (IH Hs) as [Hs1 Hcross]. split.
    + constructor; [assumption|].
      rewrite Forall_forall in *. intros z Hz. apply Hall, in_or_app. now left.
    + intros x y [<- | Hx] Hy; [|now apply Hcross].
      rewrite Forall_forall in Hall. apply Hall, in_or_app. now right.
Qed.

Lemma lex_compare_antisym a b : lex_compare b a = CompOpp (lex_compare a b).
Proof.
  revert b. induction a as [|x a IH]; intros [|y b]; simpl; auto.
  rewrite (Z.compare_antisym x y).
  destruct (x ?= y); simpl; auto.
Qed.

Lemma lex_leb_total a b : lex_leb a b = false -> lex_leb b a = true.
Proof.
  unfold lex_leb. rewrite (lex_compare_antisym a b).
  destruct (lex_compare a b); simpl; congruence.
Qed.

Lemma lex_compare_trans_le a b c :
  lex_compare a b <> Gt -> lex_compare b c <> Gt -> lex_compare a c <> Gt.
Proof.
  revert b c. induction a as [|x a IH]; intros [|y b] [|z c]; simpl;
    try congruence.
  destruct (Z.compare_spec x y), (Z.compare_spec y z), (Z.compare_spec x z);
    try congruence; try lia; subst; eauto.
Qed.

Lemma lex_leb_trans a b c :
  lex_leb a b = true -> lex_leb b c = true -> lex_leb a c = true.
Proof.
  unfold lex_leb. intros H1 H2.
  pose proof (lex_compare_trans_le a b c) as H.
  destruct (lex_compare a b), (lex_compare b c), (lex_compare a c);
    try discriminate; try reflexivity; exfalso; apply H; congruence.
Qed.

Lemma sort_descending_perm {A : Type} (key : A -> list Z) l :
  Permutation (sort_descending key l) l.
Proof. apply stable_sort_perm. Qed.

Lemma sort_descending_sorted {A : Type} (key : A -> list Z) l :
  StronglySorted (descending key) (sort_descending key l).
Proof.
  apply (stable_sort_strongly (fun x y => lex_leb (key y) (key x))).
  - intros x y. apply lex_leb_total.
  - intros x y z H1 H2. exact (lex_leb_trans _ _ _ H2 H1).
Qed.

(** ** Root selection *)

Lemma synthetic_roots_nonempty connected inc out :
  connected <> [] ->
  synthetic_roots connected inc out =
  map fst (firstn (Z.to_nat (max_roots (lenZ connected)))
                  (sort_descending (entry_key inc out)
                                   (map (entry_candidate out) connected))).
Proof.
  intros Hne. unfold synthetic_roots.
  destruct (map (entry_candidate out) connected) eqn:E.
  - destruct connected; [congruence | discriminate].
  - rewrite <- E. unfold lenZ. now rewrite length_map.
Qed.

(** C4 (as stated, refuted): in a ring of eleven nodes no node is free of
    incoming edges and all eleven are candidates; one synthetic root is
    taken, whereas the ceiling of 11/10, clamped to 1..5, is two. *)
Lemma C4_ring_of_eleven_has_one_root :
  let inc := incoming ring_nodes ring_edges in
  let out := outgoing ring_nodes ring_edges in
  let connected := connected_nodes ring_nodes inc out in
  filter (fun n => is_empty (inc n)) (dict_keys connected) = []
  /\ lenZ connected = 11
  /\ select_roots connected inc out = ["node-1"]
  /\ Z.min 5 (Z.max 1 ((lenZ connected + 9) / 10)) = 2.
Proof. vm_compute. repeat split. Qed.

(** C4 (amended): when there are connected nodes and each has an incoming
    edge, every connected node is scored, the candidates are put in
    descending order of (priority, out-degree, -in-degree), and the roots
    are exactly the first k of them, for k the integer quotient n / 10
    (rounded down) clamped to 1..5, n being the number of connected nodes:
    the roots are k candidates in descending order and no candidate left
    out is ordered before a root. *)
Theorem C4_synthetic_roots (connected : dict string) (inc out : adjacency) :
  connected <> [] ->
  (forall n, In n (dict_keys connected) -> inc n <> []) ->
  let candidates := map (entry_candidate out) connected in
  let k := Z.min 5 (Z.max 1 (lenZ connected / 10)) in
  exists chosen rest,
    Permutation (chosen ++ rest) candidates
    /\ select_roots connected inc out = map fst chosen
    /\ lenZ chosen = k
    /\ StronglySorted (descending (entry_key inc out)) chosen
    /\ forall x y, In x chosen -> In y rest ->
                   descending (entry_key inc out) x y.
Proof.
  intros Hne Hinc candidates k.
  set (sorted := sort_descending (entry_key inc out) candidates).
  exists (firstn (Z.to_nat k) sorted), (skipn (Z.to_nat k) sorted).
  assert (Hlen : lenZ candidates = lenZ connected).
  { unfold lenZ, candidates. now rewrite length_map. }
  assert (Hpos : 1 <= lenZ connected).
  { unfold lenZ. destruct connected; [congruence | simpl; lia]. }
  assert (Hk : 1 <= k <= lenZ connected).
  { subst k. assert (lenZ connected / 10 <= lenZ connected)
      by (apply Z.div_le_upper_bound; lia). lia. }
  pose proof (sort_descending_sorted (entry_key inc out) candidates) as Hs.
  fold sorted in Hs. rewrite <- (firstn_skipn (Z.to_nat k) sorted) in Hs.
  apply StronglySorted_app_cross in Hs as [Hs1 Hcross].
  repeat split.
  - rewrite firstn_skipn. apply sort_descending_perm.
  - unfold select_roots.
    replace (filter (fun n => is_empty (inc n)) (dict_keys connected))
      with (@nil string).
    + rewrite synthetic_roots_nonempty by assumption. reflexivity.
    + symmetry. induction (dict_keys connected) as [|n l IH]; simpl; auto.
      destruct (inc n) eqn:E; simpl.
      * exfalso. apply (Hinc n); [now left | assumption].
      * apply IH. intros m Hm. apply Hinc. now right.
  - unfold lenZ. rewrite length_firstn.
    unfold sorted, sort_descending. rewrite stable_sort_length.
    unfold lenZ in Hlen, Hk. lia.
  - exact Hs1.
  - exact Hcross.
Qed.

Lemma C4_synthetic_roots_witness :
  exists chosen rest,
    Permutation (chosen ++ rest)
      (map (entry_candidate (outgoing ring_nodes ring_edges))
           (connected_nodes ring_nodes (incoming ring_nodes ring_edges)
                            (outgoing ring_nodes ring_edges)))
    /\ select_roots (connected_nodes ring_nodes (incoming ring_nodes ring_edges)
                                     (outgoing ring_nodes ring_edges))
                    (incoming ring_nodes ring_edges)
                    (outgoing ring_nodes ring_edges) = map fst chosen
    /\ lenZ chosen = 1.
Proof.
  destruct (C4_synthetic_roots
              (connected_nodes ring_nodes (incoming ring_nodes ring_edges)
                               (outgoing ring_nodes ring_edges))
              (incoming ring_nodes ring_edges)
              (outgoing ring_nodes ring_edges))
    as (chosen & rest & Hperm & Hroots & Hlen & _).
  - vm_compute. discriminate.
  - intros n Hn. vm_compute in Hn.
    repeat (destruct Hn as [<- | Hn]; [vm_compute; discriminate|]).
    destruct Hn.
  - exists chosen, rest. repeat split; assumption.
Defined.

(** ** Rebalancing *)

Lemma level_of_set levels k v m :
  level_of (dict_set levels k v) m = if String.eqb k m then v else level_of levels m.
Proof.
  unfold level_of, dict_get_default. rewrite dict_get_set.
  now destruct (String.eqb k m).
Qed.

Section CleanupPull.
Variables (inc : adjacency) (base : Z).

Let can_pull (levels : dict Z) (node : string) : Prop :=
  level_of levels node < base
  /\ forall parent, In parent (inc node) -> level_of levels parent < base.

Lemma pull_cleanup_other levels node m :
  m <> node -> level_of (pull_cleanup inc base levels node) m = level_of levels m.
Proof.
  intros Hne. unfold pull_cleanup.
  destruct (_ <? base); [|reflexivity].
  destruct (forallb _ _); [|reflexivity].
  rewrite level_of_set.
  destruct (String.eqb_spec node m); [congruence | reflexivity].
Qed.

Lemma pull_cleanup_applied levels node :
  can_pull levels node -> level_of (pull_cleanup inc base levels node) node = base.
Proof.
  intros [Hlt Hparents]. unfold pull_cleanup.
  apply Z.ltb_lt in Hlt. rewrite Hlt.
  replace (forallb _ (inc node)) with true.
  - now rewrite level_of_set, String.eqb_refl.
  - symmetry. apply forallb_forall. intros p Hp. apply Z.ltb_lt. auto.
Qed.

Lemma pull_cleanup_skipped levels node :
  ~ can_pull levels node -> pull_cleanup inc base levels node = levels.
Proof.
  intros Hno. unfold pull_cleanup.
  destruct (_ <? base) eqn:Hlt; [|reflexivity].
  destruct (forallb _ _) eqn:Hall; [|reflexivity].
  exfalso. apply Hno. split; [now apply Z.ltb_lt|].
  intros p Hp. rewrite forallb_forall in Hall. now apply Z.ltb_lt, Hall.
Qed.

Lemma pull_cleanup_cases levels node :
  (can_pull levels node
   /\ level_of (pull_cleanup inc base levels node) node = base)
  \/ (~ can_pull levels node /\ pull_cleanup inc base levels node = levels).
Proof.
  destruct (Z.ltb_spec (level_of levels node) base) as [Hlt|Hge].
  - destruct (forallb (fun p => level_of levels p <? base) (inc node)) eqn:Hall.
    + left. assert (can_pull levels node) as Hc.
      { split; [assumption|]. intros p Hp.
        rewrite forallb_forall in Hall. now apply Z.ltb_lt, Hall. }
      split; [assumption | now apply pull_cleanup_applied].
    + right. assert (~ can_pull levels node) as Hc.
      { intros [_ Hp]. assert (forallb (fun p => level_of levels p <? base)
                                       (inc node) = true); [|congruence].
        apply forallb_forall. intros p Hin. apply Z.ltb_lt. auto. }
      split; [assumption | now apply pull_cleanup_skipped].
  - right. assert (~ can_pull levels node) as Hc by (intros [? _]; lia).
    split; [assumption | now apply pull_cleanup_skipped].
Qed.

(** One iteration never lowers a level *)
Lemma pull_cleanup_mono levels node m :
  level_of levels m <= level_of (pull_cleanup inc base levels node) m.
Proof.
  destruct (string_dec m node) as [->|Hne].
  - destruct (pull_cleanup_cases levels node) as [[[Hlt _] ->] | [_ ->]]; lia.
  - rewrite pull_cleanup_other by assumption. lia.
Qed.

Lemma pull_cleanups_mono l levels m :
  level_of levels m <= level_of (fold_left (pull_cleanup inc base) l levels) m.
Proof.
  revert levels. induction l as [|n l IH]; intros levels; simpl; [lia|].
  etransitivity; [apply (pull_cleanup_mono levels n) | apply IH].
Qed.

Lemma pull_cleanups_values l levels m :
  let levels' := fold_left (pull_cleanup inc base) l levels in
  level_of levels' m = level_of levels m \/ level_of levels' m = base.
Proof.
  revert levels. induction l as [|n l IH]; intros levels; simpl; [now left|].
  destruct (IH (pull_cleanup inc base levels n)) as [-> | ->]; [|now right].
  destruct (string_dec m n) as [->|Hne].
  - destruct (pull_cleanup_cases levels n) as [[_ ->] | [_ ->]]; auto.
  - left. now apply pull_cleanup_other.
Qed.

(** A level changed by the loop belongs to a node of the list that was
    below the base level, as were all its direct predecessors. *)
Lemma pull_cleanups_changed l levels m :
  let levels' := fold_left (pull_cleanup inc base) l levels in
  level_of levels' m <> level_of levels m ->
  In m l /\ can_pull levels m /\ level_of levels' m = base.
Proof.
  revert levels. induction l as [|n l IH]; intros levels; simpl;
    [congruence|].
  intros Hchanged.
  set (mid := pull_cleanup inc base levels n) in *.
  destruct (Z.eq_dec (level_of (fold_left (pull_cleanup inc base) l mid) m)
                     (level_of mid m)) as [Hsame | Hdiff].
  - rewrite Hsame in *.
    destruct (string_dec m n) as [->|Hne].
    + subst mid.
      destruct (pull_cleanup_cases levels n) as [[Hc Hb] | [_ Heq]].
      * auto.
      * rewrite Heq in Hchanged. congruence.
    + subst mid. rewrite pull_cleanup_other in Hchanged by assumption.
      congruence.
  - destruct (IH mid Hdiff) as (Hin & [Hlt Hp] & Hb).
    split; [now right|]. split; [|assumption].
    split.
    + pose proof (pull_cleanup_mono levels n m). fold mid in H. lia.
    + intros p Hpin. pose proof (pull_cleanup_mono levels n p).
      fold mid in H. specialize (Hp p Hpin). lia.
Qed.

(** A node of the list below the base level whose direct predecessors end
    below the base level is moved to the base level. *)
Lemma pull_cleanups_applied l levels m :
  let levels' := fold_left (pull_cleanup inc base) l levels in
  In m l -> level_of levels m < base ->
  (forall parent, In parent (inc m) -> level_of levels' parent < base) ->
  level_of levels' m = base.
Proof.
  revert levels. induction l as [|n l IH]; intros levels; simpl; [tauto|].
  set (mid := pull_cleanup inc base levels n).
  intros Hin Hlt Hparents.
  assert (Hmid : forall p, In p (inc m) -> level_of mid p < base).
  { intros p Hp. specialize (Hparents p Hp).
    pose proof (pull_cleanups_mono l mid p). lia. }
  destruct (string_dec n m) as [->|Hne].
  - assert (Hc : can_pull levels m).
    { split; [assumption|]. intros p Hp. specialize (Hmid p Hp).
      pose proof (pull_cleanup_mono levels m p). fold mid in H. lia. }
    apply pull_cleanup_applied in Hc. fold mid in Hc.
    destruct (pull_cleanups_values l mid m) as [H | H]; simpl in H; lia.
  - destruct Hin as [-> | Hin]; [congruence|].
    apply IH; auto.
    subst mid. rewrite pull_cleanup_other; auto.
Qed.
End CleanupPull.

(** C2 (as stated, refuted): the cleanup node ("node-5") stands at level 1
    and the highest level is 3; rebalancing moves it to level 2, which is
    the highest level minus one and not plus one, and that puts it on the
    level of its own successor "node-6": the edge between them no longer
    goes to a higher level. *)
Lemma C2_cleanup_pulled_below_max :
  let inc := incoming cleanup_nodes cleanup_edges in
  let out := outgoing cleanup_nodes cleanup_edges in
  let connected := connected_nodes cleanup_nodes inc out in
  let before := first_pass_levels cleanup_nodes cleanup_edges in
  let after := second_pass_levels cleanup_nodes cleanup_edges in
  function_group_nodes connected Cleanup = ["node-5"]
  /\ max_list 0 (map (level_of before) (dict_keys connected)) = 3
  /\ level_of before "node-5" = 1
  /\ level_of after "node-5" = 2
  /\ level_of after "node-5" <> 3 + 1
  /\ In ("node-5", "node-6") cleanup_edges
  /\ level_of before "node-6" = 2
  /\ level_of after "node-6" = 2.
Proof. vm_compute. repeat split; auto 10; discriminate. Qed.

(** C2 (amended): the cleanup loop pulls towards the highest level of the
    connected nodes minus one (a missing level counting as 0).  A node whose
    level the loop changes is a cleanup-role node that stood below that
    target, ends exactly on it, and all its direct predecessors stood
    strictly below the target and end on it at most; and a cleanup-role
    node below the target whose direct predecessors end strictly below it
    is pulled. *)
Theorem C2_cleanup_rebalancing (levels : dict Z) (connected : dict string)
    (inc : adjacency) :
  let target := max_list 0 (map (level_of levels) (dict_keys connected)) - 1 in
  let levels' := refine_cleanups levels connected inc in
  (forall node,
     level_of levels' node <> level_of levels node ->
     In node (function_group_nodes connected Cleanup)
     /\ level_of levels node < target
     /\ level_of levels' node = target
     /\ forall parent, In parent (inc node) ->
          level_of levels parent < target /\ level_of levels' parent <= target)
  /\ (forall node,
        In node (function_group_nodes connected Cleanup) ->
        level_of levels node < target ->
        (forall parent, In parent (inc node) -> level_of levels' parent < target) ->
        level_of levels' node = target).
Proof.
  intros target levels'. subst levels'. unfold refine_cleanups.
  fold (cleanup_base levels connected). change (cleanup_base levels connected) with target.
  destruct (function_group_nodes connected Cleanup) as [|c cs] eqn:E.
  - split; [congruence | intros node []].
  - split.
    + intros node Hchanged.
      destruct (pull_cleanups_changed inc target (c :: cs) levels node Hchanged)
        as (Hin & [Hlt Hp] & Hb).
      repeat split; auto.
      destruct (pull_cleanups_values inc target (c :: cs) levels parent)
        as [H0 | H0]; cbv zeta in H0; rewrite H0;
        [specialize (Hp parent H)|]; lia.
    + intros node Hin Hlt Hp.
      now apply (pull_cleanups_applied inc target (c :: cs) levels node).
Qed.

Lemma C2_cleanup_rebalancing_witness :
  let inc := incoming cleanup_nodes cleanup_edges in
  let connected :=
    connected_nodes cleanup_nodes inc (outgoing cleanup_nodes cleanup_edges) in
  let levels := first_pass_levels cleanup_nodes cleanup_edges in
  level_of (refine_cleanups levels connected inc) "node-5" = 2.
Proof.
  intros inc connected levels.
  destruct (C2_cleanup_rebalancing levels connected inc) as [_ Happlied].
  apply (Happlied "node-5").
  - vm_compute. auto.
  - vm_compute. reflexivity.
  - intros parent Hp. vm_compute in Hp. destruct Hp as [<- | []].
    vm_compute. reflexivity.
Defined.

(** ** The first pass *)

Lemma mem_In s l : PyStr.mem s l = true <-> In s l.
Proof.
  unfold PyStr.mem. rewrite existsb_exists. split.
  - intros (x & Hx & E). apply String.eqb_eq in E. now subst.
  - intros H. exists s. split; [assumption | apply String.eqb_refl].
Qed.

Lemma mem_false s l : PyStr.mem s l = false <-> ~ In s l.
Proof. rewrite <- mem_In. destruct (PyStr.mem s l); split; congruence. Qed.

Lemma drop_visited_incl visited queue x :
  In x (drop_visited visited queue) -> In x queue.
Proof.
  induction queue as [|[n l] queue IH]; simpl; [tauto|].
  destruct (PyStr.mem n visited); [auto | intros H; exact H].
Qed.

Lemma drop_visited_head visited queue n l queue' :
  drop_visited visited queue = (n, l) :: queue' -> ~ In n visited.
Proof.
  induction queue as [|[n0 l0] queue IH]; simpl; [discriminate|].
  destruct (PyStr.mem n0 visited) eqn:E; [exact IH|].
  intros [= -> -> ->]. now apply mem_false.
Qed.

Lemma dict_has_false_get {V : Type} (d : dict V) k :
  dict_has d k = false -> dict_get d k = None.
Proof. unfold dict_has. now destruct (dict_get d k). Qed.

Lemma dict_get_has {V : Type} (d : dict V) k v :
  dict_get d k = Some v -> dict_has d k = true.
Proof. unfold dict_has. now intros ->. Qed.

Section FirstPass.
Variables (nodes connected : dict string) (inc out : adjacency).
Variable roots : list string.

Lemma reached_set levels k v n l :
  dict_has levels k = false ->
  reached out roots levels n l -> reached out roots (dict_set levels k v) n l.
Proof.
  intros Hk [Hroot | (u & Hedge & Hu)]; [now left | right].
  exists u. split; [assumption|].
  rewrite dict_get_set_other; [assumption|].
  intros ->. apply dict_get_has in Hu. congruence.
Qed.

(** One visit keeps the invariant *)
Lemma bfs_visit_invariant queue levels visited node level queue' :
  bfs_invariant connected out roots queue levels visited ->
  drop_visited visited queue = (node, level) :: queue' ->
  let visited' := node :: visited in
  let children := sort_descending (child_key nodes inc out) (out node) in
  let new_entries :=
    map (fun child => (child, level + 1))
        (filter (fun child => negb (PyStr.mem child visited')
                              && dict_has connected child) children) in
  dict_get levels node = None
  /\ bfs_invariant connected out roots (queue' ++ new_entries)
                   (dict_set levels node level) visited'.
Proof.
  intros Hinv Hdrop visited' children new_entries.
  pose proof (drop_visited_head _ _ _ _ _ Hdrop) as Hfresh.
  assert (Hhead : In (node, level) queue).
  { apply (drop_visited_incl visited). rewrite Hdrop. now left. }
  assert (Htail : forall x, In x queue' -> In x queue).
  { intros x Hx. apply (drop_visited_incl visited). rewrite Hdrop. now right. }
  assert (Hnone : dict_has levels node = false).
  { destruct (dict_has levels node) eqn:E; [|reflexivity].
    exfalso. apply Hfresh. now apply (levels_visited _ _ _ _ _ _ Hinv). }
  split; [now apply dict_has_false_get|].
  assert (Hnew : forall n l, In (n, l) new_entries ->
                             l = level + 1 /\ In n (out node)
                             /\ dict_has connected n = true).
  { intros n l Hin. unfold new_entries in Hin.
    apply in_map_iff in Hin as (child & [= <- <-] & Hc).
    apply filter_In in Hc as [Hc Hok].
    apply andb_true_iff in Hok as [_ Hok].
    repeat split; auto.
    unfold children in Hc.
    now apply (Permutation_in _ (sort_descending_perm _ _)) in Hc. }
  constructor.
  - intros n l Hin. apply in_app_or in Hin as [Hin | Hin].
    + apply (queue_connected _ _ _ _ _ _ Hinv n l). auto.
    + apply Hnew in Hin as (_ & _ & Hc). now apply dict_has_In_keys.
  - constructor; [assumption | apply (visited_nodup _ _ _ _ _ _ Hinv)].
  - intros x [<- | Hx].
    + apply (queue_connected _ _ _ _ _ _ Hinv _ _ Hhead).
    + now apply (visited_connected _ _ _ _ _ _ Hinv).
  - intros n Hn. rewrite dict_has_set in Hn.
    apply orb_true_iff in Hn as [Hn | Hn].
    + apply String.eqb_eq in Hn. now left.
    + right. now apply (levels_visited _ _ _ _ _ _ Hinv).
  - apply dict_set_NoDup, (levels_nodup _ _ _ _ _ _ Hinv).
  - intros n l Hin. apply in_app_or in Hin as [Hin | Hin].
    + apply reached_set; [assumption|].
      apply (queue_reached _ _ _ _ _ _ Hinv). auto.
    + apply Hnew in Hin as (-> & Hedge & _). right.
      exists node. split; [assumption|].
      rewrite dict_get_set_same. f_equal. lia.
  - intros n l Hget. rewrite dict_get_set in Hget.
    apply reached_set; [assumption|].
    destruct (String.eqb_spec node n) as [<- | Hne].
    + injection Hget as <-. now apply (queue_reached _ _ _ _ _ _ Hinv).
    + now apply (levels_reached _ _ _ _ _ _ Hinv).
Qed.

(** With a unit of fuel for every connected node not yet visited the loop
    runs to the end, and the invariant holds of what it returns. *)
Lemma bfs_loop_total fuel queue levels visited :
  bfs_invariant connected out roots queue levels visited ->
  (List.length connected <= fuel + List.length visited)%nat ->
  exists result visited',
    bfs_loop fuel nodes connected inc out queue levels visited = Some result
    /\ bfs_invariant connected out roots [] result visited'.
Proof.
  revert queue levels visited.
  induction fuel as [|fuel IH]; intros queue levels visited Hinv Hfuel.
  - unfold bfs_loop.
    destruct (drop_visited visited queue) as [|[node level] queue'] eqn:Hdrop.
    + exists levels, visited. split; [reflexivity|].
      destruct Hinv. constructor; auto; intros n l [].
    + exfalso.
      destruct (bfs_visit_invariant _ _ _ _ _ _ Hinv Hdrop) as [_ Hinv'].
      pose proof (NoDup_incl_length (visited_nodup _ _ _ _ _ _ Hinv')
                                    (visited_connected _ _ _ _ _ _ Hinv')) as H.
      unfold dict_keys in H. rewrite length_map in H. simpl in H, Hfuel. lia.
  - cbn [bfs_loop].
    destruct (drop_visited visited queue) as [|[node level] queue'] eqn:Hdrop.
    + exists levels, visited. split; [reflexivity|].
      destruct Hinv. constructor; auto; intros n l [].
    + destruct (bfs_visit_invariant _ _ _ _ _ _ Hinv Hdrop) as [Hnone Hinv'].
      rewrite Hnone. apply IH; [exact Hinv' | simpl; lia].
Qed.

Hypothesis roots_connected : incl roots (dict_keys connected).

Lemma bfs_initial_invariant :
  bfs_invariant connected out roots (map (fun root => (root, 0)) roots) [] [].
Proof.
  constructor.
  - intros n l Hin. apply in_map_iff in Hin as (r & [= <- <-] & Hr). auto.
  - constructor.
  - intros x [].
  - intros n Hn. discriminate.
  - constructor.
  - intros n l Hin. apply in_map_iff in Hin as (r & [= <- <-] & Hr).
    left. auto.
  - intros n l Hget. discriminate.
Qed.

(** The first pass never runs out of fuel *)
Lemma bfs_levels_total :
  exists visited,
    bfs_loop (List.length connected) nodes connected inc out
             (map (fun root => (root, 0)) roots) [] []
    = Some (bfs_levels nodes connected inc out roots)
    /\ bfs_invariant connected out roots []
                     (bfs_levels nodes connected inc out roots) visited.
Proof.
  destruct (bfs_loop_total (List.length connected) _ _ _ bfs_initial_invariant)
    as (result & visited & Hrun & Hinv); [simpl; lia|].
  exists visited. unfold bfs_levels. rewrite Hrun. auto.
Qed.

End FirstPass.

Lemma In_firstn {A : Type} (k : nat) (l : list A) x :
  In x (firstn k l) -> In x l.
Proof.
  intros H. rewrite <- (firstn_skipn k l). apply in_or_app. now left.
Qed.

Lemma entry_candidate_fst out kv : fst (entry_candidate out kv) = fst kv.
Proof. now destruct kv. Qed.

Lemma select_roots_connected connected inc out :
  incl (select_roots connected inc out) (dict_keys connected).
Proof.
  unfold select_roots.
  destruct (filter _ (dict_keys connected)) as [|r rs] eqn:E.
  - destruct connected as [|kv connected'] eqn:Ec; [intros x []|].
    rewrite synthetic_roots_nonempty by discriminate.
    intros x Hx. apply in_map_iff in Hx as (c & <- & Hc).
    apply In_firstn in Hc.
    apply (Permutation_in _ (sort_descending_perm _ _)) in Hc.
    apply in_map_iff in Hc as (kv0 & <- & Hkv).
    rewrite entry_candidate_fst. now apply in_map.
  - rewrite <- E. intros x Hx. now apply filter_In in Hx.
Qed.

(** ** Loops that set levels *)

Section SettingLoops.
Variable step : dict Z -> string -> dict Z.
Hypothesis step_sets :
  forall levels node,
    step levels node = levels \/ exists v, step levels node = dict_set levels node v.

Lemma setting_loop_nodup l levels :
  NoDup (dict_keys levels) -> NoDup (dict_keys (fold_left step l levels)).
Proof.
  revert levels. induction l as [|n l IH]; intros levels Hnd; simpl; auto.
  apply IH. destruct (step_sets levels n) as [-> | [v ->]]; auto.
  now apply dict_set_NoDup.
Qed.

Lemma setting_loop_keys l levels n :
  dict_has (fold_left step l levels) n = true ->
  dict_has levels n = true \/ In n l.
Proof.
  revert levels. induction l as [|m l IH]; intros levels; simpl; auto.
  intros H. apply IH in H as [H | H]; auto.
  destruct (step_sets levels m) as [E | [v E]]; rewrite E in H; auto.
  rewrite dict_has_set in H. apply orb_true_iff in H as [H | H]; auto.
  apply String.eqb_eq in H. auto.
Qed.

Lemma setting_loop_mono l levels n :
  dict_has levels n = true -> dict_has (fold_left step l levels) n = true.
Proof.
  revert levels. induction l as [|m l IH]; intros levels H; simpl; auto.
  apply IH. destruct (step_sets levels m) as [-> | [v ->]]; auto.
  now apply dict_has_set_mono.
Qed.
End SettingLoops.

Lemma pull_error_sets inc target levels node :
  pull_error inc target levels node = levels
  \/ exists v, pull_error inc target levels node = dict_set levels node v.
Proof.
  unfold pull_error. destruct (_ <? _); auto. destruct (forallb _ _); eauto.
Qed.

Lemma pull_cleanup_sets inc base levels node :
  pull_cleanup inc base levels node = levels
  \/ exists v, pull_cleanup inc base levels node = dict_set levels node v.
Proof.
  unfold pull_cleanup. destruct (_ <? _); auto. destruct (forallb _ _); eauto.
Qed.

Lemma assign_remaining_node_sets inc levels node :
  assign_remaining_node inc levels node = levels
  \/ exists v, assign_remaining_node inc levels node = dict_set levels node v.
Proof.
  unfold assign_remaining_node. destruct (dict_has levels node); auto.
  destruct (inc node); eauto.
Qed.

Lemma function_group_nodes_connected connected g :
  incl (function_group_nodes connected g) (dict_keys connected).
Proof.
  intros n Hn. unfold function_group_nodes in Hn.
  apply in_map_iff in Hn as (kv & <- & Hkv).
  apply filter_In in Hkv as [Hkv _]. now apply in_map.
Qed.

Section SecondPass.
Variables (connected : dict string) (inc out : adjacency).

Lemma refine_nodup levels :
  NoDup (dict_keys levels) ->
  NoDup (dict_keys (refine_levels_by_function_type levels connected inc out)).
Proof.
  intros Hnd. unfold refine_levels_by_function_type, refine_cleanups, refine_errors.
  destruct (function_group_nodes connected Cleanup);
    destruct (function_group_nodes connected Error); auto;
    repeat (apply setting_loop_nodup;
            [apply pull_cleanup_sets || apply pull_error_sets|]); auto.
Qed.

Lemma refine_errors_keys levels n :
  dict_has (refine_errors levels connected inc) n = true ->
  dict_has levels n = true \/ In n (dict_keys connected).
Proof.
  unfold refine_errors.
  destruct (function_group_nodes connected Error) as [|e es] eqn:E; auto.
  intros H. apply setting_loop_keys in H as [H | H];
    [auto | | apply pull_error_sets].
  right. apply (function_group_nodes_connected connected Error).
  now rewrite E.
Qed.

Lemma refine_cleanups_keys levels n :
  dict_has (refine_cleanups levels connected inc) n = true ->
  dict_has levels n = true \/ In n (dict_keys connected).
Proof.
  unfold refine_cleanups.
  destruct (function_group_nodes connected Cleanup) as [|e es] eqn:E; auto.
  intros H. apply setting_loop_keys in H as [H | H];
    [auto | | apply pull_cleanup_sets].
  right. apply (function_group_nodes_connected connected Cleanup).
  now rewrite E.
Qed.

Lemma refine_keys levels n :
  dict_has (refine_levels_by_function_type levels connected inc out) n = true ->
  dict_has levels n = true \/ In n (dict_keys connected).
Proof.
  unfold refine_levels_by_function_type. intros H.
  apply refine_cleanups_keys in H as [H | H]; auto.
  now apply refine_errors_keys.
Qed.

Lemma refine_mono levels n :
  dict_has levels n = true ->
  dict_has (refine_levels_by_function_type levels connected inc out) n = true.
Proof.
  intros H. unfold refine_levels_by_function_type, refine_cleanups, refine_errors.
  destruct (function_group_nodes connected Cleanup);
    destruct (function_group_nodes connected Error); auto;
    repeat (apply setting_loop_mono;
            [apply pull_cleanup_sets || apply pull_error_sets|]); auto.
Qed.

Lemma assign_remaining_nodup levels :
  NoDup (dict_keys levels) ->
  NoDup (dict_keys (assign_remaining levels connected inc)).
Proof. apply setting_loop_nodup, assign_remaining_node_sets. Qed.

Lemma assign_remaining_keys levels n :
  dict_has (assign_remaining levels connected inc) n = true ->
  dict_has levels n = true \/ In n (dict_keys connected).
Proof. apply setting_loop_keys, assign_remaining_node_sets. Qed.

Lemma assign_remaining_node_keeps levels node n l :
  dict_get levels n = Some l ->
  dict_get (assign_remaining_node inc levels node) n = Some l.
Proof.
  intros H. unfold assign_remaining_node.
  destruct (dict_has levels node) eqn:E; [assumption|].
  assert (node <> n).
  { intros ->. apply dict_get_has in H. congruence. }
  destruct (inc node); now rewrite dict_get_set_other.
Qed.

(** A level present before the loop of lines 1522-1529 is left as it is *)
Lemma assign_remaining_keeps levels n l :
  dict_get levels n = Some l ->
  dict_get (assign_remaining levels connected inc) n = Some l.
Proof.
  unfold assign_remaining. generalize (dict_keys connected) as todo.
  intros todo. revert levels.
  induction todo as [|m todo IH]; intros levels H; simpl; auto.
  apply IH. now apply assign_remaining_node_keeps.
Qed.

(** After that loop every connected node has a level *)
Lemma assign_remaining_covers levels n :
  In n (dict_keys connected) ->
  dict_has (assign_remaining levels connected inc) n = true.
Proof.
  unfold assign_remaining. generalize (dict_keys connected) as todo.
  intros todo. revert levels.
  induction todo as [|m todo IH]; intros levels; simpl; [tauto|].
  intros [-> | Hin]; [|now apply IH].
  apply setting_loop_mono; [apply assign_remaining_node_sets|].
  unfold assign_remaining_node.
  destruct (dict_has levels n) eqn:E; [assumption|].
  destruct (inc n); rewrite dict_has_set, String.eqb_refl; reflexivity.
Qed.
End SecondPass.

(** ** Crowded levels *)

Lemma groups_get_append g r n r' :
  groups_get (groups_append g r n) r' =
  if r =? r' then (groups_get g r ++ [n])%list else groups_get g r'.
Proof.
  induction g as [|[r0 l0] g IH]; simpl.
  - destruct (r =? r'); reflexivity.
  - destruct (Z.eqb_spec r0 r) as [-> | Hne]; simpl.
    + destruct (Z.eqb_spec r r'); reflexivity.
    + rewrite IH. destruct (Z.eqb_spec r0 r') as [-> | Hne'].
      * destruct (Z.eqb_spec r r'); [congruence | reflexivity].
      * reflexivity.
Qed.

Lemma groups_get_set g r l r' :
  groups_get (groups_set g r l) r' = if r =? r' then l else groups_get g r'.
Proof.
  induction g as [|[r0 l0] g IH]; simpl.
  - reflexivity.
  - destruct (Z.eqb_spec r0 r) as [-> | Hne]; simpl.
    + destruct (Z.eqb_spec r r'); reflexivity.
    + rewrite IH. destruct (Z.eqb_spec r0 r') as [-> | Hne'].
      * destruct (Z.eqb_spec r r'); [congruence | reflexivity].
      * reflexivity.
Qed.

Lemma groups_get_key g r n : In n (groups_get g r) -> In r (map fst g).
Proof.
  induction g as [|[r0 l0] g IH]; simpl; [tauto|].
  destruct (Z.eqb_spec r0 r); auto.
Qed.

Lemma groups_get_elem g r n :
  In n (groups_get g r) -> In (r, groups_get g r) g.
Proof.
  induction g as [|[r0 l0] g IH]; simpl; [tauto|].
  destruct (Z.eqb_spec r0 r) as [-> | Hne]; auto.
Qed.

Lemma groups_append_keys g r n :
  map fst (groups_append g r n) =
  if existsb (Z.eqb r) (map fst g) then map fst g else (map fst g ++ [r])%list.
Proof.
  induction g as [|[r0 l0] g IH]; simpl; [reflexivity|].
  rewrite (Z.eqb_sym r r0).
  destruct (Z.eqb_spec r0 r) as [-> | Hne]; simpl; [reflexivity|].
  rewrite IH. now destruct (existsb _ _).
Qed.

Lemma groups_append_keys_nodup g r n :
  NoDup (map fst g) -> NoDup (map fst (groups_append g r n)).
Proof.
  intros Hnd. rewrite groups_append_keys.
  destruct (existsb (Z.eqb r) (map fst g)) eqn:E; [assumption|].
  apply NoDup_app; auto.
  - constructor; [simpl; tauto | constructor].
  - intros x Hx [<- | []].
    assert (existsb (Z.eqb r) (map fst g) = true); [|congruence].
    apply existsb_exists. exists r. split; [assumption | apply Z.eqb_refl].
Qed.

Lemma groups_append_keys_In g r n r' :
  In r' (map fst (groups_append g r n)) -> In r' (map fst g) \/ r' = r.
Proof.
  rewrite groups_append_keys. destruct (existsb _ _); auto.
  intros H. apply in_app_or in H as [H | [<- | []]]; auto.
Qed.

Section GroupByLevel.
Variable ranks : dict rank.

Local Abbreviation build g l :=
  (fold_left (fun (g0 : groups) (kv : string * rank) =>
                groups_append g0 (snd kv) (fst kv)) l g).

Lemma build_get l g n r :
  In n (groups_get (build g l) r) <-> In n (groups_get g r) \/ In (n, r) l.
Proof.
  revert g. induction l as [|[m q] l IH]; intros g; cbn [fold_left]; [simpl; tauto|].
  rewrite IH, groups_get_append. cbn [fst snd].
  destruct (Z.eqb_spec q r) as [-> | Hne].
  - rewrite in_app_iff. simpl. split.
    + intros [[H | [-> | []]] | H]; auto.
    + intros [H | [[= ->] | H]]; auto.
  - simpl. split; [intros [H | H]; auto|].
    intros [H | [[= -> ->] | H]]; auto. congruence.
Qed.

Lemma build_keys_nodup l g :
  NoDup (map fst g) -> NoDup (map fst (build g l)).
Proof.
  revert g. induction l as [|[m q] l IH]; intros g Hnd; cbn [fold_left]; auto.
  apply IH. now apply groups_append_keys_nodup.
Qed.

Lemma build_keys l g r :
  In r (map fst (build g l)) -> In r (map fst g) \/ In r (map snd l).
Proof.
  revert g. induction l as [|[m q] l IH]; intros g; cbn [fold_left]; auto.
  intros H. apply IH in H as [H | H]; [|simpl; auto].
  apply groups_append_keys_In in H as [H | ->]; simpl; auto.
Qed.

Lemma group_by_level_get n r :
  In n (groups_get (group_by_level ranks) r) <-> In (n, r) ranks.
Proof.
  unfold group_by_level. rewrite build_get. simpl. tauto.
Qed.

Lemma group_by_level_keys_nodup : NoDup (map fst (group_by_level ranks)).
Proof. apply (build_keys_nodup ranks []). constructor. Qed.

Lemma group_by_level_keys r :
  In r (map fst (group_by_level ranks)) -> In r (map snd ranks).
Proof.
  intros H. apply (build_keys ranks []) in H as [[] | H]. exact H.
Qed.
End GroupByLevel.

Lemma dict_get_map_values {V W : Type} (f : V -> W) (d : dict V) k :
  dict_get (map (fun kv => (fst kv, f (snd kv))) d) k
  = option_map f (dict_get d k).
Proof.
  induction d as [|[k0 v0] d IH]; simpl; [reflexivity|].
  destruct (String.eqb k0 k); auto.
Qed.

Lemma dict_keys_map_values {V W : Type} (f : V -> W) (d : dict V) :
  dict_keys (map (fun kv => (fst kv, f (snd kv))) d) = dict_keys d.
Proof. unfold dict_keys. rewrite map_map. reflexivity. Qed.

(** [for node in l: levels[node] = v] *)
Lemma set_all_get (l : list string) (v : rank) (lv : dict rank) n :
  dict_get (fold_left (fun lv node => dict_set lv node v) l lv) n
  = if PyStr.mem n l then Some v else dict_get lv n.
Proof.
  revert lv. induction l as [|m l IH]; intros lv; simpl; [reflexivity|].
  rewrite IH, dict_get_set. rewrite (String.eqb_sym n m).
  destruct (String.eqb m n); simpl; destruct (PyStr.mem n l); reflexivity.
Qed.

Section Split.
Variables (nodes : dict string) (out : adjacency) (levels : dict Z).

Lemma split_invariant_weaken level todo g lv :
  split_invariant levels (level :: todo) g lv -> split_invariant levels todo g lv.
Proof.
  intros [H1 H2 H3 H4 H5]. constructor; auto.
  intros n r Hn Hodd Hin. apply (H5 n r Hn Hodd). now right.
Qed.

Lemma split_level_invariant level todo g lv :
  split_invariant levels (level :: todo) g lv ->
  Z.even level = true -> ~ In level todo ->
  split_invariant levels todo
    (fst (split_level nodes out (g, lv) level))
    (snd (split_level nodes out (g, lv) level)).
Proof.
  intros Hinv Heven Hfresh. unfold split_level.
  destruct (max_nodes_per_level <? lenZ (groups_get g level));
    [|now apply split_invariant_weaken with level].
  set (nodes_in_level := groups_get g level).
  set (important := filter (is_important nodes out) nodes_in_level).
  set (regular := filter (fun n => negb (PyStr.mem n important)) nodes_in_level).
  assert (Himp : forall n, In n important -> In n nodes_in_level).
  { intros n Hn. now apply filter_In in Hn. }
  assert (Hreg : forall n, In n regular <->
                           In n nodes_in_level /\ ~ In n important).
  { intros n. unfold regular. rewrite filter_In, negb_true_iff, mem_false.
    tauto. }
  assert (Hlevel : forall n, In n nodes_in_level -> dict_get lv n = Some level).
  { intros n Hn. now apply (group_ranked _ _ _ _ Hinv). }
  assert (Hnext : forall n, dict_get lv n <> Some (level + 1)).
  { intros n Hn. apply (half_done _ _ _ _ Hinv n (level + 1) Hn).
    - rewrite Z.even_add, Heven. reflexivity.
    - left. lia. }
  destruct Hinv as [H1 H2 H3 H4 H5].
  destruct regular as [|r0 rs] eqn:Ereg.
  - cbn [fst snd]. constructor; auto.
    + intros n r Hn. rewrite groups_get_set in Hn.
      destruct (Z.eqb_spec level r) as [E | Hne]; [subst r|]; auto.
    + intros n r Hn. rewrite groups_get_set.
      destruct (Z.eqb_spec level r) as [E | Hne]; [subst r|]; auto.
      apply H2 in Hn. fold nodes_in_level in Hn.
      destruct (in_dec string_dec n important) as [Hi | Hni]; [assumption|].
      exfalso. assert (In n []) as []. apply Hreg. auto.
    + intros n r Hn Hodd Hin. apply (H5 n r Hn Hodd). now right.
  - rewrite <- Ereg in Hreg |- *. clear Ereg r0 rs.
    cbn [fst snd]. unfold half_above.
    assert (Hget : forall n,
              dict_get (fold_left (fun lv0 node => dict_set lv0 node (level + 1))
                                  regular lv) n
              = if PyStr.mem n regular then Some (level + 1) else dict_get lv n).
    { intros n. apply set_all_get. }
    constructor.
    + intros n r Hn. rewrite Hget. rewrite !groups_get_set in Hn.
      destruct (Z.eqb_spec (level + 1) r) as [E | Hne]; [subst r|].
      * apply mem_In in Hn. now rewrite Hn.
      * destruct (PyStr.mem n regular) eqn:Hmem.
        -- exfalso. apply mem_In, Hreg in Hmem as [Hin Hni].
           destruct (Z.eqb_spec level r) as [E | Hne']; [subst r|]; [contradiction|].
           apply H1 in Hn. rewrite (Hlevel n Hin) in Hn. congruence.
        -- destruct (Z.eqb_spec level r) as [E | Hne']; [subst r|]; auto.
    + intros n r Hn. rewrite Hget in Hn. rewrite !groups_get_set.
      destruct (PyStr.mem n regular) eqn:Hmem.
      * injection Hn as <-. rewrite Z.eqb_refl. now apply mem_In.
      * destruct (Z.eqb_spec (level + 1) r) as [E | Hne]; [subst r|];
          [exfalso; now apply (Hnext n)|].
        destruct (Z.eqb_spec level r) as [E | Hne']; [subst r|]; auto.
        apply H2 in Hn. fold nodes_in_level in Hn.
        destruct (in_dec string_dec n important) as [Hi | Hni]; [assumption|].
        exfalso. apply mem_false in Hmem. apply Hmem, Hreg. auto.
    + intros n l Hn. rewrite Hget.
      destruct (PyStr.mem n regular) eqn:Hmem; auto.
      right. apply mem_In, Hreg in Hmem as [Hin _].
      apply Hlevel in Hin.
      destruct (H3 n l Hn) as [E | E]; rewrite E in Hin;
        injection Hin as Hin; unfold rank_of_level, half_above in *.
      * now rewrite <- Hin.
      * exfalso. rewrite <- Hin in Heven.
        rewrite Z.even_add, Z.even_mul in Heven. discriminate.
    + intros n Hn. unfold dict_has in Hn. rewrite Hget in Hn.
      destruct (PyStr.mem n regular) eqn:Hmem; [|now apply H4].
      apply mem_In, Hreg in Hmem as [Hin _].
      apply Hlevel in Hin. apply H4. unfold dict_has. now rewrite Hin.
    + intros n r Hn Hodd Hin. rewrite Hget in Hn.
      destruct (PyStr.mem n regular) eqn:Hmem.
      * injection Hn as <-. apply Hfresh.
        now replace level with (level + 1 - 1) by apply Z.add_simpl_r.
      * apply (H5 n r Hn Hodd). now right.
Qed.

Lemma split_levels_invariant todo g lv :
  split_invariant levels todo g lv ->
  NoDup todo -> Forall (fun r => Z.even r = true) todo ->
  split_invariant levels []
    (fst (fold_left (split_level nodes out) todo (g, lv)))
    (snd (fold_left (split_level nodes out) todo (g, lv))).
Proof.
  revert g lv. induction todo as [|level todo IH]; intros g lv Hinv Hnd Heven;
    cbn [fold_left]; [assumption|].
  inversion Hnd as [|? ? Hfresh Hnd']; subst.
  inversion Heven as [|? ? Hlevel Heven']; subst.
  pose proof (split_level_invariant level todo g lv Hinv Hlevel Hfresh) as Hstep.
  destruct (split_level nodes out (g, lv) level) as [g' lv'].
  now apply IH.
Qed.

Hypothesis levels_nodup : NoDup (dict_keys levels).

Lemma redistribute_invariant :
  split_invariant levels []
    (fst (redistribute nodes out levels)) (snd (redistribute nodes out levels)).
Proof.
  unfold redistribute.
  set (ranks := map (fun kv => (fst kv, rank_of_level (snd kv))) levels).
  assert (Hranks : forall n, dict_get ranks n
                             = option_map rank_of_level (dict_get levels n)).
  { intros n. apply dict_get_map_values. }
  assert (Hkeys : NoDup (dict_keys ranks)).
  { unfold ranks. now rewrite dict_keys_map_values. }
  assert (Heven : forall r, In r (map snd ranks) -> Z.even r = true).
  { intros r Hr. unfold ranks in Hr. rewrite map_map in Hr.
    apply in_map_iff in Hr as (kv & <- & _). simpl. unfold rank_of_level.
    now rewrite Z.even_mul. }
  apply split_levels_invariant.
  - constructor.
    + intros n r Hn. apply group_by_level_get in Hn. now apply dict_In_get.
    + intros n r Hn. apply group_by_level_get. now apply dict_get_In.
    + intros n l Hn. left. rewrite Hranks, Hn. reflexivity.
    + intros n Hn. unfold dict_has in *. rewrite Hranks in Hn.
      now destruct (dict_get levels n).
    + intros n r Hn Hodd. apply dict_get_In in Hn.
      rewrite Heven in Hodd; [discriminate|].
      change r with (snd (n, r)). now apply in_map.
  - unfold sorted_ranks, sort_ascending.
    eapply Permutation_NoDup;
      [apply Permutation_sym, stable_sort_perm | apply group_by_level_keys_nodup].
  - apply Forall_forall. intros r Hr.
    unfold sorted_ranks, sort_ascending in Hr. apply stable_sort_In in Hr.
    apply Heven. now apply group_by_level_keys.
Qed.
End Split.

(** ** The levels of a graph *)

Section GraphLevels.
Variables (nodes : dict string) (edges : list edge).

Lemma outgoing_edge u v : In v (outgoing nodes edges u) -> In (u, v) edges.
Proof.
  unfold outgoing. intros H. apply in_map_iff in H as ([s t] & <- & H).
  apply filter_In in H as [H E]. simpl in E. apply String.eqb_eq in E. subst s.
  unfold valid_edges in H. now apply filter_In in H.
Qed.

Lemma connected_keys n :
  In n (dict_keys (layout_connected nodes edges)) <->
  In n (dict_keys nodes)
  /\ is_isolated (incoming nodes edges) (outgoing nodes edges) n = false.
Proof.
  unfold layout_connected, connected_nodes, dict_keys.
  rewrite !in_map_iff. split.
  - intros ([k v] & <- & H). apply filter_In in H as [H E].
    apply negb_true_iff in E. split; [|exact E].
    exists (k, v). auto.
  - intros [([k v] & <- & H) E]. exists (k, v). split; [reflexivity|].
    apply filter_In. split; [assumption | now apply negb_true_iff].
Qed.

Lemma first_pass_invariant :
  exists visited,
    bfs_invariant (layout_connected nodes edges) (outgoing nodes edges)
                  (layout_roots nodes edges) []
                  (first_pass_levels nodes edges) visited.
Proof.
  destruct (bfs_levels_total nodes (layout_connected nodes edges)
              (incoming nodes edges) (outgoing nodes edges)
              (layout_roots nodes edges)) as (visited & _ & Hinv).
  - apply select_roots_connected.
  - exists visited. exact Hinv.
Qed.

Lemma first_pass_keys n :
  dict_has (first_pass_levels nodes edges) n = true ->
  In n (dict_keys (layout_connected nodes edges)).
Proof.
  destruct first_pass_invariant as (visited & Hinv). intros H.
  apply (visited_connected _ _ _ _ _ _ Hinv).
  now apply (levels_visited _ _ _ _ _ _ Hinv).
Qed.

Lemma assign_levels_unfold :
  assign_levels nodes edges
  = assign_remaining (second_pass_levels nodes edges)
                     (layout_connected nodes edges) (incoming nodes edges).
Proof. reflexivity. Qed.

Lemma assign_levels_nodup : NoDup (dict_keys (assign_levels nodes edges)).
Proof.
  rewrite assign_levels_unfold.
  apply assign_remaining_nodup, refine_nodup.
  destruct first_pass_invariant as (visited & Hinv).
  apply (levels_nodup _ _ _ _ _ _ Hinv).
Qed.

Lemma assign_levels_keys n :
  dict_has (assign_levels nodes edges) n = true ->
  In n (dict_keys (layout_connected nodes edges)).
Proof.
  rewrite assign_levels_unfold. intros H.
  apply assign_remaining_keys in H as [H | H]; [|assumption].
  unfold second_pass_levels in H.
  apply (refine_keys (layout_connected nodes edges) (incoming nodes edges)
                     (outgoing nodes edges)) in H as [H | H]; [|assumption].
  now apply first_pass_keys.
Qed.

Lemma assign_levels_covers n :
  In n (dict_keys (layout_connected nodes edges)) ->
  dict_has (assign_levels nodes edges) n = true.
Proof. rewrite assign_levels_unfold. apply assign_remaining_covers. Qed.

Lemma final_ranks_invariant :
  split_invariant (assign_levels nodes edges) []
    (fst (redistribute nodes (outgoing nodes edges) (assign_levels nodes edges)))
    (final_ranks nodes edges).
Proof. apply redistribute_invariant, assign_levels_nodup. Qed.

(** A level of the first pass that the second pass leaves alone becomes
    the rank twice as large, or that rank plus one (the half level). *)
Lemma untouched_rank n l :
  dict_get (first_pass_levels nodes edges) n = Some l ->
  level_of (second_pass_levels nodes edges) n
  = level_of (first_pass_levels nodes edges) n ->
  dict_get (final_ranks nodes edges) n = Some (2 * l)
  \/ dict_get (final_ranks nodes edges) n = Some (2 * l + 1).
Proof.
  intros Hfirst Hsame.
  assert (Hsecond : dict_get (second_pass_levels nodes edges) n = Some l).
  { pose proof (refine_mono (layout_connected nodes edges)
                  (incoming nodes edges) (outgoing nodes edges)
                  (first_pass_levels nodes edges) n
                  (dict_get_has _ _ _ Hfirst)) as Hhas.
    change (dict_has (second_pass_levels nodes edges) n = true) in Hhas.
    unfold level_of, dict_get_default, dict_has in *.
    rewrite Hfirst in Hsame.
    destruct (dict_get (second_pass_levels nodes edges) n);
      [congruence | discriminate]. }
  apply (rank_of_original _ _ _ _ final_ranks_invariant).
  rewrite assign_levels_unfold. now apply assign_remaining_keeps.
Qed.
End GraphLevels.

(** C1 (as stated, refuted): in the triangle the edge from "node-3" to
    "node-2" joins two nodes whose levels the rebalancing did not modify
    (it modified none), and both end at the same rank: the target's rank
    is not greater than the source's. *)
Lemma C1_cross_edge_not_increasing :
  In ("node-3", "node-2") triangle_edges
  /\ second_pass_levels triangle_nodes triangle_edges
     = first_pass_levels triangle_nodes triangle_edges
  /\ dict_get (final_ranks triangle_nodes triangle_edges) "node-3" = Some 2
  /\ dict_get (final_ranks triangle_nodes triangle_edges) "node-2" = Some 2.
Proof. vm_compute. repeat split; auto. Qed.

(** C1 (amended): a node that the breadth-first pass ranks is a root at
    level 0 or was reached through an edge from a node one level above it;
    for that edge, when the ranks of both endpoints were not modified by
    the error/cleanup rebalancing, the final rank of the target is strictly
    greater than the final rank of the source.  Other edges (to a node
    already reached by another path, or closing a cycle) carry no such
    guarantee. *)
Theorem C1_discovery_edge_increasing (nodes : dict string) (edges : list edge)
    (v : string) (l : Z) :
  dict_get (first_pass_levels nodes edges) v = Some l ->
  (In v (layout_roots nodes edges) /\ l = 0)
  \/ exists u,
       In (u, v) edges
       /\ dict_get (first_pass_levels nodes edges) u = Some (l - 1)
       /\ (level_of (second_pass_levels nodes edges) u
             = level_of (first_pass_levels nodes edges) u ->
           level_of (second_pass_levels nodes edges) v
             = level_of (first_pass_levels nodes edges) v ->
           exists ru rv,
             dict_get (final_ranks nodes edges) u = Some ru
             /\ dict_get (final_ranks nodes edges) v = Some rv
             /\ ru < rv).
Proof.
  intros Hv.
  destruct (first_pass_invariant nodes edges) as (visited & Hinv).
  destruct (levels_reached _ _ _ _ _ _ Hinv v l Hv) as [Hroot | (u & Hedge & Hu)].
  - now left.
  - right. exists u. split; [now apply outgoing_edge with nodes|].
    split; [assumption|].
    intros Hsame_u Hsame_v.
    destruct (untouched_rank nodes edges u (l - 1) Hu Hsame_u) as [Eu | Eu];
      destruct (untouched_rank nodes edges v l Hv Hsame_v) as [Ev | Ev];
      eexists; eexists; (split; [exact Eu|]); (split; [exact Ev|]); lia.
Qed.

Lemma C1_discovery_edge_increasing_witness :
  exists u,
    In (u, "node-3") triangle_edges
    /\ dict_get (first_pass_levels triangle_nodes triangle_edges) u = Some 0
    /\ exists ru rv,
         dict_get (final_ranks triangle_nodes triangle_edges) u = Some ru
         /\ dict_get (final_ranks triangle_nodes triangle_edges) "node-3" = Some rv
         /\ ru < rv.
Proof.
  destruct (C1_discovery_edge_increasing triangle_nodes triangle_edges
              "node-3" 1 eq_refl) as [[_ Habs] | (u & Hedge & Hu & Hranks)].
  - discriminate.
  - exists u. split; [assumption|]. split; [assumption|].
    apply Hranks.
    + vm_compute in Hedge.
      destruct Hedge as [E | [E | [E | []]]]; injection E as <-;
        try discriminate; reflexivity.
    + reflexivity.
Defined.

(** ** Geometry *)

Lemma spacing_bounds total max_w max_h :
  280 <= snd (spacing total max_w max_h)
  /\ max_w + 120 <= snd (spacing total max_w max_h).
Proof.
  unfold spacing.
  destruct (total <=? 10); [simpl; lia|].
  destruct (total <=? 30); [simpl; lia|].
  destruct (total <=? 60); simpl; lia.
Qed.

Lemma main_graph_width_bound total max_in_level bns :
  max_in_level * bns + 600 <= main_graph_width_of total max_in_level bns.
Proof.
  unfold main_graph_width_of.
  destruct (total <=? 20); [lia|]. destruct (total <=? 50); lia.
Qed.

(** A box of a level ends at or before the main graph width *)
Lemma slot_within count max_in_level bns mgw max_w w i :
  1 <= count <= max_in_level ->
  0 <= i < count ->
  280 <= bns -> max_w + 120 <= bns ->
  0 <= w <= max_w -> w <= 300 ->
  max_in_level * bns + 600 <= mgw ->
  200 <= slot_x count mgw bns i /\ slot_x count mgw bns i + w <= mgw.
Proof.
  intros Hcount Hi Hbns Hmw Hw Hw300 Hmgw.
  assert (Hprod : count * bns <= max_in_level * bns) by nia.
  set (q := mgw / (count + 1)).
  assert (Hq : (count + 1) * q <= mgw).
  { unfold q. apply Z.mul_div_le. lia. }
  assert (Hgap : forall s, 0 <= s ->
            (count - 1) * s + 2 * Z.max w 200 <= mgw ->
            200 <= Z.max 200 ((mgw - (count - 1) * s) / 2) + i * s
            /\ Z.max 200 ((mgw - (count - 1) * s) / 2) + i * s + w <= mgw).
  { intros s Hs Hroom.
    set (tw := (count - 1) * s) in *.
    assert (Hd : 2 * ((mgw - tw) / 2) <= mgw - tw) by (apply Z.mul_div_le; lia).
    assert (Hd' : 200 <= (mgw - tw) / 2) by (apply Z.div_le_lower_bound; lia).
    assert (His : 0 <= i * s <= tw) by (unfold tw; nia).
    lia. }
  unfold slot_x, node_spacing_of. fold q.
  destruct (12 <? count) eqn:C12; [|destruct (8 <? count) eqn:C8;
                                     [|destruct (4 <? count) eqn:C4]].
  - apply Z.ltb_lt in C12. apply Hgap; [lia|].
    destruct (Z.max_spec 280 q) as [[Hlt ->] | [Hge ->]].
    + assert (w <= q); [|nia].
      apply Z.div_le_lower_bound; [lia|]. nia.
    + nia.
  - apply Z.ltb_ge in C12. apply Z.ltb_lt in C8. apply Hgap; [lia|].
    destruct (Z.max_spec 320 q) as [[Hlt ->] | [Hge ->]]; nia.
  - apply Z.ltb_ge in C8. apply Z.ltb_lt in C4. apply Hgap; [lia|].
    destruct (Z.max_spec (bns + 60) q) as [[Hlt ->] | [Hge ->]]; nia.
  - apply Z.ltb_ge in C4. apply Hgap; [lia|]. nia.
Qed.

Lemma calculate_node_size_width label font_size isolated :
  90 <= fst (calculate_node_size label font_size isolated) <= 300.
Proof.
  unfold calculate_node_size. cbn [fst].
  set (tw := Z.of_nat (String.length label) * char_width2 font_size).
  destruct isolated.
  - split; [apply Z.div_le_lower_bound | apply Z.div_le_upper_bound]; lia.
  - split; [apply Z.div_le_lower_bound | apply Z.div_le_upper_bound]; lia.
Qed.

Lemma node_size_of_fst isolated kv : fst (node_size_of isolated kv) = fst kv.
Proof. now destruct kv. Qed.

Lemma node_size_of_width isolated kv :
  90 <= fst (snd (node_size_of isolated kv)) <= 300.
Proof. destruct kv. apply calculate_node_size_width. Qed.

Lemma fold_max_bounds {A : Type} (f : A -> Z) (l : list A) (m : Z) :
  m <= fold_left (fun m x => Z.max m (f x)) l m
  /\ forall x, In x l -> f x <= fold_left (fun m x => Z.max m (f x)) l m.
Proof.
  revert m. induction l as [|a l IH]; intros m; simpl.
  - split; [lia | intros x []].
  - destruct (IH (Z.max m (f a))) as [Hm Hall]. split; [lia|].
    intros x [<- | Hx]; [lia | auto].
Qed.

Lemma max_width_of_bound nodes isolated kv :
  In kv nodes -> fst (snd (node_size_of isolated kv)) <= max_width_of nodes isolated.
Proof.
  intros H. unfold max_width_of.
  now apply (fold_max_bounds (fun kv => fst (snd (node_size_of isolated kv)))).
Qed.

Lemma max_width_of_nonneg nodes isolated : 0 <= max_width_of nodes isolated.
Proof.
  unfold max_width_of.
  apply (fold_max_bounds (fun kv => fst (snd (node_size_of isolated kv)))).
Qed.

Section NodeSizes.
Variables (nodes : dict string) (isolated : list string).

Local Abbreviation add_size :=
  (fun (sizes : dict (Z * Z)) (kv : string * string) =>
     let (node_id, size) := node_size_of isolated kv in
     dict_set sizes node_id size).

Lemma add_size_eq sizes kv :
  add_size sizes kv = dict_set sizes (fst kv) (snd (node_size_of isolated kv)).
Proof. destruct kv. reflexivity. Qed.

Lemma sizes_loop_has l sizes n :
  dict_has sizes n = true \/ In n (dict_keys l) ->
  dict_has (fold_left add_size l sizes) n = true.
Proof.
  revert sizes. induction l as [|kv l IH]; intros sizes; cbn [fold_left].
  - intros [H | []]. exact H.
  - intros H. apply IH. rewrite add_size_eq, dict_has_set.
    destruct H as [H | [H | H]]; auto.
    + rewrite H. left. apply orb_true_r.
    + left. rewrite H, String.eqb_refl. reflexivity.
Qed.

Lemma sizes_loop_get l sizes n size :
  dict_get (fold_left add_size l sizes) n = Some size ->
  dict_get sizes n = Some size
  \/ exists kv, In kv l /\ size = snd (node_size_of isolated kv).
Proof.
  revert sizes. induction l as [|kv l IH]; intros sizes; cbn [fold_left]; auto.
  intros H. apply IH in H as [H | (kv' & Hin & E)].
  - rewrite add_size_eq, dict_get_set in H.
    destruct (String.eqb (fst kv) n); auto.
    injection H as <-. right. exists kv. split; [now left | reflexivity].
  - right. exists kv'. split; [now right | assumption].
Qed.

Lemma compute_node_sizes_has n :
  In n (dict_keys nodes) -> dict_has (compute_node_sizes nodes isolated) n = true.
Proof. intros H. apply sizes_loop_has. now right. Qed.

Lemma compute_node_sizes_width n w h :
  dict_get (compute_node_sizes nodes isolated) n = Some (w, h) ->
  0 <= w <= max_width_of nodes isolated /\ w <= 300.
Proof.
  intros H. apply sizes_loop_get in H as [H | (kv & Hin & E)]; [discriminate|].
  pose proof (node_size_of_width isolated kv) as Hw.
  pose proof (max_width_of_bound nodes isolated kv Hin) as Hmax.
  rewrite <- E in Hw, Hmax. simpl in Hw, Hmax. lia.
Qed.
End NodeSizes.

(** ** Placement *)

Section PlaceAll.
Variable place : Z -> position.

Lemma place_all_mono l i positions n :
  dict_has positions n = true ->
  dict_has (place_all place i l positions) n = true.
Proof.
  revert i positions. induction l as [|m l IH]; intros i positions H; simpl; auto.
  apply IH. now apply dict_has_set_mono.
Qed.

Lemma place_all_has l i positions n :
  In n l -> dict_has (place_all place i l positions) n = true.
Proof.
  revert i positions. induction l as [|m l IH]; intros i positions; simpl;
    [tauto|].
  intros [-> | H]; [|now apply IH].
  apply place_all_mono. rewrite dict_has_set, String.eqb_refl. reflexivity.
Qed.

Lemma place_all_get l i positions n p :
  dict_get (place_all place i l positions) n = Some p ->
  (~ In n l /\ dict_get positions n = Some p)
  \/ (In n l /\ exists j, i <= j < i + lenZ l /\ p = place j).
Proof.
  revert i positions. induction l as [|m l IH]; intros i positions; simpl.
  - intros H. left. tauto.
  - intros H. apply IH in H as [[Hni H] | [Hin (j & Hj & E)]].
    + rewrite dict_get_set in H.
      destruct (String.eqb_spec m n) as [-> | Hne].
      * injection H as <-. right. split; [now left|].
        exists i. unfold lenZ. simpl. split; [lia | reflexivity].
      * left. split; [|assumption]. intros [E | E]; auto.
    + right. split; [now right|]. exists j. unfold lenZ in *. simpl.
      split; [lia | assumption].
Qed.
End PlaceAll.

Section PlaceLevels.
Variables (nodes : dict string) (inc out : adjacency) (g : groups).
Variables (mgw bns level_spacing : Z).

Local Abbreviation place_one := (place_level nodes inc out g mgw bns level_spacing).

Lemma place_level_mono positions r n :
  dict_has positions n = true -> dict_has (place_one positions r) n = true.
Proof. apply place_all_mono. Qed.

Lemma place_level_has positions r n :
  In n (groups_get g r) -> dict_has (place_one positions r) n = true.
Proof.
  intros H. unfold place_level. apply place_all_has.
  now apply stable_sort_In.
Qed.

Lemma place_level_get positions r n p :
  dict_get (place_one positions r) n = Some p ->
  dict_get positions n = Some p
  \/ (In n (groups_get g r)
      /\ exists j, 0 <= j < lenZ (groups_get g r)
                   /\ pos_x p = slot_x (lenZ (groups_get g r)) mgw bns j).
Proof.
  unfold place_level. intros H.
  apply place_all_get in H as [[_ H] | [Hin (j & Hj & ->)]]; [now left|].
  right. split; [now apply stable_sort_In in Hin|].
  exists j. unfold lenZ in *. rewrite stable_sort_length in Hj.
  split; [lia | reflexivity].
Qed.

Lemma place_levels_mono ranks positions n :
  dict_has positions n = true ->
  dict_has (fold_left place_one ranks positions) n = true.
Proof.
  revert positions. induction ranks as [|r ranks IH]; intros positions H;
    cbn [fold_left]; auto.
  apply IH. now apply place_level_mono.
Qed.

Lemma place_levels_has ranks positions r n :
  In r ranks -> In n (groups_get g r) ->
  dict_has (fold_left place_one ranks positions) n = true.
Proof.
  revert positions. induction ranks as [|r0 ranks IH]; intros positions;
    cbn [fold_left]; [intros []|].
  intros [-> | Hr] Hn; [|now apply IH].
  apply place_levels_mono. now apply place_level_has.
Qed.

Lemma place_levels_get ranks positions n p :
  dict_get (fold_left place_one ranks positions) n = Some p ->
  dict_get positions n = Some p
  \/ exists r, In n (groups_get g r)
       /\ exists j, 0 <= j < lenZ (groups_get g r)
                    /\ pos_x p = slot_x (lenZ (groups_get g r)) mgw bns j.
Proof.
  revert positions. induction ranks as [|r0 ranks IH]; intros positions;
    cbn [fold_left]; auto.
  intros H. apply IH in H as [H | H]; [|now right].
  apply place_level_get in H as [H | H]; [now left | right].
  exists r0. exact H.
Qed.
End PlaceLevels.

Section PlaceIsolated.
Variables (nodes : dict string) (isolated : list string).
Variables (mgw max_w max_h : Z).

Lemma place_isolated_mono positions n :
  dict_has positions n = true ->
  dict_has (place_isolated nodes isolated mgw max_w max_h positions) n = true.
Proof.
  intros H. unfold place_isolated. destruct isolated; [assumption|].
  destruct (isolated_columns _). now apply place_all_mono.
Qed.

Lemma place_isolated_other positions n :
  ~ In n isolated ->
  dict_get (place_isolated nodes isolated mgw max_w max_h positions) n
  = dict_get positions n.
Proof.
  intros Hni. unfold place_isolated.
  destruct isolated as [|a l] eqn:E; [reflexivity|]. rewrite <- E in *.
  destruct (isolated_columns _) as [cols gap].
  match goal with
  | |- dict_get (place_all ?pl ?i ?l ?pos) n = _ =>
      destruct (dict_get (place_all pl i l pos) n) as [p|] eqn:Hp
  end.
  - apply place_all_get in Hp as [[_ Hp] | [Hin _]]; [now rewrite Hp|].
    apply stable_sort_In in Hin. contradiction.
  - destruct (dict_get positions n) as [p|] eqn:Hq; [|reflexivity].
    apply dict_get_has in Hq.
    match type of Hp with
    | dict_get (place_all ?pl ?i ?l ?pos) n = None =>
        pose proof (place_all_mono pl l i pos n Hq) as Hhas
    end.
    unfold dict_has in Hhas. rewrite Hp in Hhas. discriminate.
Qed.

Lemma isolated_columns_bounds count :
  0 < fst (isolated_columns count) /\ 150 <= snd (isolated_columns count).
Proof.
  unfold isolated_columns.
  destruct (count <=? 6); [simpl; lia|].
  destruct (count <=? 18); simpl; lia.
Qed.

(** An isolated node is placed at least 150 to the right of the main graph *)
Lemma place_isolated_get positions n :
  0 <= max_w -> In n isolated ->
  exists p,
    dict_get (place_isolated nodes isolated mgw max_w max_h positions) n = Some p
    /\ mgw + 150 <= pos_x p.
Proof.
  intros Hw Hin. unfold place_isolated.
  destruct isolated as [|a l] eqn:E; [destruct Hin|]. rewrite <- E in *.
  pose proof (isolated_columns_bounds (lenZ isolated)) as [Hcols Hgap].
  destruct (isolated_columns (lenZ isolated)) as [cols gap].
  cbn [fst snd] in Hcols, Hgap.
  match goal with
  | |- exists p, dict_get (place_all ?pl ?i ?l ?pos) n = Some p /\ _ =>
      pose proof (place_all_has pl l i pos n) as Hhas;
      destruct (dict_get (place_all pl i l pos) n) as [p|] eqn:Hp
  end.
  - exists p. split; [reflexivity|].
    apply place_all_get in Hp as [[Hni _] | [_ (j & Hj & ->)]].
    + exfalso. apply Hni. now apply stable_sort_In.
    + cbn [pos_x]. pose proof (Z.mod_pos_bound j cols Hcols). nia.
  - exfalso. unfold dict_has in Hhas. rewrite Hp in Hhas.
    assert (false = true); [|discriminate].
    apply Hhas. now apply stable_sort_In.
Qed.
End PlaceIsolated.

Section LayoutFields.
Variables (nodes : dict string) (edges : list edge).

Lemma layout_positions :
  positions (calculate_hierarchical_layout nodes edges)
  = place_isolated nodes (layout_isolated nodes edges)
      (layout_main_width nodes edges) (layout_max_width nodes edges)
      (layout_max_height nodes edges) (ranked_positions nodes edges).
Proof.
  unfold calculate_hierarchical_layout, ranked_positions, layout_main_width,
    layout_base_spacing, layout_level_spacing, layout_groups,
    layout_max_width, layout_max_height, layout_isolated.
  destruct (redistribute nodes (outgoing nodes edges) (assign_levels nodes edges))
    as [level_groups lv].
  destruct (spacing _ _ _) as [ls bns]. reflexivity.
Qed.

Lemma layout_node_sizes :
  node_sizes (calculate_hierarchical_layout nodes edges)
  = compute_node_sizes nodes (layout_isolated nodes edges).
Proof.
  unfold calculate_hierarchical_layout, layout_isolated.
  destruct (redistribute _ _ _). destruct (spacing _ _ _). reflexivity.
Qed.

Lemma layout_main_graph_width :
  main_graph_width (calculate_hierarchical_layout nodes edges)
  = layout_main_width nodes edges.
Proof.
  unfold calculate_hierarchical_layout, layout_main_width,
    layout_base_spacing, layout_groups, layout_max_width, layout_max_height,
    layout_isolated.
  destruct (redistribute _ _ _). destruct (spacing _ _ _). reflexivity.
Qed.

Lemma isolated_In n :
  In n (layout_isolated nodes edges) <->
  In n (dict_keys nodes)
  /\ is_isolated (incoming nodes edges) (outgoing nodes edges) n = true.
Proof. unfold layout_isolated, isolated_nodes. apply filter_In. Qed.

(** Every connected node is in the group of its final rank, and that rank
    is one of the levels the placement loop goes through. *)
Lemma connected_grouped n :
  In n (dict_keys (layout_connected nodes edges)) ->
  exists r, In r (sorted_ranks (layout_groups nodes edges))
            /\ In n (groups_get (layout_groups nodes edges) r).
Proof.
  intros Hn. apply assign_levels_covers in Hn.
  unfold dict_has in Hn.
  destruct (dict_get (assign_levels nodes edges) n) as [l|] eqn:Hl;
    [|discriminate].
  pose proof (final_ranks_invariant nodes edges) as Hinv.
  assert (exists r, dict_get (final_ranks nodes edges) n = Some r) as [r Hr].
  { destruct (rank_of_original _ _ _ _ Hinv n l Hl); eauto. }
  exists r. apply (ranked_grouped _ _ _ _ Hinv) in Hr.
  split; [|exact Hr].
  unfold sorted_ranks, sort_ascending. apply stable_sort_In.
  now apply groups_get_key with n.
Qed.

(** Only connected nodes are in the groups *)
Lemma grouped_connected n r :
  In n (groups_get (layout_groups nodes edges) r) ->
  In n (dict_keys (layout_connected nodes edges)).
Proof.
  intros H. pose proof (final_ranks_invariant nodes edges) as Hinv.
  apply (group_ranked _ _ _ _ Hinv) in H. apply dict_get_has in H.
  apply (ranked_original _ _ _ _ Hinv) in H.
  now apply assign_levels_keys.
Qed.
End LayoutFields.

Lemma max_list_bound default l x : In x l -> x <= max_list default l.
Proof.
  destruct l as [|a l]; [intros []|]. unfold max_list.
  pose proof (fold_max_bounds (fun x => x) l a) as [Ha Hall].
  intros [<- | Hx]; [exact Ha | now apply Hall].
Qed.

Lemma max_nodes_in_level_bound g r n :
  In n (groups_get g r) -> lenZ (groups_get g r) <= max_nodes_in_level g.
Proof.
  intros H. apply groups_get_elem in H.
  unfold max_nodes_in_level. destruct g as [|e g]; [destruct H|].
  apply max_list_bound.
  change (lenZ (groups_get (e :: g) r))
    with ((fun x : rank * list string => lenZ (snd x)) (r, groups_get (e :: g) r)).
  now apply in_map.
Qed.

(** C10: the layout gives every node of the node map a position and a box
    size, so the emitter's lookups [node_positions[node_id]] and
    [node_sizes[node_id]] succeed; on the way, every connected node has a
    level once the first pass, the rebalancing and the fallback are done. *)
Theorem C10_positions_total (nodes : dict string) (edges : list edge)
    (n : string) :
  In n (dict_keys nodes) ->
  (is_isolated (incoming nodes edges) (outgoing nodes edges) n = false ->
     dict_has (assign_levels nodes edges) n = true)
  /\ exists p size,
       emitter_lookup (calculate_hierarchical_layout nodes edges) n
       = Some (p, size).
Proof.
  intros Hn.
  assert (Hlevel : is_isolated (incoming nodes edges) (outgoing nodes edges) n
                   = false -> dict_has (assign_levels nodes edges) n = true).
  { intros Hconn. apply assign_levels_covers, connected_keys. auto. }
  split; [exact Hlevel|].
  assert (Hpos : dict_has (positions (calculate_hierarchical_layout nodes edges))
                          n = true).
  { rewrite layout_positions.
    destruct (is_isolated (incoming nodes edges) (outgoing nodes edges) n) eqn:E.
    - destruct (place_isolated_get nodes (layout_isolated nodes edges)
                  (layout_main_width nodes edges) (layout_max_width nodes edges)
                  (layout_max_height nodes edges) (ranked_positions nodes edges) n)
        as (p & Hp & _).
      + apply max_width_of_nonneg.
      + apply isolated_In. auto.
      + now apply dict_get_has in Hp.
    - apply place_isolated_mono.
      destruct (connected_grouped nodes edges n) as (r & Hr & Hg).
      + apply connected_keys. auto.
      + unfold ranked_positions. now apply place_levels_has with r. }
  assert (Hsize : dict_has (node_sizes (calculate_hierarchical_layout nodes edges))
                           n = true).
  { rewrite layout_node_sizes. now apply compute_node_sizes_has. }
  unfold emitter_lookup, dict_has in *.
  destruct (dict_get (positions _) n) as [p|]; [|discriminate].
  destruct (dict_get (node_sizes _) n) as [size|]; [|discriminate].
  eauto.
Qed.

Lemma C10_positions_total_witness :
  exists p size,
    emitter_lookup (calculate_hierarchical_layout cleanup_nodes cleanup_edges)
                   "node-5" = Some (p, size).
Proof.
  apply (C10_positions_total cleanup_nodes cleanup_edges "node-5").
  simpl. auto 10.
Defined.

(** C9: a node of the node map without incoming and outgoing edges gets no
    level and no rank; it is placed at least 150 to the right of the main
    graph width, while the box of every ranked node starts at 200 or more
    and ends at or before the main graph width: the isolated node lies
    outside the region of the ranked nodes, never between them. *)
Theorem C9_isolated_side_region (nodes : dict string) (edges : list edge)
    (n : string) :
  In n (dict_keys nodes) ->
  incoming nodes edges n = [] ->
  outgoing nodes edges n = [] ->
  let lay := calculate_hierarchical_layout nodes edges in
  dict_get (assign_levels nodes edges) n = None
  /\ dict_get (final_ranks nodes edges) n = None
  /\ exists p,
       dict_get (positions lay) n = Some p
       /\ main_graph_width lay + 150 <= pos_x p
       /\ forall m q w h,
            dict_has (final_ranks nodes edges) m = true ->
            dict_get (positions lay) m = Some q ->
            dict_get (node_sizes lay) m = Some (w, h) ->
            200 <= pos_x q
            /\ pos_x q + w <= main_graph_width lay
            /\ pos_x q + w < pos_x p.
Proof.
  intros Hn Hinc Hout lay.
  assert (Hiso : is_isolated (incoming nodes edges) (outgoing nodes edges) n = true).
  { unfold is_isolated. now rewrite Hinc, Hout. }
  pose proof (final_ranks_invariant nodes edges) as Hinv.
  assert (Hlevels : dict_has (assign_levels nodes edges) n = false).
  { destruct (dict_has (assign_levels nodes edges) n) eqn:E; [|reflexivity].
    apply assign_levels_keys, connected_keys in E as [_ E]. congruence. }
  assert (Hranks : dict_has (final_ranks nodes edges) n = false).
  { destruct (dict_has (final_ranks nodes edges) n) eqn:E; [|reflexivity].
    apply (ranked_original _ _ _ _ Hinv) in E. congruence. }
  split; [now apply dict_has_false_get|].
  split; [now apply dict_has_false_get|].
  subst lay. rewrite layout_positions, layout_main_graph_width, layout_node_sizes.
  destruct (place_isolated_get nodes (layout_isolated nodes edges)
              (layout_main_width nodes edges) (layout_max_width nodes edges)
              (layout_max_height nodes edges) (ranked_positions nodes edges) n)
    as (p & Hp & Hx).
  { apply max_width_of_nonneg. }
  { apply isolated_In. auto. }
  exists p. split; [exact Hp|]. split; [exact Hx|].
  intros m q w h Hm Hq Hsize.
  assert (Hconn : In m (dict_keys (layout_connected nodes edges))).
  { apply assign_levels_keys. now apply (ranked_original _ _ _ _ Hinv). }
  rewrite place_isolated_other in Hq.
  2:{ intros Hi. apply isolated_In in Hi as [_ Hi].
      apply connected_keys in Hconn as [_ Hc]. congruence. }
  unfold ranked_positions in Hq.
  apply place_levels_get in Hq as [Hq | (r & Hr & j & Hj & Hxq)];
    [discriminate|].
  apply compute_node_sizes_width in Hsize as [Hw Hw300].
  fold (layout_max_width nodes edges) in Hw.
  pose proof (spacing_bounds (lenZ nodes) (layout_max_width nodes edges)
                             (layout_max_height nodes edges)) as [Hb1 Hb2].
  fold (layout_base_spacing nodes edges) in Hb1, Hb2.
  pose proof (max_nodes_in_level_bound _ _ _ Hr) as Hcount.
  pose proof (main_graph_width_bound (lenZ nodes)
                (max_nodes_in_level (layout_groups nodes edges))
                (layout_base_spacing nodes edges)) as Hmgw.
  fold (layout_main_width nodes edges) in Hmgw.
  destruct (slot_within (lenZ (groups_get (layout_groups nodes edges) r))
              (max_nodes_in_level (layout_groups nodes edges))
              (layout_base_spacing nodes edges) (layout_main_width nodes edges)
              (layout_max_width nodes edges) w j) as [Hlo Hhi]; lia.
Qed.

Lemma C9_isolated_side_region_witness :
  dict_get (final_ranks orphan_nodes cleanup_edges) "node-7" = None
  /\ exists p,
       dict_get (positions (calculate_hierarchical_layout orphan_nodes
                                                          cleanup_edges))
                "node-7" = Some p
       /\ main_graph_width (calculate_hierarchical_layout orphan_nodes
                                                          cleanup_edges)
          + 150 <= pos_x p.
Proof.
  destruct (C9_isolated_side_region orphan_nodes cleanup_edges "node-7")
    as (_ & Hrank & p & Hp & Hx & _).
  - simpl. auto 10.
  - reflexivity.
  - reflexivity.
  - split; [exact Hrank|]. exists p. split; assumption.
Defined.

(** * Further properties of the code *)

(** ** Similarity as a relation *)

Lemma within_half_comm_args a b :
  within_half (Nat.min a b) (Nat.max a b) = within_half (Nat.min b a) (Nat.max b a).
Proof. now rewrite Nat.min_comm, Nat.max_comm. Qed.

Lemma similar_swap label1 label2 :
  are_labels_similar label1 label2 = are_labels_similar label2 label1.
Proof.
  rewrite !are_labels_similar_spec.
  rewrite (String.eqb_sym label1 label2).
  rewrite (String.eqb_sym (normalize_label label1) (normalize_label label2)).
  rewrite (orb_comm (PyStr.contains (normalize_label label1) _)).
  now rewrite within_half_comm_args.
Qed.

Lemma similar_same_normal_form label1 label2 :
  normalize_label label1 = normalize_label label2 ->
  are_labels_similar label1 label2 = true.
Proof.
  intros E. rewrite are_labels_similar_spec, E, String.eqb_refl.
  apply orb_true_r.
Qed.

Lemma lower_char_idempotent c : PyStr.lower_char (PyStr.lower_char c) = PyStr.lower_char c.
Proof.
  destruct c as [[] [] [] [] [] [] [] []]; reflexivity.
Qed.

Lemma lower_idempotent s : PyStr.lower (PyStr.lower s) = PyStr.lower s.
Proof.
  induction s as [|c s IH]; simpl; [reflexivity|].
  now rewrite lower_char_idempotent, IH.
Qed.

(** X1: the similarity test does not depend on the order of its two
    labels, and labels that only differ in letter case are similar. *)
Theorem similarity_symmetric_case_blind (label1 label2 : string) :
  are_labels_similar label1 label2 = are_labels_similar label2 label1
  /\ are_labels_similar label1 (PyStr.lower label1) = true.
Proof.
  split; [apply similar_swap|].
  apply similar_same_normal_form. unfold normalize_label.
  now rewrite lower_idempotent.
Qed.

(** ** The normalised label *)

Lemma append_not_empty s t : t <> EmptyString -> (s ++ t)%string <> EmptyString.
Proof. destruct s; simpl; [auto | discriminate]. Qed.

Lemma finish_label_not_empty n s : finish_label n s <> EmptyString.
Proof.
  unfold finish_label.
  destruct (25 <? String.length _)%nat; [apply append_not_empty; discriminate|].
  destruct (String.eqb_spec s EmptyString); [|assumption].
  apply append_not_empty, of_nat_not_empty.
Qed.

Lemma finish_label_length n s : (String.length (finish_label n s) <= 25)%nat.
Proof.
  unfold finish_label.
  destruct (25 <? String.length _)%nat eqn:E.
  - rewrite length_append, length_take. cbn [String.length]. lia.
  - now apply Nat.ltb_ge in E.
Qed.

(** X2: a normalised label is never empty, and for a non-empty raw label it
    has at most 25 characters. *)
Theorem clean_node_label_bounds (node_counter : nat) (label : string) :
  label <> EmptyString ->
  clean_node_label node_counter label <> EmptyString
  /\ (String.length (clean_node_label node_counter label) <= 25)%nat.
Proof.
  intros Hne. unfold clean_node_label.
  destruct (String.eqb_spec label EmptyString); [contradiction|].
  split; [apply finish_label_not_empty | apply finish_label_length].
Qed.

Lemma clean_node_label_bounds_witness :
  clean_node_label 3 "std::vector<int>::push_back" <> EmptyString
  /\ (String.length (clean_node_label 3 "std::vector<int>::push_back") <= 25)%nat.
Proof. apply clean_node_label_bounds. discriminate. Defined.

Section CleanedCharacters.

Lemma chars_append s t : chars (s ++ t) = (chars s ++ chars t)%list.
Proof. unfold chars. induction s; simpl; [reflexivity | now f_equal]. Qed.

(** A replacement only brings in characters of the replacement text *)
Lemma replace_from_chars old new k s c :
  In c (chars (PyStr.replace_from old new k s)) -> In c (chars new) \/ In c (chars s).
Proof.
  revert k. induction s as [|a s IH]; intros k; [intros []|].
  cbn [PyStr.replace_from]. destruct k as [|k].
  - destruct (prefix old (String a s)).
    + rewrite chars_append, in_app_iff. intros [H | H]; [now left|].
      apply IH in H as [H | H]; [now left | right; now right].
    + intros [<- | H]; [right; now left|].
      apply IH in H as [H | H]; [now left | right; now right].
  - intros H. apply IH in H as [H | H]; [now left | right; now right].
Qed.

Lemma replace_chars old new s c :
  old <> EmptyString ->
  In c (chars (PyStr.replace old new s)) -> In c (chars new) \/ In c (chars s).
Proof.
  intros Hold. unfold PyStr.replace. destruct old; [congruence|].
  apply replace_from_chars.
Qed.

Lemma replace_dot_no_dot s c :
  In c (chars (PyStr.replace "." "_" s)) -> c <> "."%char.
Proof.
  unfold PyStr.replace. induction s as [|a s IH]; [intros []|].
  cbn [PyStr.replace_from prefix].
  destruct (ascii_dec "." a) as [<- | Hne].
  - replace (prefix "" s) with true by (now destruct s).
    cbn [String.length Nat.sub]. intros [<- | H]; [discriminate | auto].
  - intros [<- | H]; [congruence | auto].
Qed.

Lemma delete_invalid_chars s c :
  In c (chars (Re.delete_invalid s)) ->
  PyStr.char_in c Re.invalid_chars = false /\ In c (chars s).
Proof.
  induction s as [|a s IH]; [intros []|]. cbn [Re.delete_invalid].
  destruct (PyStr.char_in a Re.invalid_chars) eqn:E.
  - intros H. apply IH in H as [H1 H2]. split; [assumption | now right].
  - intros [<- | H]; [split; [assumption | now left]|].
    apply IH in H as [H1 H2]. split; [assumption | now right].
Qed.

Lemma collapse_underscores_chars in_run s c :
  In c (chars (Re.collapse_underscores in_run s)) -> In c (chars s).
Proof.
  revert in_run. induction s as [|a s IH]; intros in_run; [intros []|].
  cbn [Re.collapse_underscores].
  destruct (Ascii.eqb a "_"); [destruct in_run|].
  - intros H. right. eapply IH, H.
  - intros [<- | H]; [now left | right; eapply IH, H].
  - intros [<- | H]; [now left | right; eapply IH, H].
Qed.

Lemma lstrip_chars set s c : In c (chars (PyStr.lstrip set s)) -> In c (chars s).
Proof.
  induction s as [|a s IH]; [intros []|]. cbn [PyStr.lstrip].
  destruct (PyStr.char_in a set); [intros H; right; auto | auto].
Qed.

Lemma rstrip_chars set s c : In c (chars (PyStr.rstrip set s)) -> In c (chars s).
Proof.
  induction s as [|a s IH]; [intros []|]. cbn [PyStr.rstrip].
  destruct (PyStr.rstrip set s) as [|b r] eqn:E.
  - destruct (PyStr.char_in a set); [intros [] | intros [<- | []]; now left].
  - intros [<- | H]; [now left | right; auto].
Qed.

Lemma strip_chars set s c : In c (chars (PyStr.strip set s)) -> In c (chars s).
Proof.
  unfold PyStr.strip. intros H. now apply rstrip_chars, lstrip_chars in H.
Qed.

Lemma collapse_underscores_first in_run s :
  in_run = true ->
  first_char (Re.collapse_underscores in_run s) <> Some underscore.
Proof.
  intros ->. induction s as [|a s IH]; [discriminate|].
  cbn [Re.collapse_underscores].
  destruct (Ascii.eqb_spec a "_"); [assumption|].
  simpl. intros [= ->]. contradiction.
Qed.

Lemma collapse_underscores_no_double in_run s :
  no_double_underscore (Re.collapse_underscores in_run s).
Proof.
  revert in_run. induction s as [|a s IH]; intros in_run; [exact I|].
  cbn [Re.collapse_underscores].
  destruct (Ascii.eqb_spec a "_") as [-> | Hne].
  - destruct in_run; [apply IH|]. split; [|apply IH].
    intros _. now apply collapse_underscores_first.
  - split; [|apply IH]. intros ->. contradiction.
Qed.

Lemma lstrip_no_double set s :
  no_double_underscore s -> no_double_underscore (PyStr.lstrip set s).
Proof.
  induction s as [|a s IH]; [auto|]. cbn [PyStr.lstrip].
  destruct (PyStr.char_in a set); [intros [_ H]; auto | auto].
Qed.

Lemma rstrip_first set s :
  first_char (PyStr.rstrip set s) = None
  \/ first_char (PyStr.rstrip set s) = first_char s.
Proof.
  destruct s as [|a s]; [now left|]. cbn [PyStr.rstrip].
  destruct (PyStr.rstrip set s); [destruct (PyStr.char_in a set)|]; simpl; auto.
Qed.

Lemma rstrip_no_double set s :
  no_double_underscore s -> no_double_underscore (PyStr.rstrip set s).
Proof.
  induction s as [|a s IH]; [auto|]. intros [Ha Hs]. cbn [PyStr.rstrip].
  destruct (PyStr.rstrip set s) as [|b r] eqn:E.
  - destruct (PyStr.char_in a set); simpl; auto. split; [discriminate | exact I].
  - split; [|auto].
    intros Hu. rewrite <- E.
    destruct (rstrip_first set s) as [H | H]; rewrite H;
      [discriminate | auto].
Qed.

Lemma lstrip_first set s c :
  first_char (PyStr.lstrip set s) = Some c -> PyStr.char_in c set = false.
Proof.
  induction s as [|a s IH]; [discriminate|]. cbn [PyStr.lstrip].
  destruct (PyStr.char_in a set) eqn:E; [assumption|].
  simpl. now intros [= <-].
Qed.

Lemma rstrip_last set s c :
  last_char (PyStr.rstrip set s) = Some c -> PyStr.char_in c set = false.
Proof.
  induction s as [|a s IH]; [discriminate|]. cbn [PyStr.rstrip].
  destruct (PyStr.rstrip set s) as [|b r] eqn:E.
  - destruct (PyStr.char_in a set) eqn:Ea; [discriminate|].
    simpl. now intros [= <-].
  - intros H. apply IH. exact H.
Qed.

(** X3: the cleaned form of a label holds none of the characters that line
    94 deletes and no dot; it neither begins nor ends with an underscore, and
    no two underscores stand side by side. *)
Theorem cleaned_form_characters (label : string) :
  (forall c, In c (chars (cleaned_form label)) ->
     PyStr.char_in c Re.invalid_chars = false /\ c <> "."%char)
  /\ first_char (cleaned_form label) <> Some underscore
  /\ last_char (cleaned_form label) <> Some underscore
  /\ no_double_underscore (cleaned_form label).
Proof.
  unfold cleaned_form.
  set (s0 := Re.sub_delete Re.match_extension _).
  set (s1 := PyStr.replace "." "_" (PyStr.replace "::" "_" s0)).
  set (s2 := PyStr.replace "->" "_" s1).
  set (s3 := Re.collapse_underscores false (Re.delete_invalid s2)).
  repeat split.
  - apply strip_chars, collapse_underscores_chars, delete_invalid_chars in H.
    apply H.
  - apply strip_chars, collapse_underscores_chars, delete_invalid_chars in H
      as [_ H].
    apply replace_chars in H; [|discriminate].
    destruct H as [[<- | []] | H]; [discriminate|].
    now apply replace_dot_no_dot in H.
  - intros H. unfold PyStr.strip in H.
    destruct (rstrip_first "_" (PyStr.lstrip "_" s3)) as [E | E];
      rewrite E in H; [discriminate|].
    apply lstrip_first in H. discriminate.
  - intros H. apply rstrip_last in H. discriminate.
  - apply rstrip_no_double, lstrip_no_double, collapse_underscores_no_double.
Qed.
End CleanedCharacters.

(** ** What ingestion keeps true *)

Lemma to_uint_not_nil n : Nat.to_uint n <> Decimal.Nil.
Proof.
  rewrite <- (DecimalNat.Unsigned.of_to n) at 1.
  rewrite DecimalNat.Unsigned.to_of. apply DecimalFacts.unorm_nonnil.
Qed.

Lemma of_nat_inj a b : PyStr.of_nat a = PyStr.of_nat b -> a = b.
Proof.
  unfold PyStr.of_nat. intros H.
  apply DecimalNat.Unsigned.to_uint_inj.
  pose proof (NilZero.usu (Nat.to_uint a) (to_uint_not_nil a)) as Ha.
  pose proof (NilZero.usu (Nat.to_uint b) (to_uint_not_nil b)) as Hb.
  rewrite H in Ha. rewrite Ha in Hb. now injection Hb.
Qed.

Lemma node_id_inj a b : node_id a = node_id b -> a = b.
Proof. unfold node_id. intros [= H]. now apply of_nat_inj. Qed.

Lemma node_id_truthy k : truthy (node_id k) = true.
Proof. reflexivity. Qed.

Section DictMore.
Context {V : Type}.
Implicit Types (d : dict V) (k : string) (v : V).

Lemma dict_set_append d k v :
  dict_get d k = None -> dict_set d k v = (d ++ [(k, v)])%list.
Proof.
  induction d as [|[k0 v0] d IH]; simpl; [reflexivity|].
  destruct (String.eqb k0 k); [discriminate|].
  intros H. now rewrite IH.
Qed.

Lemma dict_set_In d k v k' v' :
  In (k', v') (dict_set d k v) -> (k', v') = (k, v) \/ In (k', v') d.
Proof.
  induction d as [|[k0 v0] d IH]; simpl.
  - intros [H | []]. now left.
  - destruct (String.eqb_spec k0 k) as [-> | Hne]; simpl.
    + intros [H | H]; auto.
    + intros [H | H]; auto. apply IH in H as [H | H]; auto.
Qed.

Lemma dict_In_has d k v : In (k, v) d -> dict_has d k = true.
Proof.
  intros H. apply dict_has_In_keys. change k with (fst (k, v)).
  now apply in_map.
Qed.

Lemma dict_get_not_in_keys d k : ~ In k (dict_keys d) -> dict_get d k = None.
Proof.
  intros H. apply dict_has_false_get.
  destruct (dict_has d k) eqn:E; [|reflexivity].
  apply dict_has_In_keys in E. contradiction.
Qed.
End DictMore.

Lemma filter_all {A : Type} (f : A -> bool) (l : list A) :
  (forall x, In x l -> f x = true) -> filter f l = l.
Proof.
  induction l as [|a l IH]; simpl; [reflexivity|]. intros H.
  rewrite (H a) by now left. f_equal. apply IH. intros x Hx. apply H. now right.
Qed.

Lemma ForallOrdPairs_snoc {A : Type} (R : A -> A -> Prop) l x :
  ForallOrdPairs R l -> Forall (fun e => R e x) l -> ForallOrdPairs R (l ++ [x]).
Proof.
  induction 1 as [|a l Ha Hl IH]; simpl; intros Hx.
  - repeat constructor.
  - inversion Hx as [|? ? Hax Hlx]; subst. constructor; [|auto].
    apply Forall_app. split; [assumption | now constructor].
Qed.

Lemma first_similar_none label items :
  first_similar label items = None ->
  Forall (fun e => are_labels_similar label (fst e) = false) items.
Proof.
  induction items as [|[l id] items IH]; simpl; [constructor|].
  destruct (are_labels_similar label l) eqn:E; [discriminate|].
  intros H. constructor; auto.
Qed.

Lemma first_similar_some label items id :
  first_similar label items = Some id -> exists l, In (l, id) items.
Proof.
  induction items as [|[l id0] items IH]; simpl; [discriminate|].
  destruct (are_labels_similar label l).
  - intros [= ->]. exists l. now left.
  - intros H. destruct (IH H) as (l' & Hl). exists l'. now right.
Qed.

Lemma find_similar_node_some c label id :
  find_similar_node c label = Some id ->
  exists l, In (l, id) (label_to_simple c).
Proof.
  unfold find_similar_node.
  destruct (dict_get (label_to_simple c) label) as [id0|] eqn:E.
  - intros [= ->]. exists label. now apply dict_get_In.
  - apply first_similar_some.
Qed.

Lemma find_similar_node_none c label :
  find_similar_node c label = None ->
  dict_get (label_to_simple c) label = None
  /\ Forall (fun e => are_labels_similar label (fst e) = false) (label_to_simple c).
Proof.
  unfold find_similar_node.
  destruct (dict_get (label_to_simple c) label); [discriminate|].
  intros H. split; [reflexivity | now apply first_similar_none].
Qed.

Section IngestInvariant.

Lemma known_id c l id :
  ingest_invariant c -> In (l, id) (label_to_simple c) ->
  dict_has (simple_to_label c) id = true /\ truthy id = true.
Proof.
  intros Hinv Hin.
  assert (Hs : In (id, l) (simple_to_label c)).
  { rewrite (labels_inverse c Hinv). apply in_map_iff. exists (l, id). auto. }
  split; [now apply dict_In_has with l|].
  assert (Hk : In id (dict_keys (simple_to_label c))).
  { change id with (fst (id, l)). now apply in_map. }
  rewrite (ids_sequential c Hinv) in Hk.
  apply in_map_iff in Hk as (k & <- & _). apply node_id_truthy.
Qed.

Lemma fresh_id c :
  ingest_invariant c -> dict_get (simple_to_label c) (node_id (node_counter c)) = None.
Proof.
  intros Hinv. apply dict_get_not_in_keys.
  rewrite (ids_sequential c Hinv). intros H.
  apply in_map_iff in H as (k & E & Hk). apply node_id_inj in E. subst k.
  apply in_seq in Hk. pose proof (counter_positive c Hinv). lia.
Qed.

Lemma mint_node_invariant basename c label :
  ingest_invariant c ->
  find_similar_node c label = None ->
  ingest_invariant (fst (mint_node basename c label))
  /\ dict_has (simple_to_label (fst (mint_node basename c label)))
              (snd (mint_node basename c label)) = true
  /\ forall id, dict_has (simple_to_label c) id = true ->
       dict_has (simple_to_label (fst (mint_node basename c label))) id = true.
Proof.
  intros Hinv Hnone.
  apply find_similar_node_none in Hnone as [Hnew Hdiss].
  pose proof (fresh_id c Hinv) as Hfresh.
  pose proof (counter_positive c Hinv) as Hpos.
  unfold mint_node. fold (node_id (node_counter c)).
  cbn [fst snd simple_to_label].
  assert (Hmono : forall id, dict_has (simple_to_label c) id = true ->
            dict_has (dict_set (simple_to_label c) (node_id (node_counter c)) label)
                     id = true).
  { intros id H. now apply dict_has_set_mono. }
  split; [|split; [|exact Hmono]].
  - constructor; cbn [node_counter simple_to_label label_to_simple all_edges
                      original_to_simple file_sources].
    + lia.
    + rewrite dict_keys_set. unfold dict_has. rewrite Hfresh.
      rewrite (ids_sequential c Hinv).
      replace (S (node_counter c) - 1)%nat with (S (node_counter c - 1)) by lia.
      rewrite seq_S, map_app. simpl. do 3 f_equal. lia.
    + rewrite (dict_set_append _ _ _ Hfresh), (dict_set_append _ _ _ Hnew).
      rewrite map_app. simpl. f_equal. apply (labels_inverse c Hinv).
    + apply dict_set_NoDup, (labels_nodup c Hinv).
    + rewrite (dict_set_append _ _ _ Hnew).
      apply ForallOrdPairs_snoc; [apply (labels_dissimilar c Hinv)|].
      exact Hdiss.
    + intros k v H. apply Hmono. now apply (aliases_known c Hinv k v).
    + intros s t H. destruct (edges_known c Hinv s t H). auto.
    + intros k v H. apply dict_set_In in H as [[= -> ->] | H].
      * rewrite dict_has_set, String.eqb_refl. reflexivity.
      * apply Hmono. now apply (sources_known c Hinv k v).
  - rewrite dict_has_set, String.eqb_refl. reflexivity.
Qed.

Lemma set_alias_invariant c k id :
  ingest_invariant c -> dict_has (simple_to_label c) id = true ->
  ingest_invariant
    {| label_to_simple := label_to_simple c;
       simple_to_label := simple_to_label c;
       all_edges := all_edges c;
       node_counter := node_counter c;
       original_to_simple := dict_set (original_to_simple c) k id;
       file_sources := file_sources c |}.
Proof.
  intros [H1 H2 H3 H4 H5 H6 H7 H8] Hid. constructor; simpl; auto.
  intros k' v H. apply dict_set_In in H as [[= -> ->] | H]; eauto.
Qed.

Lemma ingest_node_invariant basename acc m :
  ingest_invariant (fst acc) ->
  ingest_invariant (fst (ingest_node basename acc m)).
Proof.
  destruct acc as [c processed]. cbn [fst]. intros Hinv. unfold ingest_node.
  destruct (PyStr.mem _ processed); [assumption|].
  destruct (negb _ || _); [assumption|].
  set (label := clean_node_label (node_counter c) (match_label m)).
  assert (Hfinish : forall (c1 : converter) (id : string),
            ingest_invariant c1 -> dict_has (simple_to_label c1) id = true ->
            ingest_invariant
              {| label_to_simple := label_to_simple c1;
                 simple_to_label := simple_to_label c1;
                 all_edges := all_edges c1;
                 node_counter := node_counter c1;
                 original_to_simple :=
                   dict_set (dict_set (original_to_simple c1)
                                      (scoped_id basename (match_original_id m)) id)
                            (match_original_id m) id;
                 file_sources := file_sources c1 |}).
  { intros c1 id H1 H2.
    apply (set_alias_invariant
             {| label_to_simple := label_to_simple c1;
                simple_to_label := simple_to_label c1;
                all_edges := all_edges c1;
                node_counter := node_counter c1;
                original_to_simple :=
                  dict_set (original_to_simple c1)
                           (scoped_id basename (match_original_id m)) id;
                file_sources := file_sources c1 |}); [|exact H2].
    now apply set_alias_invariant. }
  destruct (find_similar_node c label) as [id|] eqn:Hsim.
  - apply find_similar_node_some in Hsim as (l & Hl).
    destruct (known_id c l id Hinv Hl) as [Hknown Htruthy].
    rewrite Htruthy. cbn [fst]. now apply Hfinish.
  - destruct (mint_node_invariant basename c label Hinv Hsim) as (Hinv' & Hid & _).
    destruct (mint_node basename c label) as [c1 id1]. cbn [fst snd] in *.
    now apply Hfinish.
Qed.

Lemma resolve_known c candidates id :
  ingest_invariant c -> resolve (original_to_simple c) candidates = Some id ->
  dict_has (simple_to_label c) id = true.
Proof.
  intros Hinv. induction candidates as [|cand rest IH]; simpl; [discriminate|].
  destruct (dict_get (original_to_simple c) cand) as [id0|] eqn:E; [|exact IH].
  intros [= ->]. apply dict_get_In in E. now apply (aliases_known c Hinv cand).
Qed.

Lemma ingest_edge_invariant basename acc m :
  ingest_invariant (fst acc) ->
  ingest_invariant (fst (ingest_edge basename acc m)).
Proof.
  destruct acc as [c processed], m as [source_original target_original].
  cbn [fst]. intros Hinv. unfold ingest_edge.
  destruct (resolve _ [scoped_id basename source_original; _]) as [src|] eqn:Hs;
    [|assumption].
  destruct (resolve _ [scoped_id basename target_original; _]) as [tgt|] eqn:Ht;
    [|assumption].
  destruct (truthy src && truthy tgt && negb (String.eqb src tgt)); [|assumption].
  destruct (negb (edge_in (src, tgt) processed) && _); [|assumption].
  cbn [fst]. apply (resolve_known c _ _ Hinv) in Hs, Ht.
  destruct Hinv as [H1 H2 H3 H4 H5 H6 H7 H8]. constructor; simpl; auto.
  intros s t H. apply in_app_or in H as [H | [[= <- <-] | []]]; auto.
Qed.

Lemma ingest_nodes_invariant basename ms acc :
  ingest_invariant (fst acc) ->
  ingest_invariant (fst (fold_left (ingest_node basename) ms acc)).
Proof.
  revert acc. induction ms as [|m ms IH]; intros acc H; cbn [fold_left]; auto.
  apply IH. now apply ingest_node_invariant.
Qed.

Lemma ingest_edges_invariant basename ms acc :
  ingest_invariant (fst acc) ->
  ingest_invariant (fst (fold_left (ingest_edge basename) ms acc)).
Proof.
  revert acc. induction ms as [|m ms IH]; intros acc H; cbn [fold_left]; auto.
  apply IH. now apply ingest_edge_invariant.
Qed.

Lemma process_single_dot_file_invariant c doc :
  ingest_invariant c -> ingest_invariant (process_single_dot_file c doc).
Proof.
  intros Hinv. unfold process_single_dot_file.
  destruct (negb (readable doc)); [assumption|].
  destruct (negb (has_digraph doc)); [assumption|].
  destruct (_ || _); [assumption|].
  destruct (fold_left (ingest_node _) _ _) as [c1 p1] eqn:Hnodes.
  destruct (fold_left (ingest_edge _) _ _) as [c2 p2] eqn:Hedges.
  change c2 with (fst (c2, p2)). rewrite <- Hedges.
  apply ingest_edges_invariant. cbn [fst].
  change c1 with (fst (c1, p1)). rewrite <- Hnodes.
  now apply ingest_nodes_invariant.
Qed.

Lemma new_converter_invariant : ingest_invariant new_converter.
Proof.
  constructor; simpl; auto; try (intros ? ? []); constructor.
Qed.

Lemma ingest_documents_invariant docs : ingest_invariant (ingest_documents docs).
Proof.
  unfold ingest_documents. generalize new_converter_invariant.
  generalize new_converter as c.
  induction docs as [|doc docs IH]; intros c H; cbn [fold_left]; auto.
  apply IH. now apply process_single_dot_file_invariant.
Qed.

(** After the documents the final pass finds nothing to remove *)
Lemma final_pass_identity docs : ingest_all docs = ingest_documents docs.
Proof.
  unfold ingest_all. fold (ingest_documents docs).
  pose proof (ingest_documents_invariant docs) as Hinv.
  assert (Hok : edges_ok (all_edges (ingest_documents docs))).
  { apply process_all_ok. split; [constructor | intros e []]. }
  destruct Hok as [Hnd _].
  unfold final_deduplication_pass.
  rewrite (unique_edges_from_NoDup [] _ Hnd) by (intros e _ []).
  rewrite (filter_all _ (original_to_simple _)).
  2:{ intros [k v] H. now apply (aliases_known _ Hinv k v). }
  rewrite (filter_all _ (file_sources _)).
  2:{ intros [k v] H. now apply (sources_known _ Hinv k v). }
  now destruct (ingest_documents docs).
Qed.

Lemma ingest_all_invariant docs : ingest_invariant (ingest_all docs).
Proof. rewrite final_pass_identity. apply ingest_documents_invariant. Qed.
End IngestInvariant.

Lemma NoDup_map_injective {A B : Type} (f : A -> B) (l : list A) :
  (forall x y, f x = f y -> x = y) -> NoDup l -> NoDup (map f l).
Proof.
  intros Hinj. induction 1 as [|a l Ha Hl IH]; simpl; constructor; auto.
  intros H. apply in_map_iff in H as (x & E & Hx). apply Hinj in E. now subst.
Qed.

(** X4: after ingestion the nodes are numbered without gaps, "node-1" up to
    "node-n" in the order they were minted, the counter is n + 1, and the
    two tables label -> id and id -> label are inverse to each other. *)
Theorem ingested_nodes_numbered (docs : list document) :
  let c := ingest_all docs in
  dict_keys (simple_to_label c)
  = map node_id (seq 1 (List.length (simple_to_label c)))
  /\ node_counter c = S (List.length (simple_to_label c))
  /\ forall id label,
       dict_get (simple_to_label c) id = Some label
       <-> dict_get (label_to_simple c) label = Some id.
Proof.
  intros c. pose proof (ingest_all_invariant docs) as Hinv. fold c in Hinv.
  pose proof (counter_positive c Hinv) as Hpos.
  pose proof (ids_sequential c Hinv) as Hids.
  assert (Hlen : List.length (simple_to_label c) = (node_counter c - 1)%nat).
  { rewrite <- (length_map fst (simple_to_label c)).
    fold (dict_keys (simple_to_label c)).
    now rewrite Hids, length_map, length_seq. }
  rewrite Hlen. split; [exact Hids|]. split; [lia|].
  assert (Hnd : NoDup (dict_keys (simple_to_label c))).
  { rewrite Hids. apply NoDup_map_injective; [apply node_id_inj | apply seq_NoDup]. }
  intros id label. split; intros H.
  - apply dict_get_In in H. rewrite (labels_inverse c Hinv) in H.
    apply in_map_iff in H as ([l i] & [= <- <-] & H).
    now apply dict_In_get; [apply (labels_nodup c Hinv)|].
  - apply dict_get_In in H. apply dict_In_get; [exact Hnd|].
    rewrite (labels_inverse c Hinv). apply in_map_iff. exists (label, id). auto.
Qed.

(** X5: the labels of two different nodes are never similar (in either
    order of comparison), whatever the documents and their order. *)
Theorem ingested_labels_dissimilar (docs : list document)
    (id1 id2 label1 label2 : string) :
  dict_get (simple_to_label (ingest_all docs)) id1 = Some label1 ->
  dict_get (simple_to_label (ingest_all docs)) id2 = Some label2 ->
  id1 <> id2 ->
  are_labels_similar label1 label2 = false.
Proof.
  intros H1 H2 Hne.
  pose proof (ingest_all_invariant docs) as Hinv.
  apply dict_get_In in H1, H2.
  rewrite (labels_inverse _ Hinv) in H1, H2.
  apply in_map_iff in H1 as ([l1 i1] & [= <- <-] & H1).
  apply in_map_iff in H2 as ([l2 i2] & [= <- <-] & H2).
  destruct (ForallOrdPairs_In (labels_dissimilar _ Hinv) _ _ H1 H2)
    as [E | [H | H]].
  - injection E as -> ->. contradiction.
  - simpl in H. now rewrite similar_swap.
  - exact H.
Qed.

Lemma ingested_labels_dissimilar_witness :
  are_labels_similar "main" "init_config" = false.
Proof.
  apply (ingested_labels_dissimilar [first_document; second_document]
                                    "node-1" "node-2").
  - reflexivity.
  - reflexivity.
  - discriminate.
Defined.

(** X6: every edge of the final edge list joins two nodes of the final
    node table, and every alias of a raw identifier points to such a node. *)
Theorem ingested_edges_join_nodes (docs : list document) :
  let c := ingest_all docs in
  (forall source target, In (source, target) (all_edges c) ->
     dict_has (simple_to_label c) source = true
     /\ dict_has (simple_to_label c) target = true)
  /\ (forall raw id, dict_get (original_to_simple c) raw = Some id ->
        dict_has (simple_to_label c) id = true).
Proof.
  intros c. pose proof (ingest_all_invariant docs) as Hinv. fold c in Hinv.
  split.
  - intros s t H. now apply (edges_known c Hinv).
  - intros raw id H. apply dict_get_In in H. now apply (aliases_known c Hinv raw).
Qed.

Lemma unique_edges_from_idempotent l :
  unique_edges_from [] (unique_edges_from [] l) = unique_edges_from [] l.
Proof.
  destruct (unique_edges_from_spec [] l) as [Hnd _].
  apply unique_edges_from_NoDup; [assumption | intros e _ []].
Qed.

Lemma filter_idempotent {A : Type} (f : A -> bool) (l : list A) :
  filter f (filter f l) = filter f l.
Proof.
  apply filter_all. intros x Hx. now apply filter_In in Hx.
Qed.

(** X7: the final pass is idempotent on every converter, and after the
    documents have been ingested it changes nothing at all: no edge and no
    alias is left for it to remove. *)
Theorem final_pass_idempotent_and_silent (c : converter) (docs : list document) :
  final_deduplication_pass (final_deduplication_pass c)
  = final_deduplication_pass c
  /\ final_deduplication_pass (ingest_documents docs) = ingest_documents docs.
Proof.
  split.
  - unfold final_deduplication_pass. cbn [simple_to_label all_edges
      original_to_simple file_sources label_to_simple node_counter].
    now rewrite unique_edges_from_idempotent, !filter_idempotent.
  - apply final_pass_identity.
Qed.

(** ** Roots *)

(** X8: when there is a connected node at all, root selection returns at
    least one root, and every root is a connected node. *)
Theorem roots_exist_among_connected (connected : dict string)
    (inc out : adjacency) :
  connected <> [] ->
  select_roots connected inc out <> []
  /\ incl (select_roots connected inc out) (dict_keys connected).
Proof.
  intros Hne. split; [|apply select_roots_connected].
  unfold select_roots.
  destruct (filter _ (dict_keys connected)) as [|r rs]; [|discriminate].
  rewrite synthetic_roots_nonempty by assumption.
  intros Hnil. apply (f_equal (@List.length string)) in Hnil.
  rewrite length_map, length_firstn in Hnil.
  unfold sort_descending in Hnil. rewrite stable_sort_length, length_map in Hnil.
  assert (0 < List.length connected)%nat
    by (destruct connected; [congruence | simpl; lia]).
  assert (1 <= max_roots (lenZ connected)) by (unfold max_roots; lia).
  simpl in Hnil. lia.
Qed.

Lemma roots_exist_among_connected_witness :
  select_roots (layout_connected ring_nodes ring_edges)
               (incoming ring_nodes ring_edges)
               (outgoing ring_nodes ring_edges) <> []
  /\ incl (select_roots (layout_connected ring_nodes ring_edges)
                        (incoming ring_nodes ring_edges)
                        (outgoing ring_nodes ring_edges))
          (dict_keys (layout_connected ring_nodes ring_edges)).
Proof. apply roots_exist_among_connected. vm_compute. discriminate. Defined.

(** ** Classification ranges *)

Lemma first_group_range {A : Type} (P : A -> Prop)
    (table : list (list string * A)) (default : A) (label : string) :
  Forall (fun e => P (snd e)) table -> P default ->
  P (first_group table default label).
Proof.
  induction 1 as [|[keywords v] table Hv Ht IH]; simpl; intros Hd; auto.
  destruct (PyStr.any_in keywords label); auto.
Qed.

Lemma base_priority_range label :
  0 <= first_group priority_table 0 label <= 100.
Proof.
  apply first_group_range; [|lia].
  unfold priority_table. repeat constructor; simpl; lia.
Qed.

(** X9: for non-negative degree counts the execution priority lies between
    0 and 130 and never falls when a degree grows; the category order lies
    between 1 and 15. *)
Theorem classification_ranges (label : string) (out_count in_count out' in' : Z) :
  0 <= out_count <= out' -> 0 <= in_count <= in' ->
  0 <= get_execution_priority label out_count in_count <= 130
  /\ get_execution_priority label out_count in_count
     <= get_execution_priority label out' in'
  /\ 1 <= get_function_category_order label <= 15.
Proof.
  intros Hout Hin. unfold get_execution_priority, get_function_category_order.
  pose proof (base_priority_range (PyStr.lower label)) as Hbase.
  repeat split; try lia.
  - apply first_group_range; [|lia].
    unfold category_table. repeat constructor; simpl; lia.
  - apply first_group_range; [|lia].
    unfold category_table. repeat constructor; simpl; lia.
Qed.

Lemma classification_ranges_witness :
  0 <= get_execution_priority "main_loop" 3 1 <= 130
  /\ get_execution_priority "main_loop" 3 1 <= get_execution_priority "main_loop" 12 4
  /\ 1 <= get_function_category_order "main_loop" <= 15.
Proof. apply classification_ranges; lia. Defined.

(** ** Box sizes *)

Lemma font_size_values label isolated :
  get_node_font_size label isolated = 10
  \/ get_node_font_size label isolated = 11
  \/ get_node_font_size label isolated = 12.
Proof.
  unfold get_node_font_size. destruct isolated; [now left|].
  apply (first_group_range (fun v => v = 10 \/ v = 11 \/ v = 12)).
  - unfold font_table. repeat (apply Forall_cons || apply Forall_nil);
      cbn [snd]; tauto.
  - tauto.
Qed.

(** X10: the box of a node, sized with the font of its label, is between
    100 and 300 wide and between 50 and 100 high, or 90 to 290 by 45 to 95
    for an isolated node; for a label of at most 25 characters, which is
    what normalisation produces, the text never wraps and the box is exactly
    50 high (45 for an isolated node). *)
Theorem node_box_bounds (label : string) (isolated : bool) :
  let size := calculate_node_size label (get_node_font_size label isolated)
                                  isolated in
  (if isolated
   then 90 <= fst size <= 290 /\ 45 <= snd size <= 95
   else 100 <= fst size <= 300 /\ 50 <= snd size <= 100)
  /\ ((String.length label <= 25)%nat ->
      snd size = if isolated then 45 else 50).
Proof.
  intros size. subst size. unfold calculate_node_size. cbn [fst snd].
  set (font := get_node_font_size label isolated).
  assert (Hfont : font = 10 \/ font = 11 \/ font = 12)
    by apply font_size_values.
  assert (Hcw : 12 <= char_width2 font <= 14).
  { destruct Hfont as [-> | [-> | ->]]; vm_compute; split; discriminate. }
  set (tw := Z.of_nat (String.length label) * char_width2 font) in *.
  set (lines := Z.max 1 (tw / (2 * (300 - 20)) + 1)).
  generalize (lines * (font + 4)) as product. intros product.
  split.
  - destruct isolated; destruct (2 * (300 - 20) <? tw);
      (split; [split; [apply Z.div_le_lower_bound | apply Z.div_le_upper_bound]|]);
      lia.
  - intros Hlen.
    assert (Htw : tw <= 2 * (300 - 20)) by (unfold tw; nia).
    replace (2 * (300 - 20) <? tw) with false by (symmetry; apply Z.ltb_ge; lia).
    destruct isolated; lia.
Qed.

Lemma node_box_bounds_witness :
  snd (calculate_node_size "process_data"
         (get_node_font_size "process_data" false) false) = 50.
Proof.
  apply (node_box_bounds "process_data" false). simpl. lia.
Defined.

(** ** The error loop *)

Section ErrorPull.
Variables (inc : adjacency) (target : Z).

Let can_lower (levels : dict Z) (node : string) : Prop :=
  target + 1 < level_of levels node
  /\ forall parent, In parent (inc node) -> level_of levels parent < target.

Lemma pull_error_other levels node m :
  m <> node -> level_of (pull_error inc target levels node) m = level_of levels m.
Proof.
  intros Hne. unfold pull_error.
  destruct (_ <? _); [|reflexivity].
  destruct (forallb _ _); [|reflexivity].
  rewrite level_of_set.
  destruct (String.eqb_spec node m); [congruence | reflexivity].
Qed.

Lemma pull_error_cases levels node :
  (can_lower levels node
   /\ level_of (pull_error inc target levels node) node = target)
  \/ (~ can_lower levels node /\ pull_error inc target levels node = levels).
Proof.
  unfold pull_error.
  destruct (Z.ltb_spec (target + 1) (level_of levels node)) as [Hlt | Hge].
  - destruct (forallb (fun p => level_of levels p <? target) (inc node)) eqn:Hall.
    + left. split.
      * split; [assumption|]. intros p Hp.
        rewrite forallb_forall in Hall. now apply Z.ltb_lt, Hall.
      * now rewrite level_of_set, String.eqb_refl.
    + right. split; [|reflexivity]. intros [_ Hp].
      assert (forallb (fun p => level_of levels p <? target) (inc node) = true);
        [|congruence].
      apply forallb_forall. intros p Hin. apply Z.ltb_lt. auto.
  - right. split; [|reflexivity]. intros [Hlt _]. lia.
Qed.

(** One iteration leaves a level as it is or lowers it onto the target *)
Lemma pull_error_values levels node m :
  level_of (pull_error inc target levels node) m = level_of levels m
  \/ (level_of (pull_error inc target levels node) m = target
      /\ target + 1 < level_of levels m).
Proof.
  destruct (string_dec m node) as [-> | Hne].
  - destruct (pull_error_cases levels node) as [[[Hlt _] E] | [_ ->]]; auto.
  - left. now apply pull_error_other.
Qed.

Lemma pull_errors_values l levels m :
  let levels' := fold_left (pull_error inc target) l levels in
  level_of levels' m = level_of levels m
  \/ (level_of levels' m = target /\ target + 1 < level_of levels m).
Proof.
  revert levels. induction l as [|n l IH]; intros levels; simpl; [now left|].
  destruct (IH (pull_error inc target levels n)) as [E | [E Hlt]];
    destruct (pull_error_values levels n m) as [E' | [E' Hlt']];
    rewrite E; rewrite ?E'; auto; right; split; [reflexivity | lia].
Qed.

(** A level at most one above the target is never changed *)
Lemma pull_errors_low l levels m :
  level_of levels m <= target + 1 ->
  level_of (fold_left (pull_error inc target) l levels) m = level_of levels m.
Proof.
  intros Hlow.
  destruct (pull_errors_values l levels m) as [E | [_ Hlt]]; [exact E | lia].
Qed.

Lemma pull_errors_changed l levels m :
  let levels' := fold_left (pull_error inc target) l levels in
  level_of levels' m <> level_of levels m ->
  In m l /\ target + 1 < level_of levels m /\ level_of levels' m = target
  /\ forall parent, In parent (inc m) ->
       level_of levels parent < target
       /\ level_of levels' parent = level_of levels parent.
Proof.
  revert levels. induction l as [|n l IH]; intros levels; simpl;
    [congruence|].
  intros Hchanged.
  set (mid := pull_error inc target levels n) in *.
  assert (Hparents : forall p, level_of levels p < target ->
            level_of (fold_left (pull_error inc target) l mid) p
            = level_of levels p).
  { intros p Hp.
    apply (pull_errors_low (n :: l) levels p). lia. }
  destruct (Z.eq_dec (level_of mid m) (level_of levels m)) as [Hsame | Hdiff].
  - rewrite <- Hsame in Hchanged.
    destruct (IH mid Hchanged) as (Hin & Hlt & Hb & Hp).
    split; [now right|]. split; [lia|]. split; [assumption|].
    intros p Hpin. destruct (Hp p Hpin) as [Hplt Hpeq].
    assert (level_of levels p < target).
    { destruct (pull_error_values levels n p) as [E | [E _]];
        fold mid in E; lia. }
    auto.
  - destruct (string_dec m n) as [-> | Hne];
      [|subst mid; rewrite pull_error_other in Hdiff by assumption; congruence].
    destruct (pull_error_cases levels n) as [[[Hlt Hp] Hb] | [_ Heq]];
      [|subst mid; rewrite Heq in Hdiff; congruence].
    fold mid in Hb.
    split; [now left|]. split; [assumption|]. split.
    + rewrite pull_errors_low; [assumption | lia].
    + intros p Hpin. split; auto.
Qed.

Lemma pull_errors_applied l levels m :
  let levels' := fold_left (pull_error inc target) l levels in
  In m l -> target + 1 < level_of levels m ->
  (forall parent, In parent (inc m) -> level_of levels parent < target) ->
  level_of levels' m = target.
Proof.
  revert levels. induction l as [|n l IH]; intros levels; simpl; [tauto|].
  set (mid := pull_error inc target levels n).
  intros Hin Hlt Hparents.
  destruct (string_dec n m) as [-> | Hne].
  - destruct (pull_error_cases levels m) as [[_ Hb] | [Hno _]].
    + fold mid in Hb. rewrite pull_errors_low; [assumption | lia].
    + exfalso. apply Hno. split; assumption.
  - destruct Hin as [-> | Hin]; [congruence|].
    apply IH; auto.
    + subst mid. rewrite pull_error_other; auto.
    + intros p Hp. specialize (Hparents p Hp).
      destruct (pull_error_values levels n p) as [E | [_ E]];
        fold mid in E; lia.
Qed.
End ErrorPull.

(** X11: the error loop pulls towards the level max(2, lowest entry level
    + 2) and only ever lowers a level.  A node whose level the loop changes
    is an error-role node that stood more than one level below the target
    row, ends exactly on the target, and all its direct predecessors stand
    strictly above it, before and after the loop; and an error-role node
    more than one level below the target whose direct predecessors all
    stand above the target is pulled. *)
Theorem error_rebalancing (levels : dict Z) (connected : dict string)
    (inc : adjacency) :
  let lowest_entry :=
    min_list 0 (map (level_of levels) (function_group_nodes connected Entry)) in
  let target := Z.max 2 (lowest_entry + 2) in
  let levels' := refine_errors levels connected inc in
  (forall node, level_of levels' node <= level_of levels node)
  /\ (forall node,
        level_of levels' node <> level_of levels node ->
        In node (function_group_nodes connected Error)
        /\ target + 1 < level_of levels node
        /\ level_of levels' node = target
        /\ forall parent, In parent (inc node) ->
             level_of levels parent < target
             /\ level_of levels' parent = level_of levels parent)
  /\ (forall node,
        In node (function_group_nodes connected Error) ->
        target + 1 < level_of levels node ->
        (forall parent, In parent (inc node) -> level_of levels parent < target) ->
        level_of levels' node = target).
Proof.
  intros lowest_entry target levels'. subst levels'. unfold refine_errors.
  fold lowest_entry. fold target.
  destruct (function_group_nodes connected Error) as [|e es] eqn:E.
  - split; [intros; lia|]. split; [congruence | intros node []].
  - split; [|split].
    + intros node.
      destruct (pull_errors_values inc target (e :: es) levels node)
        as [H | [H Hlt]]; cbv zeta in H; lia.
    + intros node Hchanged.
      apply (pull_errors_changed inc target (e :: es) levels node Hchanged).
    + intros node Hin Hlt Hp.
      now apply (pull_errors_applied inc target (e :: es) levels node).
Qed.

Lemma error_rebalancing_witness :
  level_of (refine_errors [("node-1", 0); ("node-2", 1); ("node-3", 5)]
              [("node-1", "main"); ("node-2", "step"); ("node-3", "error_exit")]
              (fun n => if String.eqb n "node-3" then ["node-1"] else []))
           "node-3" = 2.
Proof.
  destruct (error_rebalancing
              [("node-1", 0); ("node-2", 1); ("node-3", 5)]
              [("node-1", "main"); ("node-2", "step"); ("node-3", "error_exit")]
              (fun n => if String.eqb n "node-3" then ["node-1"] else []))
    as (_ & _ & Happlied).
  apply (Happlied "node-3").
  - vm_compute. auto.
  - vm_compute. reflexivity.
  - intros parent Hp. vm_compute in Hp. destruct Hp as [<- | []].
    vm_compute. reflexivity.
Defined.

(** ** The error loop after the first pass *)

Lemma adjacency_dual nodes edges u v :
  In v (outgoing nodes edges u) <-> In u (incoming nodes edges v).
Proof.
  unfold outgoing, incoming. rewrite !in_map_iff. split.
  - intros ([s t] & <- & H). apply filter_In in H as [H E].
    simpl in E. apply String.eqb_eq in E. subst s.
    exists (u, t). split; [reflexivity|].
    apply filter_In. split; [assumption | apply String.eqb_refl].
  - intros ([s t] & <- & H). apply filter_In in H as [H E].
    simpl in E. apply String.eqb_eq in E. subst t.
    exists (s, v). split; [reflexivity|].
    apply filter_In. split; [assumption | apply String.eqb_refl].
Qed.

Lemma level_of_get levels n l : dict_get levels n = Some l -> level_of levels n = l.
Proof. unfold level_of, dict_get_default. now intros ->. Qed.

Lemma level_of_positive levels n :
  0 < level_of levels n -> dict_get levels n = Some (level_of levels n).
Proof.
  unfold level_of, dict_get_default.
  destruct (dict_get levels n); [reflexivity | lia].
Qed.

(** After the first pass a node below level 0 has a direct predecessor one
    level above it, so no node more than one level below a target of 2 or
    more has all its direct predecessors above that target. *)
Lemma first_pass_error_blocked nodes edges target node :
  2 <= target ->
  pull_error (incoming nodes edges) target (first_pass_levels nodes edges) node
  = first_pass_levels nodes edges.
Proof.
  intros Htarget.
  destruct (pull_error_cases (incoming nodes edges) target
              (first_pass_levels nodes edges) node)
    as [[[Hlt Hp] _] | [_ E]]; [exfalso | exact E].
  destruct (first_pass_invariant nodes edges) as (visited & Hinv).
  assert (Hget : dict_get (first_pass_levels nodes edges) node
                 = Some (level_of (first_pass_levels nodes edges) node))
    by (apply level_of_positive; lia).
  destruct (levels_reached _ _ _ _ _ _ Hinv _ _ Hget)
    as [[_ Hzero] | (u & Hedge & Hu)]; [lia|].
  apply adjacency_dual in Hedge. apply Hp in Hedge.
  apply level_of_get in Hu. lia.
Qed.

(** X12: on the levels of the first pass the error loop moves no node: the
    levels after it are the levels of the first pass, and the second pass
    is the cleanup loop alone. *)
Theorem error_loop_idle_after_first_pass (nodes : dict string)
    (edges : list edge) :
  refine_errors (first_pass_levels nodes edges) (layout_connected nodes edges)
                (incoming nodes edges)
  = first_pass_levels nodes edges
  /\ second_pass_levels nodes edges
     = refine_cleanups (first_pass_levels nodes edges)
                       (layout_connected nodes edges) (incoming nodes edges).
Proof.
  assert (Hidle : refine_errors (first_pass_levels nodes edges)
                    (layout_connected nodes edges) (incoming nodes edges)
                  = first_pass_levels nodes edges).
  { unfold refine_errors.
    destruct (function_group_nodes _ Error) as [|e es]; [reflexivity|].
    generalize (e :: es) as errors. intros errors.
    induction errors as [|n errors IH]; [reflexivity|].
    cbn [fold_left]. rewrite first_pass_error_blocked by lia. exact IH. }
  split; [exact Hidle|].
  unfold second_pass_levels, refine_levels_by_function_type.
  fold (layout_connected nodes edges). now rewrite Hidle.
Qed.

(** ** Which nodes a crowded level gives up *)

Lemma build_groups_get (l : list (string * rank)) (g : groups) (r : rank) :
  groups_get (fold_left (fun (g0 : groups) (kv : string * rank) =>
                           groups_append g0 (snd kv) (fst kv)) l g) r
  = (groups_get g r ++ map fst (filter (fun kv => snd kv =? r) l))%list.
Proof.
  revert g. induction l as [|[m q] l IH]; intros g; cbn [fold_left].
  - simpl. now rewrite List.app_nil_r.
  - rewrite IH, groups_get_append. cbn [fst snd filter].
    destruct (Z.eqb_spec q r) as [-> | Hne]; [|reflexivity].
    cbn [map fst]. now rewrite <- List.app_assoc.
Qed.

Lemma group_population (levels : dict Z) (level : Z) :
  lenZ (groups_get (group_by_level
                      (map (fun kv => (fst kv, rank_of_level (snd kv))) levels))
                   (rank_of_level level))
  = level_population levels level.
Proof.
  unfold group_by_level, level_population, lenZ.
  rewrite build_groups_get. cbn [groups_get app]. rewrite length_map. f_equal.
  induction levels as [|[k v] levels IH]; [reflexivity|].
  cbn [map filter fst snd]. unfold rank_of_level in *.
  replace (2 * v =? 2 * level) with (v =? level).
  - destruct (v =? level); cbn [List.length]; now rewrite IH.
  - destruct (Z.eqb_spec v level), (Z.eqb_spec (2 * v) (2 * level));
      try reflexivity; lia.
Qed.

Section Crowding.
Variables (nodes : dict string) (out : adjacency).

Lemma split_level_quiet g lv level :
  (max_nodes_per_level <? lenZ (groups_get g level)) = false ->
  split_level nodes out (g, lv) level = (g, lv).
Proof. intros H. unfold split_level. now rewrite H. Qed.

Lemma split_level_crowded g lv level :
  (max_nodes_per_level <? lenZ (groups_get g level)) = true ->
  let regular :=
    filter (fun n => negb (is_important nodes out n)) (groups_get g level) in
  (forall n, dict_get (snd (split_level nodes out (g, lv) level)) n
             = if PyStr.mem n regular then Some (half_above level)
               else dict_get lv n)
  /\ (forall r, r <> level -> r <> half_above level ->
        groups_get (fst (split_level nodes out (g, lv) level)) r
        = groups_get g r).
Proof.
  intros Hc regular. unfold split_level. rewrite Hc.
  set (nodes_in_level := groups_get g level) in *.
  set (important := filter (is_important nodes out) nodes_in_level).
  assert (Hreg : filter (fun n => negb (PyStr.mem n important)) nodes_in_level
                 = regular).
  { unfold regular. apply filter_ext_in. intros n Hn. f_equal.
    destruct (is_important nodes out n) eqn:E.
    - apply mem_In, filter_In. auto.
    - apply mem_false. intros Hi. apply filter_In in Hi as [_ Hi]. congruence. }
  rewrite Hreg.
  destruct regular as [|r0 rs] eqn:Ereg; cbn [fst snd].
  - split; [reflexivity|].
    intros r Hr _. rewrite groups_get_set.
    destruct (Z.eqb_spec level r); [congruence | reflexivity].
  - split.
    + intros n. apply set_all_get.
    + intros r Hr Hh. rewrite !groups_get_set.
      destruct (Z.eqb_spec (half_above level) r); [congruence|].
      destruct (Z.eqb_spec level r); [congruence | reflexivity].
Qed.

Variable levels : dict Z.
Hypothesis levels_nodup : NoDup (dict_keys levels).

Local Abbreviation ranks0 :=
  (map (fun kv : string * Z => (fst kv, rank_of_level (snd kv))) levels).
Local Abbreviation groups0 := (group_by_level ranks0).

(** Where the loop leaves a node that started at rank [r] *)
Let settled (r : rank) (n : string) : rank :=
  if (max_nodes_per_level <? lenZ (groups_get groups0 r))
     && negb (is_important nodes out n)
  then half_above r else r.

Let pending (todo : list rank) (g : groups) (lv : dict rank) : Prop :=
  (forall r, In r todo -> groups_get g r = groups_get groups0 r)
  /\ (forall n r, dict_get ranks0 n = Some r ->
        (In r todo -> dict_get lv n = Some r)
        /\ (~ In r todo -> dict_get lv n = Some (settled r n))).

Lemma ranks0_nodup : NoDup (dict_keys ranks0).
Proof. now rewrite dict_keys_map_values. Qed.

Lemma ranks0_even n r : dict_get ranks0 n = Some r -> Z.even r = true.
Proof.
  rewrite dict_get_map_values. destruct (dict_get levels n); [|discriminate].
  intros [= <-]. unfold rank_of_level. now rewrite Z.even_mul.
Qed.

Lemma groups0_get n r :
  In n (groups_get groups0 r) <-> dict_get ranks0 n = Some r.
Proof.
  rewrite group_by_level_get. split.
  - apply dict_In_get, ranks0_nodup.
  - apply dict_get_In.
Qed.

Lemma split_level_pending level todo g lv :
  pending (level :: todo) g lv ->
  Z.even level = true -> ~ In level todo ->
  Forall (fun r => Z.even r = true) todo ->
  pending todo (fst (split_level nodes out (g, lv) level))
               (snd (split_level nodes out (g, lv) level)).
Proof.
  intros [Hg Hlv] Heven Hfresh Htodo.
  assert (Hlevel : groups_get g level = groups_get groups0 level)
    by (apply Hg; now left).
  assert (Hhalf : ~ In (half_above level) todo).
  { intros Hin. rewrite Forall_forall in Htodo. apply Htodo in Hin.
    unfold half_above in Hin. rewrite Z.even_add, Heven in Hin. discriminate. }
  destruct (max_nodes_per_level <? lenZ (groups_get g level)) eqn:Hc.
  - destruct (split_level_crowded g lv level Hc) as [Hget Hgroups].
    split.
    + intros r Hr. rewrite Hgroups; [apply Hg; now right | |];
        intros ->; contradiction.
    + intros n r Hn. rewrite Hget.
      destruct (Hlv n r Hn) as [Hin Hout].
      destruct (PyStr.mem n _) eqn:Hmem.
      * apply mem_In, filter_In in Hmem as [Hmem Himp].
        rewrite Hlevel in Hmem. apply groups0_get in Hmem.
        assert (r = level) by congruence. subst r.
        split; [contradiction|]. intros _. unfold settled.
        rewrite <- Hlevel, Hc, Himp. reflexivity.
      * apply mem_false in Hmem. split; [intros H; apply Hin; now right|].
        intros Hni. destruct (Z.eq_dec r level) as [-> | Hne].
        -- rewrite Hin by now left. f_equal. unfold settled.
           rewrite <- Hlevel, Hc.
           destruct (is_important nodes out n) eqn:Himp; [reflexivity|].
           exfalso. apply Hmem, filter_In. rewrite Himp. split; [|reflexivity].
           rewrite Hlevel. now apply groups0_get.
        -- apply Hout. intros [E | H]; [congruence | contradiction].
  - rewrite split_level_quiet by assumption. cbn [fst snd]. split.
    + intros r Hr. apply Hg. now right.
    + intros n r Hn. destruct (Hlv n r Hn) as [Hin Hout].
      split; [intros H; apply Hin; now right|].
      intros Hni. destruct (Z.eq_dec r level) as [-> | Hne].
      * rewrite Hin by now left. f_equal. unfold settled.
        now rewrite <- Hlevel, Hc.
      * apply Hout. intros [E | H]; [congruence | contradiction].
Qed.

Lemma split_levels_pending todo g lv :
  pending todo g lv ->
  NoDup todo -> Forall (fun r => Z.even r = true) todo ->
  pending [] (fst (fold_left (split_level nodes out) todo (g, lv)))
             (snd (fold_left (split_level nodes out) todo (g, lv))).
Proof.
  revert g lv. induction todo as [|level todo IH]; intros g lv Hp Hnd Heven;
    cbn [fold_left]; [assumption|].
  inversion Hnd as [|? ? Hfresh Hnd']; subst.
  inversion Heven as [|? ? Hlevel Heven']; subst.
  pose proof (split_level_pending level todo g lv Hp Hlevel Hfresh Heven')
    as Hstep.
  destruct (split_level nodes out (g, lv) level) as [g' lv'].
  now apply IH.
Qed.

(** The rank of a node when the crowded levels have been split *)
Lemma redistribute_rank n l :
  dict_get levels n = Some l ->
  dict_get (snd (redistribute nodes out levels)) n
  = Some (if crowded levels l && negb (is_important nodes out n)
          then half_above (rank_of_level l) else rank_of_level l).
Proof.
  intros Hn.
  assert (Hrank : dict_get ranks0 n = Some (rank_of_level l)).
  { rewrite dict_get_map_values, Hn. reflexivity. }
  assert (Hfinal : pending [] (fst (redistribute nodes out levels))
                              (snd (redistribute nodes out levels))).
  { unfold redistribute. apply split_levels_pending.
    - split; [reflexivity|]. intros m r Hm. split; [auto|].
      intros Hni. exfalso. apply Hni.
      unfold sorted_ranks, sort_ascending. apply stable_sort_In.
      apply groups_get_key with m. now apply groups0_get.
    - unfold sorted_ranks, sort_ascending.
      eapply Permutation_NoDup;
        [apply Permutation_sym, stable_sort_perm | apply group_by_level_keys_nodup].
    - apply Forall_forall. intros r Hr.
      unfold sorted_ranks, sort_ascending in Hr. apply stable_sort_In in Hr.
      apply group_by_level_keys in Hr. apply in_map_iff in Hr as ([m q] & <- & Hm).
      apply (ranks0_even m). apply dict_In_get; [apply ranks0_nodup | exact Hm]. }
  destruct Hfinal as [_ Hlv].
  destruct (Hlv n _ Hrank) as [_ Hsettled].
  rewrite Hsettled by (intros []).
  unfold settled, crowded. now rewrite group_population.
Qed.
End Crowding.

(** X13: when the layout is done, a connected node of level [l] stands at
    the half level below [l] exactly when more than eight nodes had level
    [l] and the node is not an important one (it has at most one outgoing
    edge and its label carries none of the keywords main, init, setup,
    create, start); every other node keeps the level [l]. *)
Theorem crowded_level_split (nodes : dict string) (edges : list edge)
    (n : string) (l : Z) :
  dict_get (assign_levels nodes edges) n = Some l ->
  dict_get (final_ranks nodes edges) n
  = Some (if crowded (assign_levels nodes edges) l
             && negb (is_important nodes (outgoing nodes edges) n)
          then half_above (rank_of_level l) else rank_of_level l).
Proof.
  intros Hn. unfold final_ranks.
  apply redistribute_rank; [apply assign_levels_nodup | exact Hn].
Qed.

Lemma crowded_level_split_witness :
  dict_get (final_ranks fan_nodes fan_edges) "node-2" = Some 2
  /\ dict_get (final_ranks fan_nodes fan_edges) "node-3" = Some 3.
Proof.
  split.
  - apply (crowded_level_split fan_nodes fan_edges "node-2" 1).
    vm_compute. reflexivity.
  - apply (crowded_level_split fan_nodes fan_edges "node-3" 1).
    vm_compute. reflexivity.
Defined.

(** ** Where the boxes stand *)

Lemma place_all_exact (place : Z -> position) l i positions n p :
  dict_get (place_all place i l positions) n = Some p ->
  (~ In n l /\ dict_get positions n = Some p)
  \/ exists j, nth_error l j = Some n /\ p = place (i + Z.of_nat j).
Proof.
  revert i positions. induction l as [|m l IH]; intros i positions; simpl.
  - intros H. left. tauto.
  - intros H. apply IH in H as [[Hni H] | (j & Hj & E)].
    + rewrite dict_get_set in H.
      destruct (String.eqb_spec m n) as [-> | Hne].
      * injection H as <-. right. exists 0%nat. split; [reflexivity|].
        f_equal. lia.
      * left. split; [|assumption]. intros [E | E]; auto.
    + right. exists (S j). split; [exact Hj|]. rewrite E. f_equal. lia.
Qed.

Section PlaceExact.
Variables (nodes : dict string) (inc out : adjacency) (g : groups).
Variables (mgw bns level_spacing : Z).

Lemma place_level_exact positions r n p :
  dict_get (place_level nodes inc out g mgw bns level_spacing positions r) n
  = Some p ->
  dict_get positions n = Some p
  \/ exists j, nth_error (level_order nodes inc out g r) j = Some n
       /\ pos_x p = slot_x (lenZ (groups_get g r)) mgw bns (Z.of_nat j)
       /\ pos_y2 p = 400 + r * level_spacing.
Proof.
  unfold place_level. intros H.
  apply place_all_exact in H as [[_ H] | (j & Hj & ->)]; [now left|].
  right. exists j. split; [exact Hj|]. split; reflexivity.
Qed.

Lemma place_levels_exact ranks positions n p :
  dict_get (fold_left (place_level nodes inc out g mgw bns level_spacing)
                      ranks positions) n = Some p ->
  dict_get positions n = Some p
  \/ exists r j, nth_error (level_order nodes inc out g r) j = Some n
       /\ pos_x p = slot_x (lenZ (groups_get g r)) mgw bns (Z.of_nat j)
       /\ pos_y2 p = 400 + r * level_spacing.
Proof.
  revert positions. induction ranks as [|r0 ranks IH]; intros positions;
    cbn [fold_left]; auto.
  intros H. apply IH in H as [H | H]; [|now right].
  apply place_level_exact in H as [H | H]; [now left | right].
  exists r0. exact H.
Qed.
End PlaceExact.

Lemma place_isolated_exact nodes isolated mgw max_w max_h positions n p :
  dict_get (place_isolated nodes isolated mgw max_w max_h positions) n = Some p ->
  (~ In n isolated /\ dict_get positions n = Some p)
  \/ exists j, nth_error (isolated_order nodes isolated) j = Some n
       /\ pos_x p = mgw + snd (isolated_columns (lenZ isolated))
                    + (Z.of_nat j mod fst (isolated_columns (lenZ isolated)))
                      * (max_w + 60)
       /\ pos_y2 p = 2 * (200 + (Z.of_nat j / fst (isolated_columns (lenZ isolated)))
                                * (max_h + 50)).
Proof.
  unfold place_isolated.
  destruct isolated as [|a l] eqn:E; [intros H; left; tauto|]. rewrite <- E.
  destruct (isolated_columns (lenZ isolated)) as [cols gap]. cbn [fst snd].
  intros H. apply place_all_exact in H as [[Hni H] | (j & Hj & ->)].
  - left. split; [|assumption]. intros Hin. apply Hni.
    now apply stable_sort_In.
  - right. exists j. split; [exact Hj|]. split; reflexivity.
Qed.

Lemma spacing_level_bounds total max_w max_h :
  220 <= fst (spacing total max_w max_h)
  /\ max_h + 150 <= fst (spacing total max_w max_h).
Proof.
  unfold spacing.
  destruct (total <=? 10); [simpl; lia|].
  destruct (total <=? 30); [simpl; lia|].
  destruct (total <=? 60); simpl; lia.
Qed.

Lemma spacing_base_upper total max_w max_h :
  max_w <= 300 -> snd (spacing total max_w max_h) <= 480.
Proof.
  intros Hw. unfold spacing.
  destruct (total <=? 10); [simpl; lia|].
  destruct (total <=? 30); [simpl; lia|].
  destruct (total <=? 60); simpl; lia.
Qed.

(** The nodes of a level stand at least the base spacing apart *)
Lemma node_spacing_bound count max_in_level bns mgw :
  1 <= count <= max_in_level -> 280 <= bns <= 600 ->
  max_in_level * bns + 600 <= mgw ->
  bns <= node_spacing_of count mgw bns.
Proof.
  intros Hcount Hbns Hmgw.
  assert (Hq : bns <= mgw / (count + 1)).
  { apply Z.div_le_lower_bound; [lia | nia]. }
  unfold node_spacing_of.
  destruct (12 <? count); [lia|].
  destruct (8 <? count); [lia|].
  destruct (4 <? count); lia.
Qed.

Lemma fold_max_upper {A : Type} (f : A -> Z) (l : list A) (m bound : Z) :
  m <= bound -> (forall x, In x l -> f x <= bound) ->
  fold_left (fun m x => Z.max m (f x)) l m <= bound.
Proof.
  revert m. induction l as [|a l IH]; intros m Hm Hall; simpl; [exact Hm|].
  apply IH.
  - specialize (Hall a (or_introl eq_refl)). lia.
  - intros x Hx. apply Hall. now right.
Qed.

Lemma calculate_node_size_height label isolated :
  45 <= snd (calculate_node_size label (get_node_font_size label isolated)
                                 isolated) <= 100.
Proof.
  unfold calculate_node_size. cbn [snd].
  set (font := get_node_font_size label isolated).
  assert (Hfont : 10 <= font <= 12).
  { destruct (font_size_values label isolated) as [H | [H | H]];
      fold font in H; lia. }
  generalize (Z.max 1 (Z.of_nat (String.length label) * char_width2 font
                       / (2 * (300 - 20)) + 1) * (font + 4)) as product.
  intros product.
  destruct isolated; destruct (_ <? _); lia.
Qed.

Lemma node_size_of_height isolated kv :
  45 <= snd (snd (node_size_of isolated kv)) <= 100.
Proof. destruct kv. apply calculate_node_size_height. Qed.

Lemma max_height_of_bound nodes isolated kv :
  In kv nodes -> snd (snd (node_size_of isolated kv)) <= max_height_of nodes isolated.
Proof.
  intros H. unfold max_height_of.
  now apply (fold_max_bounds (fun kv => snd (snd (node_size_of isolated kv)))).
Qed.

Lemma max_width_of_upper nodes isolated : max_width_of nodes isolated <= 300.
Proof.
  unfold max_width_of.
  apply (fold_max_upper (fun kv => fst (snd (node_size_of isolated kv))));
    [lia|].
  intros kv _. apply node_size_of_width.
Qed.

Lemma compute_node_sizes_box nodes isolated n w h :
  dict_get (compute_node_sizes nodes isolated) n = Some (w, h) ->
  0 <= w <= max_width_of nodes isolated
  /\ 0 <= h <= max_height_of nodes isolated /\ h <= 100.
Proof.
  intros H. unfold compute_node_sizes in H.
  apply sizes_loop_get in H as [H | (kv & Hin & E)]; [discriminate|].
  pose proof (node_size_of_width isolated kv) as Hw.
  pose proof (node_size_of_height isolated kv) as Hh.
  pose proof (max_width_of_bound nodes isolated kv Hin) as Hmw.
  pose proof (max_height_of_bound nodes isolated kv Hin) as Hmh.
  rewrite <- E in Hw, Hh, Hmw, Hmh. simpl in Hw, Hh, Hmw, Hmh. lia.
Qed.

Section BoxGeometry.
Variables (nodes : dict string) (edges : list edge).

Local Abbreviation lay := (calculate_hierarchical_layout nodes edges).
Local Abbreviation inc := (incoming nodes edges).
Local Abbreviation out := (outgoing nodes edges).

(** A node with a position is a ranked node or an isolated one *)
Lemma placed_cases n p :
  dict_get (positions lay) n = Some p ->
  (dict_has (final_ranks nodes edges) n = true
   /\ ~ In n (layout_isolated nodes edges))
  \/ In n (layout_isolated nodes edges).
Proof.
  intros H. destruct (in_dec string_dec n (layout_isolated nodes edges))
    as [Hi | Hni]; [now right | left]. split; [|assumption].
  rewrite layout_positions, place_isolated_other in H by assumption.
  unfold ranked_positions in H.
  apply place_levels_exact in H as [H | (r & j & Hj & _)]; [discriminate|].
  apply nth_error_In in Hj. unfold level_order in Hj.
  apply stable_sort_In in Hj.
  apply (group_ranked _ _ _ _ (final_ranks_invariant nodes edges)) in Hj.
  now apply dict_get_has in Hj.
Qed.

Lemma ranked_not_isolated n :
  dict_has (final_ranks nodes edges) n = true ->
  ~ In n (layout_isolated nodes edges).
Proof.
  intros Hn Hi. apply isolated_In in Hi as [_ Hi].
  apply (ranked_original _ _ _ _ (final_ranks_invariant nodes edges)) in Hn.
  apply assign_levels_keys, connected_keys in Hn as [_ Hn]. congruence.
Qed.

(** The coordinates of a ranked node *)
Lemma ranked_position n r p :
  dict_get (final_ranks nodes edges) n = Some r ->
  dict_get (positions lay) n = Some p ->
  pos_y2 p = 400 + r * layout_level_spacing nodes edges
  /\ exists j,
       nth_error (level_order nodes inc out (layout_groups nodes edges) r) j
       = Some n
       /\ pos_x p = slot_x (lenZ (groups_get (layout_groups nodes edges) r))
                           (layout_main_width nodes edges)
                           (layout_base_spacing nodes edges) (Z.of_nat j).
Proof.
  intros Hr Hp.
  rewrite layout_positions, place_isolated_other in Hp
    by (apply ranked_not_isolated; now apply dict_get_has in Hr).
  unfold ranked_positions in Hp.
  apply place_levels_exact in Hp as [Hp | (r' & j & Hj & Hx & Hy)];
    [discriminate|].
  assert (r' = r).
  { pose proof (nth_error_In _ _ Hj) as Hin. unfold level_order in Hin.
    apply stable_sort_In in Hin.
    apply (group_ranked _ _ _ _ (final_ranks_invariant nodes edges)) in Hin.
    congruence. }
  subst r'. split; [exact Hy|]. exists j. split; assumption.
Qed.

(** The coordinates of an isolated node *)
Lemma isolated_position n p :
  In n (layout_isolated nodes edges) ->
  dict_get (positions lay) n = Some p ->
  let count := lenZ (layout_isolated nodes edges) in
  exists j,
    nth_error (isolated_order nodes (layout_isolated nodes edges)) j = Some n
    /\ pos_x p = layout_main_width nodes edges + snd (isolated_columns count)
                 + (Z.of_nat j mod fst (isolated_columns count))
                   * (layout_max_width nodes edges + 60)
    /\ pos_y2 p = 2 * (200 + (Z.of_nat j / fst (isolated_columns count))
                             * (layout_max_height nodes edges + 50)).
Proof.
  intros Hi Hp count. rewrite layout_positions in Hp.
  apply place_isolated_exact in Hp as [[Hni _] | H]; [contradiction | exact H].
Qed.

Lemma layout_spacing_facts :
  280 <= layout_base_spacing nodes edges <= 600
  /\ layout_max_width nodes edges + 120 <= layout_base_spacing nodes edges
  /\ 220 <= layout_level_spacing nodes edges
  /\ layout_max_height nodes edges + 150 <= layout_level_spacing nodes edges.
Proof.
  pose proof (spacing_bounds (lenZ nodes) (layout_max_width nodes edges)
                             (layout_max_height nodes edges)) as [H1 H2].
  pose proof (spacing_level_bounds (lenZ nodes) (layout_max_width nodes edges)
                                   (layout_max_height nodes edges)) as [H3 H4].
  pose proof (spacing_base_upper (lenZ nodes) (layout_max_width nodes edges)
                (layout_max_height nodes edges)
                (max_width_of_upper nodes (layout_isolated nodes edges))) as H5.
  unfold layout_base_spacing, layout_level_spacing. lia.
Qed.

Lemma layout_box n w h :
  dict_get (node_sizes lay) n = Some (w, h) ->
  0 <= w <= layout_max_width nodes edges
  /\ 0 <= h <= layout_max_height nodes edges /\ h <= 100.
Proof. rewrite layout_node_sizes. apply compute_node_sizes_box. Qed.

(** Two nodes of one rank stand side by side, 120 apart or more; of two
    nodes of different ranks the one of the lower rank ends 25 or more above
    the other. *)
Lemma ranked_pair_apart n m rn rm p q wn hn wm hm :
  n <> m ->
  dict_get (final_ranks nodes edges) n = Some rn ->
  dict_get (final_ranks nodes edges) m = Some rm ->
  dict_get (positions lay) n = Some p ->
  dict_get (positions lay) m = Some q ->
  dict_get (node_sizes lay) n = Some (wn, hn) ->
  dict_get (node_sizes lay) m = Some (wm, hm) ->
  (rn = rm ->
     pos_y2 p = pos_y2 q
     /\ (pos_x p + wn + 120 <= pos_x q \/ pos_x q + wm + 120 <= pos_x p))
  /\ (rn < rm -> pos_y2 p + 2 * hn + 50 <= pos_y2 q).
Proof.
  intros Hne Hrn Hrm Hp Hq Hsn Hsm.
  destruct (ranked_position n rn p Hrn Hp) as (Hyn & jn & Hjn & Hxn).
  destruct (ranked_position m rm q Hrm Hq) as (Hym & jm & Hjm & Hxm).
  destruct layout_spacing_facts as (Hbns & Hbw & Hls & Hlh).
  apply layout_box in Hsn as (Hwn & Hhn & Hhn').
  apply layout_box in Hsm as (Hwm & Hhm & Hhm').
  split.
  - intros <-. split; [congruence|].
    assert (Hj : jn <> jm) by (intros ->; congruence).
    assert (Hin : In n (groups_get (layout_groups nodes edges) rn)).
    { apply nth_error_In in Hjn. unfold level_order in Hjn.
      now apply stable_sort_In in Hjn. }
    pose proof (max_nodes_in_level_bound _ _ _ Hin) as Hcount.
    assert (Hpos : 1 <= lenZ (groups_get (layout_groups nodes edges) rn)).
    { unfold lenZ. destruct (groups_get (layout_groups nodes edges) rn);
        [destruct Hin | simpl; lia]. }
    pose proof (main_graph_width_bound (lenZ nodes)
                  (max_nodes_in_level (layout_groups nodes edges))
                  (layout_base_spacing nodes edges)) as Hmgw.
    fold (layout_main_width nodes edges) in Hmgw.
    pose proof (node_spacing_bound
                  (lenZ (groups_get (layout_groups nodes edges) rn))
                  (max_nodes_in_level (layout_groups nodes edges))
                  (layout_base_spacing nodes edges)
                  (layout_main_width nodes edges)
                  (conj Hpos Hcount) Hbns Hmgw) as Hns.
    unfold slot_x in Hxn, Hxm.
    set (ns := node_spacing_of _ _ _) in *.
    destruct (Nat.lt_total jn jm) as [Hlt | [E | Hgt]]; [left | contradiction | right].
    + assert (Z.of_nat jn + 1 <= Z.of_nat jm) by lia. nia.
    + assert (Z.of_nat jm + 1 <= Z.of_nat jn) by lia. nia.
  - intros Hlt. rewrite Hyn, Hym.
    assert (rn + 1 <= rm) by lia. nia.
Qed.

(** Two isolated nodes stand in different cells of the grid *)
Lemma isolated_pair_apart n m p q wn hn wm hm :
  n <> m ->
  In n (layout_isolated nodes edges) ->
  In m (layout_isolated nodes edges) ->
  dict_get (positions lay) n = Some p ->
  dict_get (positions lay) m = Some q ->
  dict_get (node_sizes lay) n = Some (wn, hn) ->
  dict_get (node_sizes lay) m = Some (wm, hm) ->
  pos_x p + wn + 60 <= pos_x q \/ pos_x q + wm + 60 <= pos_x p
  \/ pos_y2 p + 2 * (hn + 50) <= pos_y2 q
  \/ pos_y2 q + 2 * (hm + 50) <= pos_y2 p.
Proof.
  intros Hne Hn Hm Hp Hq Hsn Hsm.
  destruct (isolated_position n p Hn Hp) as (jn & Hjn & Hxn & Hyn).
  destruct (isolated_position m q Hm Hq) as (jm & Hjm & Hxm & Hym).
  apply layout_box in Hsn as (Hwn & Hhn & _).
  apply layout_box in Hsm as (Hwm & Hhm & _).
  assert (Hj : Z.of_nat jn <> Z.of_nat jm) by (intros E; apply Nat2Z.inj in E; congruence).
  pose proof (isolated_columns_bounds (lenZ (layout_isolated nodes edges)))
    as [Hcols _].
  set (cols := fst (isolated_columns (lenZ (layout_isolated nodes edges)))) in *.
  pose proof (Z.div_mod (Z.of_nat jn) cols) as Hdn.
  pose proof (Z.div_mod (Z.of_nat jm) cols) as Hdm.
  set (rown := Z.of_nat jn / cols) in *. set (coln := Z.of_nat jn mod cols) in *.
  set (rowm := Z.of_nat jm / cols) in *. set (colm := Z.of_nat jm mod cols) in *.
  destruct (Z.lt_total rown rowm) as [Hlt | [E | Hgt]].
  - right. right. left. rewrite Hyn, Hym.
    assert (rown + 1 <= rowm) by lia. nia.
  - destruct (Z.lt_total coln colm) as [Hlt | [E' | Hgt]].
    + left. rewrite Hxn, Hxm. assert (coln + 1 <= colm) by lia. nia.
    + exfalso. apply Hj. rewrite Hdn, Hdm by lia. now rewrite E, E'.
    + right. left. rewrite Hxn, Hxm. assert (colm + 1 <= coln) by lia. nia.
  - right. right. right. rewrite Hyn, Hym.
    assert (rowm + 1 <= rown) by lia. nia.
Qed.

(** A ranked box ends at or before the main graph width *)
Lemma ranked_within n p wn hn :
  dict_has (final_ranks nodes edges) n = true ->
  dict_get (positions lay) n = Some p ->
  dict_get (node_sizes lay) n = Some (wn, hn) ->
  200 <= pos_x p /\ pos_x p + wn <= layout_main_width nodes edges.
Proof.
  intros Hn Hp Hsn.
  unfold dict_has in Hn.
  destruct (dict_get (final_ranks nodes edges) n) as [r|] eqn:Hr;
    [|discriminate].
  destruct (ranked_position n r p Hr Hp) as (_ & j & Hj & Hx).
  destruct layout_spacing_facts as (Hbns & Hbw & _ & _).
  apply layout_box in Hsn as (Hwn & _ & _).
  pose proof (max_width_of_upper nodes (layout_isolated nodes edges)) as Hw300.
  fold (layout_max_width nodes edges) in Hw300.
  assert (Hin : In n (level_order nodes inc out (layout_groups nodes edges) r))
    by now apply nth_error_In in Hj.
  assert (Hlen : Z.of_nat j
                 < lenZ (groups_get (layout_groups nodes edges) r)).
  { assert (Hsome : nth_error (level_order nodes inc out
                                 (layout_groups nodes edges) r) j <> None)
      by congruence.
    apply nth_error_Some in Hsome. unfold level_order in Hsome.
    rewrite stable_sort_length in Hsome. unfold lenZ. lia. }
  unfold level_order in Hin. apply stable_sort_In in Hin.
  pose proof (max_nodes_in_level_bound _ _ _ Hin) as Hcount.
  pose proof (main_graph_width_bound (lenZ nodes)
                (max_nodes_in_level (layout_groups nodes edges))
                (layout_base_spacing nodes edges)) as Hmgw.
  fold (layout_main_width nodes edges) in Hmgw.
  destruct (slot_within (lenZ (groups_get (layout_groups nodes edges) r))
              (max_nodes_in_level (layout_groups nodes edges))
              (layout_base_spacing nodes edges) (layout_main_width nodes edges)
              (layout_max_width nodes edges) wn (Z.of_nat j))
    as [Hlo Hhi]; lia.
Qed.

(** An isolated box starts 150 or more to the right of the main graph
    width *)
Lemma isolated_beyond m q :
  In m (layout_isolated nodes edges) ->
  dict_get (positions lay) m = Some q ->
  layout_main_width nodes edges + 150 <= pos_x q.
Proof.
  intros Hm Hq.
  destruct (isolated_position m q Hm Hq) as (jm & _ & Hxm & _).
  pose proof (isolated_columns_bounds (lenZ (layout_isolated nodes edges)))
    as [Hcols Hgap].
  pose proof (Z.mod_pos_bound (Z.of_nat jm) _ Hcols) as Hmod.
  pose proof (max_width_of_nonneg nodes (layout_isolated nodes edges)) as Hw0.
  fold (layout_max_width nodes edges) in Hw0.
  rewrite Hxm. nia.
Qed.
End BoxGeometry.

(** X14: two ranked nodes of the same rank stand at the same height, side
    by side, with 120 or more between the end of one box and the start of
    the other; of two ranked nodes of different ranks the box of the lower
    rank ends 25 or more above the start of the other box. *)
Theorem ranked_boxes_apart (nodes : dict string) (edges : list edge)
    (n m : string) (rn rm : rank) (p q : position) (wn hn wm hm : Z) :
  let lay := calculate_hierarchical_layout nodes edges in
  n <> m ->
  dict_get (final_ranks nodes edges) n = Some rn ->
  dict_get (final_ranks nodes edges) m = Some rm ->
  dict_get (positions lay) n = Some p ->
  dict_get (positions lay) m = Some q ->
  dict_get (node_sizes lay) n = Some (wn, hn) ->
  dict_get (node_sizes lay) m = Some (wm, hm) ->
  (rn = rm ->
     pos_y2 p = pos_y2 q
     /\ (pos_x p + wn + 120 <= pos_x q \/ pos_x q + wm + 120 <= pos_x p))
  /\ (rn < rm -> pos_y2 p + 2 * hn + 50 <= pos_y2 q).
Proof. intros lay. apply ranked_pair_apart. Qed.

Lemma ranked_boxes_apart_witness :
  let lay := calculate_hierarchical_layout fan_nodes fan_edges in
  exists p q,
    dict_get (positions lay) "node-3" = Some p
    /\ dict_get (positions lay) "node-4" = Some q
    /\ pos_y2 p = pos_y2 q
    /\ (pos_x p + 100 + 120 <= pos_x q \/ pos_x q + 100 + 120 <= pos_x p).
Proof.
  intros lay.
  exists {| pos_x := 250; pos_y2 := 1150 |}, {| pos_x := 630; pos_y2 := 1150 |}.
  split; [vm_compute; reflexivity|]. split; [vm_compute; reflexivity|].
  apply (ranked_boxes_apart fan_nodes fan_edges "node-3" "node-4" 3 3
           {| pos_x := 250; pos_y2 := 1150 |} {| pos_x := 630; pos_y2 := 1150 |}
           100 50 100 50);
    try (vm_compute; reflexivity).
  discriminate.
Defined.

(** X15: two isolated nodes stand in different cells of the side grid: one
    box ends 60 or more to the left of the other, or 50 or more above it. *)
Theorem isolated_boxes_apart (nodes : dict string) (edges : list edge)
    (n m : string) (p q : position) (wn hn wm hm : Z) :
  let lay := calculate_hierarchical_layout nodes edges in
  n <> m ->
  In n (isolated_nodes nodes (incoming nodes edges) (outgoing nodes edges)) ->
  In m (isolated_nodes nodes (incoming nodes edges) (outgoing nodes edges)) ->
  dict_get (positions lay) n = Some p ->
  dict_get (positions lay) m = Some q ->
  dict_get (node_sizes lay) n = Some (wn, hn) ->
  dict_get (node_sizes lay) m = Some (wm, hm) ->
  pos_x p + wn + 60 <= pos_x q \/ pos_x q + wm + 60 <= pos_x p
  \/ pos_y2 p + 2 * (hn + 50) <= pos_y2 q
  \/ pos_y2 q + 2 * (hm + 50) <= pos_y2 p.
Proof. intros lay. apply isolated_pair_apart. Qed.

Lemma isolated_boxes_apart_witness :
  let lay := calculate_hierarchical_layout stray_nodes cleanup_edges in
  exists p q,
    dict_get (positions lay) "node-7" = Some p
    /\ dict_get (positions lay) "node-8" = Some q
    /\ (pos_x p + 90 + 60 <= pos_x q \/ pos_x q + 90 + 60 <= pos_x p
        \/ pos_y2 p + 2 * (45 + 50) <= pos_y2 q
        \/ pos_y2 q + 2 * (45 + 50) <= pos_y2 p).
Proof.
  intros lay.
  destruct (dict_get (positions lay) "node-7") as [p|] eqn:Hp;
    [|vm_compute in Hp; discriminate].
  destruct (dict_get (positions lay) "node-8") as [q|] eqn:Hq;
    [|vm_compute in Hq; discriminate].
  exists p, q. split; [reflexivity|]. split; [reflexivity|].
  apply (isolated_boxes_apart stray_nodes cleanup_edges "node-7" "node-8"
           p q 90 45 90 45);
    try assumption; try (vm_compute; reflexivity); try (vm_compute; tauto).
  discriminate.
Defined.

(** X16: no two boxes of a diagram overlap: for two different nodes that
    the emitter finds in the layout, one box lies to the left of the other
    or above it. *)
Theorem boxes_disjoint (nodes : dict string) (edges : list edge)
    (n m : string) (p q : position) (sn sm : Z * Z) :
  let lay := calculate_hierarchical_layout nodes edges in
  n <> m ->
  emitter_lookup lay n = Some (p, sn) ->
  emitter_lookup lay m = Some (q, sm) ->
  disjoint_boxes p sn q sm.
Proof.
  intros lay Hne Hn Hm. subst lay. unfold emitter_lookup in Hn, Hm.
  destruct (dict_get (positions _) n) as [p'|] eqn:Hp; [|discriminate].
  destruct (dict_get (node_sizes _) n) as [[wn hn]|] eqn:Hsn; [|discriminate].
  destruct (dict_get (positions _) m) as [q'|] eqn:Hq; [|discriminate].
  destruct (dict_get (node_sizes _) m) as [[wm hm]|] eqn:Hsm; [|discriminate].
  injection Hn as <- <-. injection Hm as <- <-.
  unfold disjoint_boxes. cbn [fst snd].
  destruct (placed_cases nodes edges n p' Hp) as [[Hrn _] | Hin];
    destruct (placed_cases nodes edges m q' Hq) as [[Hrm _] | Him].
  - unfold dict_has in Hrn, Hrm.
    destruct (dict_get (final_ranks nodes edges) n) as [rn|] eqn:Ern;
      [|discriminate].
    destruct (dict_get (final_ranks nodes edges) m) as [rm|] eqn:Erm;
      [|discriminate].
    destruct (ranked_pair_apart nodes edges n m rn rm p' q' wn hn wm hm
                Hne Ern Erm Hp Hq Hsn Hsm) as [Hsame Hbelow].
    destruct (ranked_pair_apart nodes edges m n rm rn q' p' wm hm wn hn
                (not_eq_sym Hne) Erm Ern Hq Hp Hsm Hsn) as [_ Habove].
    destruct (Z.lt_total rn rm) as [Hlt | [E | Hgt]].
    + specialize (Hbelow Hlt). lia.
    + destruct (Hsame E) as [_ Hx]. lia.
    + specialize (Habove Hgt). lia.
  - destruct (ranked_within nodes edges n p' wn hn Hrn Hp Hsn) as [_ H1].
    pose proof (isolated_beyond nodes edges m q' Him Hq) as H2. lia.
  - destruct (ranked_within nodes edges m q' wm hm Hrm Hq Hsm) as [_ H1].
    pose proof (isolated_beyond nodes edges n p' Hin Hp) as H2. lia.
  - pose proof (layout_box nodes edges n wn hn Hsn) as (_ & Hh & _).
    pose proof (layout_box nodes edges m wm hm Hsm) as (_ & Hh' & _).
    destruct (isolated_pair_apart nodes edges n m p' q' wn hn wm hm
                Hne Hin Him Hp Hq Hsn Hsm) as [H | [H | [H | H]]]; lia.
Qed.

Lemma boxes_disjoint_witness :
  let lay := calculate_hierarchical_layout stray_nodes cleanup_edges in
  disjoint_boxes {| pos_x := 720; pos_y2 := 400 |} (100, 50)
                 {| pos_x := 360; pos_y2 := 1280 |} (100, 50).
Proof.
  intros lay.
  apply (boxes_disjoint stray_nodes cleanup_edges "node-1" "node-5").
  - discriminate.
  - vm_compute. reflexivity.
  - vm_compute. reflexivity.
Defined.

(** ** The emitter and the layout *)

Lemma layout_canvas nodes edges :
  canvas_width (calculate_hierarchical_layout nodes edges)
  = layout_main_width nodes edges
    + isolated_area_width_of (lenZ (layout_isolated nodes edges))
  /\ isolated_count (calculate_hierarchical_layout nodes edges)
     = lenZ (layout_isolated nodes edges).
Proof.
  unfold calculate_hierarchical_layout, layout_main_width,
    layout_base_spacing, layout_groups, layout_max_width, layout_max_height,
    layout_isolated.
  destruct (redistribute _ _ _). destruct (spacing _ _ _). split; reflexivity.
Qed.

(** The emitter recomputes the width of the isolated area with the tests
    the other way round; for a positive count it is the same width. *)
Lemma emitter_area_width count :
  0 < count ->
  (if 15 <? count then 700 else if 5 <? count then 550 else 400)
  = isolated_area_width_of count.
Proof.
  intros H. unfold isolated_area_width_of.
  destruct (Z.ltb_spec 0 count); [|lia].
  destruct (Z.ltb_spec 15 count), (Z.leb_spec count 5), (Z.leb_spec count 15),
           (Z.ltb_spec 5 count); try reflexivity; lia.
Qed.

(** X17: when some node is isolated the emitter draws the side panel, and
    the main graph width it recomputes from the canvas width is the one the
    layout used: the separator line stands 50 to the right of it, every
    ranked box ends 50 or more to the left of the separator, and every
    isolated box starts 100 or more to its right. *)
Theorem side_panel_between (nodes : dict string) (edges : list edge) :
  let lay := calculate_hierarchical_layout nodes edges in
  let isolated :=
    isolated_nodes nodes (incoming nodes edges) (outgoing nodes edges) in
  isolated <> [] ->
  exists panel,
    emitter_side_panel lay = Some panel
    /\ separator_x panel = main_graph_width lay + 50
    /\ background_x panel = main_graph_width lay + 80
    /\ background_x panel + background_width panel = canvas_width lay
    /\ (forall n p w h,
          dict_has (final_ranks nodes edges) n = true ->
          dict_get (positions lay) n = Some p ->
          dict_get (node_sizes lay) n = Some (w, h) ->
          pos_x p + w + 50 <= separator_x panel)
    /\ (forall n p,
          In n isolated ->
          dict_get (positions lay) n = Some p ->
          separator_x panel + 100 <= pos_x p).
Proof.
  intros lay isolated Hne. subst lay.
  destruct (layout_canvas nodes edges) as [Hcanvas Hcount].
  fold isolated in Hcanvas, Hcount. unfold layout_isolated in Hcanvas, Hcount.
  fold isolated in Hcanvas, Hcount.
  assert (Hpos : 0 < lenZ isolated).
  { unfold lenZ. destruct isolated; [congruence | simpl; lia]. }
  unfold emitter_side_panel. rewrite Hcount.
  destruct (Z.ltb_spec 0 (lenZ isolated)); [|lia].
  rewrite (emitter_area_width _ Hpos), Hcanvas, layout_main_graph_width.
  eexists. split; [reflexivity|]. cbn [separator_x background_x background_width].
  split; [lia|]. split; [lia|]. split; [lia|]. split.
  - intros n p w h Hn Hp Hs.
    destruct (ranked_within nodes edges n p w h Hn Hp Hs). lia.
  - intros n p Hn Hp.
    pose proof (isolated_beyond nodes edges n p Hn Hp). lia.
Qed.

Lemma side_panel_between_witness :
  exists panel,
    emitter_side_panel (calculate_hierarchical_layout orphan_nodes cleanup_edges)
    = Some panel
    /\ separator_x panel
       = main_graph_width (calculate_hierarchical_layout orphan_nodes
                                                         cleanup_edges) + 50.
Proof.
  destruct (side_panel_between orphan_nodes cleanup_edges)
    as (panel & Hpanel & Hsep & _).
  - vm_compute. discriminate.
  - exists panel. split; assumption.
Defined.

(** ** The emitter's test for isolated nodes *)

Lemma valid_edges_known nodes edges :
  (forall s t, In (s, t) edges ->
     dict_has nodes s = true /\ dict_has nodes t = true) ->
  valid_edges nodes edges = edges.
Proof.
  intros H. apply filter_all. intros [s t] Hin.
  destruct (H s t Hin) as [Hs Ht]. cbn [fst snd]. now rewrite Hs, Ht.
Qed.

Lemma is_empty_map {A B : Type} (f : A -> B) (l : list A) :
  is_empty (map f l) = is_empty l.
Proof. now destruct l. Qed.

Lemma is_empty_sources (edges : list edge) n :
  is_empty (filter (fun e => String.eqb (fst e) n) edges)
  = negb (PyStr.mem n (map fst edges)).
Proof.
  induction edges as [|[s t] edges IH]; [reflexivity|].
  cbn [filter map fst]. unfold PyStr.mem in *. cbn [existsb].
  rewrite (String.eqb_sym n s).
  destruct (String.eqb s n); [reflexivity | exact IH].
Qed.

Lemma is_empty_targets (edges : list edge) n :
  is_empty (filter (fun e => String.eqb (snd e) n) edges)
  = negb (PyStr.mem n (map snd edges)).
Proof.
  induction edges as [|[s t] edges IH]; [reflexivity|].
  cbn [filter map snd]. unfold PyStr.mem in *. cbn [existsb].
  rewrite (String.eqb_sym n t).
  destruct (String.eqb t n); [reflexivity | exact IH].
Qed.

(** When every edge joins two nodes of the node map, the emitter's test
    and the layout's test for an isolated node agree. *)
Lemma emitter_isolated_known nodes edges n :
  (forall s t, In (s, t) edges ->
     dict_has nodes s = true /\ dict_has nodes t = true) ->
  emitter_is_isolated edges n
  = is_isolated (incoming nodes edges) (outgoing nodes edges) n.
Proof.
  intros H. unfold is_isolated, incoming, outgoing.
  rewrite (valid_edges_known nodes edges H), !is_empty_map.
  rewrite is_empty_sources, is_empty_targets.
  unfold emitter_is_isolated. apply andb_comm.
Qed.

Lemma sizes_loop_exact isolated (l : dict string) sizes n :
  NoDup (dict_keys l) ->
  dict_get (fold_left (fun (sizes : dict (Z * Z)) (kv : string * string) =>
                         let (node_id, size) := node_size_of isolated kv in
                         dict_set sizes node_id size) l sizes) n
  = match dict_get l n with
    | Some label => Some (snd (node_size_of isolated (n, label)))
    | None => dict_get sizes n
    end.
Proof.
  revert sizes. induction l as [|[k v] l IH]; intros sizes Hnd;
    cbn [fold_left]; [reflexivity|].
  inversion Hnd as [|? ? Hk Hnd']; subst.
  rewrite (IH _ Hnd'). cbn [node_size_of dict_get].
  destruct (String.eqb_spec k n) as [-> | Hne].
  - rewrite (dict_get_not_in_keys l n) by assumption.
    now rewrite dict_get_set_same.
  - destruct (dict_get l n); [reflexivity|].
    now rewrite dict_get_set_other.
Qed.

Lemma compute_node_sizes_get nodes isolated n label :
  NoDup (dict_keys nodes) -> dict_get nodes n = Some label ->
  dict_get (compute_node_sizes nodes isolated) n
  = Some (snd (node_size_of isolated (n, label))).
Proof.
  intros Hnd Hn. unfold compute_node_sizes.
  now rewrite sizes_loop_exact, Hn.
Qed.

Lemma isolated_mem nodes edges n :
  In n (dict_keys nodes) ->
  PyStr.mem n (layout_isolated nodes edges)
  = is_isolated (incoming nodes edges) (outgoing nodes edges) n.
Proof.
  intros Hn.
  destruct (is_isolated (incoming nodes edges) (outgoing nodes edges) n) eqn:E.
  - apply mem_In, isolated_In. auto.
  - apply mem_false. intros H. apply isolated_In in H as [_ H]. congruence.
Qed.

Lemma ingested_keys_nodup docs :
  NoDup (dict_keys (simple_to_label (ingest_all docs))).
Proof.
  rewrite (ids_sequential _ (ingest_all_invariant docs)).
  apply NoDup_map_injective; [apply node_id_inj | apply seq_NoDup].
Qed.

Lemma ingested_edges_known docs s t :
  In (s, t) (all_edges (ingest_all docs)) ->
  dict_has (simple_to_label (ingest_all docs)) s = true
  /\ dict_has (simple_to_label (ingest_all docs)) t = true.
Proof. apply (edges_known _ (ingest_all_invariant docs)). Qed.

(** X18: for the graph that ingestion builds, the emitter's own test for an
    isolated node (no edge names it) agrees with the layout's test, so the
    box of every node was sized for the font and the isolated flag that the
    emitter's node style uses. *)
Theorem emitter_isolation_agrees (docs : list document) (n label : string) :
  let c := ingest_all docs in
  let isolated := emitter_is_isolated (all_edges c) n in
  dict_get (simple_to_label c) n = Some label ->
  isolated = is_isolated (incoming (simple_to_label c) (all_edges c))
                         (outgoing (simple_to_label c) (all_edges c)) n
  /\ dict_get (node_sizes (converter_layout c)) n
     = Some (calculate_node_size label (get_node_font_size label isolated)
                                 isolated).
Proof.
  intros c isolated Hn.
  assert (Hiso : isolated
                 = is_isolated (incoming (simple_to_label c) (all_edges c))
                               (outgoing (simple_to_label c) (all_edges c)) n).
  { apply emitter_isolated_known. apply ingested_edges_known. }
  split; [exact Hiso|].
  unfold converter_layout. rewrite layout_node_sizes.
  rewrite (compute_node_sizes_get _ _ n label (ingested_keys_nodup docs) Hn).
  cbn [node_size_of snd]. rewrite isolated_mem, <- Hiso; [reflexivity|].
  apply dict_has_In_keys. now apply dict_get_has in Hn.
Qed.

Lemma emitter_isolation_agrees_witness :
  let c := ingest_all [first_document; second_document] in
  dict_get (node_sizes (converter_layout c)) "node-1"
  = Some (calculate_node_size "main"
            (get_node_font_size "main" (emitter_is_isolated (all_edges c) "node-1"))
            (emitter_is_isolated (all_edges c) "node-1")).
Proof.
  intros c.
  apply (emitter_isolation_agrees [first_document; second_document]
           "node-1" "main").
  vm_compute. reflexivity.
Defined.

(** ** The edge loop *)

Lemma calculate_node_size_short label isolated :
  (String.length label <= 25)%nat ->
  snd (calculate_node_size label (get_node_font_size label isolated) isolated)
  = if isolated then 45 else 50.
Proof.
  intros Hlen. unfold calculate_node_size. cbn [snd].
  set (font := get_node_font_size label isolated).
  assert (Hfont : 10 <= font <= 12).
  { destruct (font_size_values label isolated) as [H | [H | H]];
      fold font in H; lia. }
  assert (Hcw : 12 <= char_width2 font <= 14).
  { destruct (font_size_values label isolated) as [H | [H | H]];
      fold font in H; rewrite H; vm_compute; split; discriminate. }
  set (tw := Z.of_nat (String.length label) * char_width2 font) in *.
  assert (Htw : tw <= 2 * (300 - 20)) by (unfold tw; nia).
  replace (2 * (300 - 20) <? tw) with false by (symmetry; apply Z.ltb_ge; lia).
  destruct isolated; lia.
Qed.

Section EdgeLoop.
Variables (nodes : dict string) (edges : list edge).
Hypothesis nodes_nodup : NoDup (dict_keys nodes).

Local Abbreviation lay := (calculate_hierarchical_layout nodes edges).

Lemma edge_endpoints_connected u v :
  In (u, v) edges -> dict_has nodes u = true -> dict_has nodes v = true ->
  In u (dict_keys (layout_connected nodes edges))
  /\ In v (dict_keys (layout_connected nodes edges)).
Proof.
  intros Hin Hu Hv.
  assert (Hout : In v (outgoing nodes edges u)).
  { unfold outgoing. apply in_map_iff. exists (u, v). split; [reflexivity|].
    apply filter_In. split; [|apply String.eqb_refl].
    unfold valid_edges. apply filter_In. split; [assumption|].
    cbn [fst snd]. now rewrite Hu, Hv. }
  pose proof (proj1 (adjacency_dual nodes edges u v) Hout) as Hinc.
  split; apply connected_keys; (split; [now apply dict_has_In_keys|]);
    unfold is_isolated.
  - destruct (outgoing nodes edges u); [destruct Hout|].
    apply andb_false_r.
  - destruct (incoming nodes edges v); [destruct Hinc | reflexivity].
Qed.

Lemma connected_ranked n :
  In n (dict_keys (layout_connected nodes edges)) ->
  exists r p,
    dict_get (final_ranks nodes edges) n = Some r
    /\ dict_get (positions lay) n = Some p.
Proof.
  intros Hn.
  destruct (connected_grouped nodes edges n Hn) as (r & Hr & Hg).
  pose proof (group_ranked _ _ _ _ (final_ranks_invariant nodes edges) n r Hg)
    as Hrank.
  assert (Hpos : dict_has (positions lay) n = true).
  { rewrite layout_positions. apply place_isolated_mono.
    unfold ranked_positions. now apply place_levels_has with r. }
  unfold dict_has in Hpos.
  destruct (dict_get (positions lay) n) as [p|] eqn:Hp; [|discriminate].
  exists r, p. split; [exact Hrank | reflexivity].
Qed.

Lemma connected_size n label :
  In n (dict_keys (layout_connected nodes edges)) ->
  dict_get nodes n = Some label ->
  dict_get (node_sizes lay) n
  = Some (calculate_node_size label (get_node_font_size label false) false).
Proof.
  intros Hc Hn. rewrite layout_node_sizes.
  rewrite (compute_node_sizes_get _ _ n label nodes_nodup Hn).
  cbn [node_size_of snd]. rewrite isolated_mem.
  - apply connected_keys in Hc as [_ ->]. reflexivity.
  - apply dict_has_In_keys. now apply dict_get_has in Hn.
Qed.

(** What the edge loop makes of an edge between two nodes of the node map *)
Lemma edge_emitted u v slabel tlabel :
  In (u, v) edges ->
  dict_get nodes u = Some slabel -> dict_get nodes v = Some tlabel ->
  exists ru rv source target ssize tsize,
    dict_get (final_ranks nodes edges) u = Some ru
    /\ dict_get (final_ranks nodes edges) v = Some rv
    /\ dict_get (positions lay) u = Some source
    /\ dict_get (positions lay) v = Some target
    /\ ssize = calculate_node_size slabel (get_node_font_size slabel false) false
    /\ tsize = calculate_node_size tlabel (get_node_font_size tlabel false) false
    /\ dict_get (node_sizes lay) u = Some ssize
    /\ dict_get (node_sizes lay) v = Some tsize
    /\ emitter_edge nodes lay (u, v)
       = let points := connection_points source target ssize tsize in
         EdgeStyled
           (get_edge_style (PyStr.lower slabel) (PyStr.lower tlabel)
                           (fst (fst points)) (snd (fst points))
                           (fst (snd points)) (snd (snd points)))
           (fst points) (snd points).
Proof.
  intros Hin Hu Hv.
  destruct (edge_endpoints_connected u v Hin (dict_get_has _ _ _ Hu)
              (dict_get_has _ _ _ Hv)) as [Hcu Hcv].
  destruct (connected_ranked u Hcu) as (ru & source & Hru & Hpu).
  destruct (connected_ranked v Hcv) as (rv & target & Hrv & Hpv).
  pose proof (connected_size u slabel Hcu Hu) as Hsu.
  pose proof (connected_size v tlabel Hcv Hv) as Hsv.
  exists ru, rv, source, target. do 2 eexists.
  repeat (split; [eassumption || reflexivity|]).
  unfold emitter_edge. rewrite Hpu, Hpv, Hsu, Hsv, Hu, Hv.
  destruct (connection_points _ _ _ _) as [sp tp]. reflexivity.
Qed.

(** The direction between the connection points of two ranked boxes *)
Lemma connection_direction u v ru rv source target ws hs wt ht :
  dict_get (final_ranks nodes edges) u = Some ru ->
  dict_get (final_ranks nodes edges) v = Some rv ->
  dict_get (positions lay) u = Some source ->
  dict_get (positions lay) v = Some target ->
  dict_get (node_sizes lay) u = Some (ws, hs) ->
  dict_get (node_sizes lay) v = Some (wt, ht) ->
  let points := connection_points source target (ws, hs) (wt, ht) in
  flow_direction (snd (fst points)) (snd (snd points))
  = if ru <? rv then Downward
    else if rv <? ru then Upward
    else flow_direction (hs / 2) (ht / 2).
Proof.
  intros Hru Hrv Hpu Hpv Hsu Hsv.
  destruct (ranked_position nodes edges u ru source Hru Hpu) as [Hyu _].
  destruct (ranked_position nodes edges v rv target Hrv Hpv) as [Hyv _].
  destruct (layout_spacing_facts nodes edges) as (_ & _ & Hls & Hlh).
  apply layout_box in Hsu as (_ & Hhu & Hhu').
  apply layout_box in Hsv as (_ & Hhv & Hhv').
  unfold connection_points, flow_direction.
  destruct (Z.ltb_spec ru rv) as [Hlt | Hge].
  - assert (ru + 1 <= rv) by lia.
    destruct (Z.ltb_spec (pos_y2 source) (pos_y2 target)); [|nia].
    cbn [fst snd].
    destruct (Z.ltb_spec (pos_y2 source + 2 * hs) (pos_y2 target));
      [reflexivity | nia].
  - destruct (Z.ltb_spec rv ru) as [Hgt | Hle].
    + assert (rv + 1 <= ru) by lia.
      destruct (Z.ltb_spec (pos_y2 source) (pos_y2 target)); [nia|].
      destruct (Z.ltb_spec (pos_y2 target) (pos_y2 source)); [|nia].
      cbn [fst snd].
      destruct (Z.ltb_spec (pos_y2 source) (pos_y2 target + 2 * ht)); [nia|].
      destruct (Z.ltb_spec (pos_y2 target + 2 * ht) (pos_y2 source));
        [reflexivity | nia].
    + assert (ru = rv) by lia. subst rv.
      assert (Hsame : pos_y2 source = pos_y2 target) by congruence.
      rewrite Hsame, !Z.ltb_irrefl.
      destruct (pos_x source <? pos_x target); cbn [fst snd];
        destruct (Z.ltb_spec (hs / 2) (ht / 2));
        destruct (Z.ltb_spec (ht / 2) (hs / 2));
        destruct (Z.ltb_spec (pos_y2 target + 2 * (hs / 2))
                             (pos_y2 target + 2 * (ht / 2)));
        destruct (Z.ltb_spec (pos_y2 target + 2 * (ht / 2))
                             (pos_y2 target + 2 * (hs / 2)));
        try reflexivity; lia.
Qed.
End EdgeLoop.

(** X19: the edge loop styles every edge between two nodes of the node
    map, and the direction that the style is chosen from follows the
    ranks: between the connection points the flow is downward for an edge
    to a higher rank and upward for an edge to a lower rank; within a rank
    it is lateral exactly when the halved heights of the two boxes are
    equal, which they are when both labels have at most 25 characters. *)
Theorem edge_styled_by_rank (nodes : dict string) (edges : list edge)
    (u v slabel tlabel : string) :
  let lay := calculate_hierarchical_layout nodes edges in
  NoDup (dict_keys nodes) ->
  In (u, v) edges ->
  dict_get nodes u = Some slabel -> dict_get nodes v = Some tlabel ->
  exists ru rv ws hs wt ht source_point target_point,
    dict_get (final_ranks nodes edges) u = Some ru
    /\ dict_get (final_ranks nodes edges) v = Some rv
    /\ dict_get (node_sizes lay) u = Some (ws, hs)
    /\ dict_get (node_sizes lay) v = Some (wt, ht)
    /\ emitter_edge nodes lay (u, v)
       = EdgeStyled
           (get_edge_style (PyStr.lower slabel) (PyStr.lower tlabel)
                           (fst source_point) (snd source_point)
                           (fst target_point) (snd target_point))
           source_point target_point
    /\ flow_direction (snd source_point) (snd target_point)
       = (if ru <? rv then Downward
          else if rv <? ru then Upward
          else flow_direction (hs / 2) (ht / 2))
    /\ ((String.length slabel <= 25)%nat -> hs = 50)
    /\ ((String.length tlabel <= 25)%nat -> ht = 50).
Proof.
  intros lay Hnd Hin Hu Hv. subst lay.
  destruct (edge_emitted nodes edges Hnd u v slabel tlabel Hin Hu Hv)
    as (ru & rv & source & target & ssize & tsize
        & Hru & Hrv & Hpu & Hpv & Es & Et & Hsu & Hsv & Hedge).
  destruct ssize as [ws hs] eqn:Essize, tsize as [wt ht] eqn:Etsize.
  exists ru, rv, ws, hs, wt, ht.
  exists (fst (connection_points source target (ws, hs) (wt, ht))),
         (snd (connection_points source target (ws, hs) (wt, ht))).
  repeat (split; [assumption|]).
  split.
  - apply (connection_direction nodes edges u v ru rv source target
             ws hs wt ht); assumption.
  - split; intros Hlen.
    + apply (f_equal snd) in Es. cbn [snd] in Es. rewrite Es.
      now rewrite calculate_node_size_short.
    + apply (f_equal snd) in Et. cbn [snd] in Et. rewrite Et.
      now rewrite calculate_node_size_short.
Qed.

Lemma edge_styled_by_rank_witness :
  exists ru rv ws hs wt ht source_point target_point,
    dict_get (final_ranks triangle_nodes triangle_edges) "node-3" = Some ru
    /\ dict_get (final_ranks triangle_nodes triangle_edges) "node-2" = Some rv
    /\ dict_get (node_sizes (calculate_hierarchical_layout triangle_nodes
                                                           triangle_edges))
                "node-3" = Some (ws, hs)
    /\ dict_get (node_sizes (calculate_hierarchical_layout triangle_nodes
                                                           triangle_edges))
                "node-2" = Some (wt, ht)
    /\ emitter_edge triangle_nodes
         (calculate_hierarchical_layout triangle_nodes triangle_edges)
         ("node-3", "node-2")
       = EdgeStyled
           (get_edge_style (PyStr.lower "gamma") (PyStr.lower "beta")
                           (fst source_point) (snd source_point)
                           (fst target_point) (snd target_point))
           source_point target_point
    /\ flow_direction (snd source_point) (snd target_point)
       = (if ru <? rv then Downward
          else if rv <? ru then Upward
          else flow_direction (hs / 2) (ht / 2))
    /\ ((String.length "gamma" <= 25)%nat -> hs = 50)
    /\ ((String.length "beta" <= 25)%nat -> ht = 50).
Proof.
  apply (edge_styled_by_rank triangle_nodes triangle_edges
           "node-3" "node-2" "gamma" "beta").
  - repeat constructor; simpl; intuition discriminate.
  - simpl. auto.
  - reflexivity.
  - reflexivity.
Defined.

(** X20: for the graph that ingestion builds the edge loop emits every
    edge: the guard on the positions never skips one and no lookup fails. *)
Theorem ingested_edges_all_styled (docs : list document) (u v : string) :
  let c := ingest_all docs in
  In (u, v) (all_edges c) ->
  exists style source_point target_point,
    emitter_edge (simple_to_label c) (converter_layout c) (u, v)
    = EdgeStyled style source_point target_point.
Proof.
  intros c Hin.
  destruct (ingested_edges_known docs u v Hin) as [Hu Hv].
  fold c in Hu, Hv. unfold dict_has in Hu, Hv.
  destruct (dict_get (simple_to_label c) u) as [slabel|] eqn:Eu; [|discriminate].
  destruct (dict_get (simple_to_label c) v) as [tlabel|] eqn:Ev; [|discriminate].
  destruct (edge_emitted (simple_to_label c) (all_edges c)
              (ingested_keys_nodup docs) u v slabel tlabel Hin Eu Ev)
    as (ru & rv & source & target & ssize & tsize
        & _ & _ & _ & _ & _ & _ & _ & _ & Hedge).
  unfold converter_layout. rewrite Hedge. cbv zeta. eauto.
Qed.

Lemma ingested_edges_all_styled_witness :
  exists style source_point target_point,
    emitter_edge (simple_to_label (ingest_all [first_document; second_document]))
                 (converter_layout (ingest_all [first_document; second_document]))
                 ("node-1", "node-2")
    = EdgeStyled style source_point target_point.
Proof.
  apply (ingested_edges_all_styled [first_document; second_document]).
  vm_compute. auto.
Defined.

(** ** The order of the first pass *)

Lemma StronglySorted_suffix {A : Type} (R : A -> A -> Prop) l1 l2 :
  StronglySorted R (l1 ++ l2) -> StronglySorted R l2.
Proof.
  induction l1 as [|a l1 IH]; simpl; [auto|].
  intros H. inversion H; subst. auto.
Qed.

Lemma StronglySorted_append {A : Type} (R : A -> A -> Prop) l1 l2 :
  StronglySorted R l1 -> StronglySorted R l2 ->
  (forall x y, In x l1 -> In y l2 -> R x y) ->
  StronglySorted R (l1 ++ l2).
Proof.
  induction 1 as [|a l1 Hs IH Hall]; simpl; intros H2 Hcross; [assumption|].
  constructor.
  - apply IH; [assumption|]. intros x y Hx Hy. apply Hcross; auto.
  - apply Forall_app. split; [assumption|].
    apply Forall_forall. intros y Hy. apply Hcross; auto.
Qed.

Lemma same_level_sorted {A : Type} (l : list A) (k : Z) :
  StronglySorted (fun a b : A * Z => snd a <= snd b) (map (fun x => (x, k)) l).
Proof.
  induction l as [|x l IH]; simpl; constructor; [assumption|].
  apply Forall_forall. intros y Hy. apply in_map_iff in Hy as (z & <- & _).
  simpl. lia.
Qed.

Lemma drop_visited_split visited queue :
  exists skipped,
    queue = (skipped ++ drop_visited visited queue)%list
    /\ forall x, In x skipped -> In (fst x) visited.
Proof.
  induction queue as [|[n l] queue IH]; simpl.
  - exists []. split; [reflexivity | intros x []].
  - destruct (PyStr.mem n visited) eqn:E.
    + destruct IH as (skipped & Eq & Hs). exists ((n, l) :: skipped). split.
      * simpl. f_equal. exact Eq.
      * intros x [<- | Hx]; [now apply mem_In | auto].
    + exists []. split; [reflexivity | intros x []].
Qed.

Section FirstPassOrder.
Variables (nodes connected : dict string) (inc out : adjacency).
Variable roots : list string.

Lemma bfs_visit_order queue levels visited node level queue' :
  bfs_invariant connected out roots queue levels visited ->
  bfs_order connected out roots queue levels visited ->
  drop_visited visited queue = (node, level) :: queue' ->
  let visited' := node :: visited in
  let children := sort_descending (child_key nodes inc out) (out node) in
  let new_entries :=
    map (fun child => (child, level + 1))
        (filter (fun child => negb (PyStr.mem child visited')
                              && dict_has connected child) children) in
  bfs_order connected out roots (queue' ++ new_entries)
            (dict_set levels node level) visited'.
Proof.
  intros Hinv Hord Hdrop visited' children new_entries.
  destruct (drop_visited_split visited queue) as (skipped & Equeue & Hskipped).
  rewrite Hdrop in Equeue.
  pose proof (drop_visited_head _ _ _ _ _ Hdrop) as Hfresh.
  destruct (bfs_visit_invariant nodes connected inc out roots
              _ _ _ _ _ _ Hinv Hdrop) as [Hnone _].
  assert (Hhead : In (node, level) queue).
  { rewrite Equeue. apply in_or_app. right. now left. }
  assert (Htail : forall x, In x queue' -> In x queue).
  { intros x Hx. rewrite Equeue. apply in_or_app. right. now right. }
  pose proof (queue_nonneg _ _ _ _ _ _ Hord _ Hhead) as Hlevel. cbn [snd] in Hlevel.
  assert (Hsorted : StronglySorted (fun a b : string * Z => snd a <= snd b)
                                   ((node, level) :: queue')).
  { apply StronglySorted_suffix with skipped. rewrite <- Equeue.
    apply (queue_sorted _ _ _ _ _ _ Hord). }
  apply StronglySorted_inv in Hsorted as [Hsorted' Hlow].
  rewrite Forall_forall in Hlow. cbn [snd] in Hlow.
  assert (Hnew : forall a, In a new_entries ->
                   snd a = level + 1 /\ In (fst a) (out node)).
  { intros a Ha. unfold new_entries in Ha.
    apply in_map_iff in Ha as (child & <- & Hc).
    apply filter_In in Hc as [Hc _]. split; [reflexivity|].
    unfold children in Hc.
    now apply (Permutation_in _ (sort_descending_perm _ _)) in Hc. }
  assert (Hrange : forall a, In a (queue' ++ new_entries) ->
                     level <= snd a <= level + 1).
  { intros a Ha. apply in_app_or in Ha as [Ha | Ha].
    - split; [now apply Hlow|].
      apply (queue_narrow _ _ _ _ _ _ Hord (node, level) a); auto.
    - apply Hnew in Ha as [-> _]. lia. }
  assert (Hvisited : forall n, In n visited ->
            n <> node
            /\ exists l, dict_get levels n = Some l /\ 0 <= l /\ l <= level).
  { intros n Hn. split; [intros ->; contradiction|].
    destruct (visited_leveled _ _ _ _ _ _ Hord n Hn) as (l & Hl & H0 & Hall).
    exists l. split; [assumption|]. split; [assumption|].
    apply (Hall (node, level) Hhead). }
  constructor.
  - apply StronglySorted_append; [assumption | apply same_level_sorted|].
    intros x y Hx Hy. apply Hnew in Hy as [-> _].
    apply (queue_narrow _ _ _ _ _ _ Hord (node, level) x); auto.
  - intros a b Ha Hb. apply Hrange in Ha, Hb. lia.
  - intros a Ha. apply Hrange in Ha. lia.
  - intros n [<- | Hn].
    + exists level. rewrite dict_get_set_same. split; [reflexivity|].
      split; [assumption|]. intros a Ha. now apply Hrange in Ha.
    + destruct (Hvisited n Hn) as (Hne & l & Hl & H0 & Hle).
      exists l. rewrite dict_get_set_other by congruence.
      split; [assumption|]. split; [assumption|].
      intros a Ha. apply Hrange in Ha. lia.
  - intros u lu v Hu Hv Hc. rewrite dict_get_set in Hu.
    destruct (String.eqb_spec node u) as [<- | Hne].
    + injection Hu as <-.
      destruct (PyStr.mem v visited') eqn:Hm.
      * left. apply mem_In in Hm as [<- | Hm].
        -- exists level. rewrite dict_get_set_same. split; [reflexivity | lia].
        -- destruct (Hvisited v Hm) as (Hnv & l & Hl & _ & Hle).
           exists l. rewrite dict_get_set_other by congruence.
           split; [assumption | lia].
      * right. exists (level + 1). split; [|lia].
        apply in_or_app. right. unfold new_entries.
        apply in_map_iff. exists v. split; [reflexivity|].
        apply filter_In. split.
        -- unfold children.
           apply (Permutation_in _ (Permutation_sym (sort_descending_perm _ _))).
           exact Hv.
        -- now rewrite Hm, Hc.
    + destruct (children_bounded _ _ _ _ _ _ Hord u lu v Hu Hv Hc)
        as [(lv & Hlv & Hle) | (l & Hl & Hle)].
      * left. exists lv. split; [|assumption].
        rewrite dict_get_set_other; [assumption|]. intros <-. congruence.
      * rewrite Equeue in Hl. apply in_app_or in Hl as [Hl | [Hl | Hl]].
        -- assert (Hq : In (v, l) queue).
           { rewrite Equeue. apply in_or_app. now left. }
           apply Hskipped in Hl. cbn [fst] in Hl.
           destruct (visited_leveled _ _ _ _ _ _ Hord v Hl) as (lv & Hlv & _ & Hall).
           left. exists lv. split.
           ++ rewrite dict_get_set_other; [assumption|]. intros <-. congruence.
           ++ specialize (Hall (v, l) Hq). cbn [snd] in Hall. lia.
        -- injection Hl as <- <-. left. exists level.
           rewrite dict_get_set_same. split; [reflexivity | assumption].
        -- right. exists l. split; [|assumption]. apply in_or_app. now left.
  - intros r Hr.
    destruct (roots_first _ _ _ _ _ _ Hord r Hr) as [Hl | Hl].
    + left. rewrite dict_get_set_other; [assumption|]. intros <-. congruence.
    + assert (Hq : In (r, 0) queue) by assumption.
      rewrite Equeue in Hl. apply in_app_or in Hl as [Hl | [Hl | Hl]].
      * apply Hskipped in Hl. cbn [fst] in Hl.
        destruct (visited_leveled _ _ _ _ _ _ Hord r Hl) as (l & Hlr & H0 & Hall).
        specialize (Hall (r, 0) Hq). cbn [snd] in Hall.
        left. rewrite dict_get_set_other; [|intros <-; congruence].
        rewrite Hlr. f_equal. lia.
      * injection Hl as <- <-. left. apply dict_get_set_same.
      * right. apply in_or_app. now left.
Qed.

(** With enough fuel the first pass returns levels that are never
    negative and never fall by more than one along an edge. *)
Lemma bfs_loop_order fuel queue levels visited :
  bfs_invariant connected out roots queue levels visited ->
  bfs_order connected out roots queue levels visited ->
  (List.length connected <= fuel + List.length visited)%nat ->
  exists result,
    bfs_loop fuel nodes connected inc out queue levels visited = Some result
    /\ (forall n l, dict_get result n = Some l -> 0 <= l)
    /\ (forall u lu v,
          dict_get result u = Some lu -> In v (out u) ->
          dict_has connected v = true ->
          exists lv, dict_get result v = Some lv /\ lv <= lu + 1)
    /\ (forall r, In r roots -> dict_get result r = Some 0).
Proof.
  revert queue levels visited.
  assert (Hdone : forall queue levels visited,
            bfs_invariant connected out roots queue levels visited ->
            bfs_order connected out roots queue levels visited ->
            drop_visited visited queue = [] ->
            (forall n l, dict_get levels n = Some l -> 0 <= l)
            /\ (forall u lu v,
                  dict_get levels u = Some lu -> In v (out u) ->
                  dict_has connected v = true ->
                  exists lv, dict_get levels v = Some lv /\ lv <= lu + 1)
            /\ (forall r, In r roots -> dict_get levels r = Some 0)).
  { intros queue levels visited Hinv Hord Hdrop.
    destruct (drop_visited_split visited queue) as (skipped & Equeue & Hskipped).
    rewrite Hdrop, List.app_nil_r in Equeue. subst skipped. split; [|split].
    - intros n l Hn.
      pose proof (levels_visited _ _ _ _ _ _ Hinv n (dict_get_has _ _ _ Hn)) as Hv.
      destruct (visited_leveled _ _ _ _ _ _ Hord n Hv) as (l' & Hl' & H0 & _).
      congruence.
    - intros u lu v Hu Hv Hc.
      destruct (children_bounded _ _ _ _ _ _ Hord u lu v Hu Hv Hc)
        as [H | (l & Hl & Hle)]; [exact H|].
      pose proof (Hskipped _ Hl) as Hvis. cbn [fst] in Hvis.
      destruct (visited_leveled _ _ _ _ _ _ Hord v Hvis) as (lv & Hlv & _ & Hall).
      exists lv. split; [assumption|].
      specialize (Hall (v, l) Hl). cbn [snd] in Hall. lia.
    - intros r Hr.
      destruct (roots_first _ _ _ _ _ _ Hord r Hr) as [Hl | Hl]; [exact Hl|].
      pose proof (Hskipped _ Hl) as Hvis. cbn [fst] in Hvis.
      destruct (visited_leveled _ _ _ _ _ _ Hord r Hvis) as (l & Hlr & H0 & Hall).
      specialize (Hall (r, 0) Hl). cbn [snd] in Hall.
      rewrite Hlr. f_equal. lia. }
  induction fuel as [|fuel IH]; intros queue levels visited Hinv Hord Hfuel.
  - unfold bfs_loop.
    destruct (drop_visited visited queue) as [|[node level] queue'] eqn:Hdrop.
    + exists levels. split; [reflexivity|]. now apply Hdone with queue visited.
    + exfalso.
      destruct (bfs_visit_invariant nodes connected inc out roots
                  _ _ _ _ _ _ Hinv Hdrop) as [_ Hinv'].
      pose proof (NoDup_incl_length (visited_nodup _ _ _ _ _ _ Hinv')
                                    (visited_connected _ _ _ _ _ _ Hinv')) as H.
      unfold dict_keys in H. rewrite length_map in H. simpl in H, Hfuel. lia.
  - cbn [bfs_loop].
    destruct (drop_visited visited queue) as [|[node level] queue'] eqn:Hdrop.
    + exists levels. split; [reflexivity|]. now apply Hdone with queue visited.
    + destruct (bfs_visit_invariant nodes connected inc out roots
                  _ _ _ _ _ _ Hinv Hdrop) as [Hnone Hinv'].
      pose proof (bfs_visit_order _ _ _ _ _ _ Hinv Hord Hdrop) as Hord'.
      rewrite Hnone. apply IH; [exact Hinv' | exact Hord' | simpl; lia].
Qed.

Hypothesis roots_connected : incl roots (dict_keys connected).

Lemma bfs_initial_order :
  bfs_order connected out roots (map (fun root => (root, 0)) roots) [] [].
Proof.
  constructor.
  - apply same_level_sorted.
  - intros a b Ha Hb. apply in_map_iff in Ha as (x & <- & _).
    apply in_map_iff in Hb as (y & <- & _). simpl. lia.
  - intros a Ha. apply in_map_iff in Ha as (x & <- & _). simpl. lia.
  - intros n [].
  - intros u lu v Hu. discriminate.
  - intros r Hr. right. apply in_map_iff. exists r. auto.
Qed.

Lemma bfs_levels_order :
  (forall n l, dict_get (bfs_levels nodes connected inc out roots) n = Some l ->
               0 <= l)
  /\ (forall u lu v,
        dict_get (bfs_levels nodes connected inc out roots) u = Some lu ->
        In v (out u) -> dict_has connected v = true ->
        exists lv, dict_get (bfs_levels nodes connected inc out roots) v = Some lv
                   /\ lv <= lu + 1)
  /\ (forall r, In r roots ->
        dict_get (bfs_levels nodes connected inc out roots) r = Some 0).
Proof.
  destruct (bfs_loop_order (List.length connected) _ _ _
              (bfs_initial_invariant connected out roots roots_connected)
              bfs_initial_order)
    as (result & Hrun & Hnonneg & Hspan & Hroots); [simpl; lia|].
  unfold bfs_levels. rewrite Hrun. repeat split; assumption.
Qed.
End FirstPassOrder.

(** X21: after the first pass no level is negative, and an edge of the
    graph never falls by more than one level: the target of an edge whose
    source has a level has a level too, at most one below the source's. *)
Theorem first_pass_edges_span_one_level (nodes : dict string)
    (edges : list edge) (u v : string) (lu : Z) :
  dict_get (first_pass_levels nodes edges) u = Some lu ->
  In (u, v) edges -> dict_has nodes v = true ->
  0 <= lu
  /\ exists lv, dict_get (first_pass_levels nodes edges) v = Some lv
                /\ 0 <= lv <= lu + 1.
Proof.
  intros Hu Hin Hv.
  destruct (bfs_levels_order nodes (layout_connected nodes edges)
              (incoming nodes edges) (outgoing nodes edges)
              (layout_roots nodes edges) (select_roots_connected _ _ _))
    as (Hnonneg & Hspan & _).
  fold (first_pass_levels nodes edges) in Hnonneg, Hspan.
  split; [now apply Hnonneg with u|].
  assert (Hnu : dict_has nodes u = true).
  { apply dict_has_In_keys.
    apply (connected_keys nodes edges), first_pass_keys.
    now apply dict_get_has in Hu. }
  destruct (edge_endpoints_connected nodes edges u v Hin Hnu Hv) as [_ Hcv].
  destruct (Hspan u lu v Hu) as (lv & Hlv & Hle).
  - unfold outgoing. apply in_map_iff. exists (u, v). split; [reflexivity|].
    apply filter_In. split; [|apply String.eqb_refl].
    unfold valid_edges. apply filter_In. split; [assumption|].
    cbn [fst snd]. now rewrite Hnu, Hv.
  - now apply dict_has_In_keys.
  - exists lv. split; [assumption|]. split; [now apply Hnonneg with v | assumption].
Qed.

Lemma first_pass_edges_span_one_level_witness :
  0 <= 1
  /\ exists lv,
       dict_get (first_pass_levels triangle_nodes triangle_edges) "node-2"
       = Some lv
       /\ 0 <= lv <= 1 + 1.
Proof.
  apply (first_pass_edges_span_one_level triangle_nodes triangle_edges
           "node-3" "node-2" 1).
  - vm_compute. reflexivity.
  - simpl. auto.
  - reflexivity.
Defined.

(** X24: after the first pass the nodes of level 0 are exactly the roots. *)
Theorem level_zero_is_root (nodes : dict string) (edges : list edge)
    (n : string) :
  dict_get (first_pass_levels nodes edges) n = Some 0
  <-> In n (layout_roots nodes edges).
Proof.
  destruct (bfs_levels_order nodes (layout_connected nodes edges)
              (incoming nodes edges) (outgoing nodes edges)
              (layout_roots nodes edges) (select_roots_connected _ _ _))
    as (Hnonneg & _ & Hroots).
  fold (first_pass_levels nodes edges) in Hnonneg, Hroots.
  split; [|apply Hroots].
  intros Hn. destruct (first_pass_invariant nodes edges) as (visited & Hinv).
  destruct (levels_reached _ _ _ _ _ _ Hinv n 0 Hn) as [[Hr _] | (u & _ & Hu)];
    [exact Hr|].
  apply Hnonneg in Hu. lia.
Qed.

(** ** The order within a level and within the side grid *)

Lemma string_compare_trans_le s1 s2 s3 :
  String.compare s1 s2 <> Gt -> String.compare s2 s3 <> Gt ->
  String.compare s1 s3 <> Gt.
Proof.
  revert s2 s3. induction s1 as [|c1 s1 IH]; intros [|c2 s2] [|c3 s3]; simpl;
    try congruence.
  unfold Ascii.compare.
  destruct (N.compare_spec (N_of_ascii c1) (N_of_ascii c2)),
           (N.compare_spec (N_of_ascii c2) (N_of_ascii c3)),
           (N.compare_spec (N_of_ascii c1) (N_of_ascii c3));
    try congruence; try lia; eauto.
Qed.

Lemma string_leb_trans s1 s2 s3 :
  String.leb s1 s2 = true -> String.leb s2 s3 = true -> String.leb s1 s3 = true.
Proof.
  unfold String.leb. intros H1 H2.
  pose proof (string_compare_trans_le s1 s2 s3) as H.
  destruct (String.compare s1 s2), (String.compare s2 s3),
           (String.compare s1 s3);
    try discriminate; try reflexivity; exfalso; apply H; congruence.
Qed.

Lemma lex_compare_eq a b : lex_compare a b = Eq -> a = b.
Proof.
  revert b. induction a as [|x a IH]; intros [|y b]; simpl; try congruence.
  destruct (Z.compare_spec x y) as [E | E | E]; try congruence.
  intros Hc. subst. f_equal. now apply IH.
Qed.

Lemma lex_compare_refl a : lex_compare a a = Eq.
Proof.
  induction a as [|x a IH]; simpl; [reflexivity|]. now rewrite Z.compare_refl.
Qed.

Lemma keyed_leb_total a b : keyed_leb a b = false -> keyed_leb b a = true.
Proof.
  unfold keyed_leb. rewrite (lex_compare_antisym (fst a) (fst b)).
  destruct (lex_compare (fst a) (fst b)); simpl; try congruence.
  intros H. destruct (String.leb_total (snd a) (snd b)); congruence.
Qed.

Lemma keyed_leb_trans a b c :
  keyed_leb a b = true -> keyed_leb b c = true -> keyed_leb a c = true.
Proof.
  unfold keyed_leb.
  destruct (lex_compare (fst a) (fst b)) eqn:Eab; try discriminate.
  - apply lex_compare_eq in Eab. rewrite Eab.
    destruct (lex_compare (fst b) (fst c)); try discriminate; auto.
    apply string_leb_trans.
  - intros _.
    destruct (lex_compare (fst b) (fst c)) eqn:Ebc; try discriminate.
    + apply lex_compare_eq in Ebc. rewrite <- Ebc, Eab. reflexivity.
    + intros _.
      pose proof (lex_compare_trans_le (fst a) (fst b) (fst c)) as Hle.
      destruct (lex_compare (fst a) (fst c)) eqn:Eac; [|reflexivity|].
      * apply lex_compare_eq in Eac. rewrite Eac in Eab.
        rewrite (lex_compare_antisym (fst b) (fst c)), Ebc in Eab. discriminate.
      * exfalso. apply Hle; congruence.
Qed.

Lemma keyed_sorted {A : Type} (key : A -> list Z * string) (l : list A) :
  StronglySorted (fun x y => keyed_leb (key x) (key y) = true)
                 (stable_sort (fun x y => keyed_leb (key x) (key y)) l).
Proof.
  apply (stable_sort_strongly (fun x y => keyed_leb (key x) (key y))).
  - intros x y. apply keyed_leb_total.
  - intros x y z. apply keyed_leb_trans.
Qed.

Lemma sorted_nth_order {A : Type} (R : A -> A -> Prop) l i j x y :
  StronglySorted R l ->
  nth_error l i = Some x -> nth_error l j = Some y -> (i < j)%nat -> R x y.
Proof.
  intros Hs. revert i j. induction Hs as [|a l Hs IH Hall]; intros i j Hi Hj Hlt.
  - destruct i; discriminate.
  - destruct j as [|j]; [lia|]. simpl in Hj.
    destruct i as [|i]; simpl in Hi.
    + injection Hi as <-. rewrite Forall_forall in Hall.
      apply Hall. now apply nth_error_In with j.
    + apply (IH i j); [assumption | assumption | lia].
Qed.

(** In a list sorted by a key, an element whose integer key is smaller
    stands before the other *)
Lemma keyed_index_order {A : Type} (key : A -> list Z * string) l i j x y :
  nth_error (stable_sort (fun x y => keyed_leb (key x) (key y)) l) i = Some x ->
  nth_error (stable_sort (fun x y => keyed_leb (key x) (key y)) l) j = Some y ->
  lex_compare (fst (key x)) (fst (key y)) = Lt ->
  (i < j)%nat.
Proof.
  intros Hi Hj Hlt.
  destruct (Nat.lt_total i j) as [H | [H | H]]; [assumption | exfalso | exfalso].
  - subst j. assert (x = y) by congruence. subst y.
    rewrite lex_compare_refl in Hlt. discriminate.
  - pose proof (sorted_nth_order _ _ j i y x (keyed_sorted key l) Hj Hi H) as Hle.
    cbv beta in Hle. unfold keyed_leb in Hle.
    rewrite (lex_compare_antisym (fst (key x)) (fst (key y))), Hlt in Hle.
    discriminate.
Qed.

Lemma node_spacing_positive count mgw bns :
  280 <= bns -> 280 <= node_spacing_of count mgw bns.
Proof.
  intros H. unfold node_spacing_of.
  destruct (12 <? count); [lia|].
  destruct (8 <? count); [lia|].
  destruct (4 <? count); lia.
Qed.

(** X22: within a rank the nodes stand from left to right in the order of
    their sort key: a node whose key (minus the execution priority, minus
    the out-degree, minus the in-degree, category order) is smaller than
    another's stands to its left, at the same height.  In particular the
    node of higher execution priority stands further left. *)
Theorem level_order_left_to_right (nodes : dict string) (edges : list edge)
    (n m : string) (r : rank) (p q : position) :
  let lay := calculate_hierarchical_layout nodes edges in
  let key :=
    level_node_key nodes (incoming nodes edges) (outgoing nodes edges) in
  dict_get (final_ranks nodes edges) n = Some r ->
  dict_get (final_ranks nodes edges) m = Some r ->
  dict_get (positions lay) n = Some p ->
  dict_get (positions lay) m = Some q ->
  lex_compare (fst (key n)) (fst (key m)) = Lt ->
  pos_x p < pos_x q /\ pos_y2 p = pos_y2 q.
Proof.
  intros lay key Hn Hm Hp Hq Hlt. subst lay.
  destruct (ranked_position nodes edges n r p Hn Hp) as (Hyn & jn & Hjn & Hxn).
  destruct (ranked_position nodes edges m r q Hm Hq) as (Hym & jm & Hjm & Hxm).
  split; [|congruence].
  unfold level_order in Hjn, Hjm.
  pose proof (keyed_index_order key _ jn jm n m Hjn Hjm Hlt) as Hj.
  destruct (layout_spacing_facts nodes edges) as ([Hbns _] & _).
  pose proof (node_spacing_positive
                (lenZ (groups_get (layout_groups nodes edges) r))
                (layout_main_width nodes edges)
                (layout_base_spacing nodes edges) Hbns) as Hns.
  rewrite Hxn, Hxm. unfold slot_x.
  set (ns := node_spacing_of _ _ _) in *.
  assert (Z.of_nat jn + 1 <= Z.of_nat jm) by lia. nia.
Qed.

Lemma level_order_left_to_right_witness :
  exists p q,
    dict_get (positions (calculate_hierarchical_layout cleanup_nodes
                                                       cleanup_edges))
             "node-5" = Some p
    /\ dict_get (positions (calculate_hierarchical_layout cleanup_nodes
                                                          cleanup_edges))
                "node-3" = Some q
    /\ pos_x p < pos_x q /\ pos_y2 p = pos_y2 q.
Proof.
  exists {| pos_x := 360; pos_y2 := 1280 |}, {| pos_x := 720; pos_y2 := 1280 |}.
  split; [vm_compute; reflexivity|]. split; [vm_compute; reflexivity|].
  apply (level_order_left_to_right cleanup_nodes cleanup_edges
           "node-5" "node-3" 4); vm_compute; reflexivity.
Defined.

(** X23: the isolated nodes fill the side grid row by row in the order of
    their priority class: an isolated node of a smaller class number than
    another's stands in an earlier row, or in the same row further left. *)
Theorem isolated_order_row_by_row (nodes : dict string) (edges : list edge)
    (n m : string) (p q : position) :
  let lay := calculate_hierarchical_layout nodes edges in
  let isolated :=
    isolated_nodes nodes (incoming nodes edges) (outgoing nodes edges) in
  In n isolated -> In m isolated ->
  dict_get (positions lay) n = Some p ->
  dict_get (positions lay) m = Some q ->
  lex_compare (fst (get_isolated_node_priority nodes n))
              (fst (get_isolated_node_priority nodes m)) = Lt ->
  pos_y2 p < pos_y2 q \/ (pos_y2 p = pos_y2 q /\ pos_x p < pos_x q).
Proof.
  intros lay isolated Hn Hm Hp Hq Hlt. subst lay isolated.
  destruct (isolated_position nodes edges n p Hn Hp) as (jn & Hjn & Hxn & Hyn).
  destruct (isolated_position nodes edges m q Hm Hq) as (jm & Hjm & Hxm & Hym).
  unfold isolated_order in Hjn, Hjm.
  pose proof (keyed_index_order (get_isolated_node_priority nodes)
                _ jn jm n m Hjn Hjm Hlt) as Hj.
  pose proof (isolated_columns_bounds (lenZ (layout_isolated nodes edges)))
    as [Hcols _].
  set (cols := fst (isolated_columns (lenZ (layout_isolated nodes edges)))) in *.
  pose proof (max_width_of_nonneg nodes (layout_isolated nodes edges)) as Hw.
  fold (layout_max_width nodes edges) in Hw.
  assert (Hh : 0 <= layout_max_height nodes edges).
  { unfold layout_max_height, max_height_of.
    apply (fold_max_bounds
             (fun kv => snd (snd (node_size_of (layout_isolated nodes edges) kv)))). }
  pose proof (Z.div_mod (Z.of_nat jn) cols) as Hdn.
  pose proof (Z.div_mod (Z.of_nat jm) cols) as Hdm.
  pose proof (Z.mod_pos_bound (Z.of_nat jn) cols Hcols) as Hmn.
  pose proof (Z.mod_pos_bound (Z.of_nat jm) cols Hcols) as Hmm.
  assert (Hdiv : Z.of_nat jn / cols <= Z.of_nat jm / cols)
    by (apply Z.div_le_mono; lia).
  set (rown := Z.of_nat jn / cols) in *. set (coln := Z.of_nat jn mod cols) in *.
  set (rowm := Z.of_nat jm / cols) in *. set (colm := Z.of_nat jm mod cols) in *.
  rewrite Hxn, Hxm, Hyn, Hym.
  destruct (Z.eq_dec rown rowm) as [E | Hne].
  - right. rewrite E. split; [reflexivity|].
    assert (coln + 1 <= colm) by (rewrite E in Hdn; lia). nia.
  - left. assert (rown + 1 <= rowm) by lia. nia.
Qed.

Lemma isolated_order_row_by_row_witness :
  exists p q,
    dict_get (positions (calculate_hierarchical_layout stray_nodes cleanup_edges))
             "node-8" = Some p
    /\ dict_get (positions (calculate_hierarchical_layout stray_nodes
                                                          cleanup_edges))
                "node-7" = Some q
    /\ (pos_y2 p < pos_y2 q \/ (pos_y2 p = pos_y2 q /\ pos_x p < pos_x q)).
Proof.
  destruct (dict_get (positions (calculate_hierarchical_layout stray_nodes
                                                               cleanup_edges))
                     "node-8") as [p|] eqn:Hp;
    [|vm_compute in Hp; discriminate].
  destruct (dict_get (positions (calculate_hierarchical_layout stray_nodes
                                                               cleanup_edges))
                     "node-7") as [q|] eqn:Hq;
    [|vm_compute in Hq; discriminate].
  exists p, q. split; [reflexivity|]. split; [reflexivity|].
  apply (isolated_order_row_by_row stray_nodes cleanup_edges "node-8" "node-7");
    try assumption; try (vm_compute; reflexivity); vm_compute; tauto.
Defined.

(** ** Waypoints of same-level edges *)



Section LateralWaypoints.
Variables (nodes : dict string) (edges : list edge).
Hypothesis nodes_nodup : NoDup (dict_keys nodes).
Hypothesis labels_short :
  forall n label, dict_get nodes n = Some label ->
                  (String.length label <= 25)%nat.

Local Abbreviation lay := (calculate_hierarchical_layout nodes edges).


End LateralWaypoints.



(** ** Levels and coordinates are never negative *)

Lemma max_list_nonneg l : (forall x, In x l -> 0 <= x) -> 0 <= max_list 0 l.
Proof.
  intros H. destruct l as [|a l]; [simpl; lia|].
  pose proof (max_list_bound 0 (a :: l) a (or_introl eq_refl)).
  specialize (H a (or_introl eq_refl)). lia.
Qed.

Lemma refine_errors_nonneg levels connected inc :
  (forall n, 0 <= level_of levels n) ->
  forall n, 0 <= level_of (refine_errors levels connected inc) n.
Proof.
  intros H n. unfold refine_errors.
  destruct (function_group_nodes connected Error) as [|e es]; [apply H|].
  match goal with
  | |- 0 <= level_of (fold_left (pull_error inc ?t) ?l levels) n =>
      destruct (pull_errors_values inc t l levels n) as [E | [E _]];
      cbv zeta in E; rewrite E
  end; [apply H | lia].
Qed.

Lemma refine_cleanups_nonneg levels connected inc :
  (forall n, 0 <= level_of levels n) ->
  forall n, 0 <= level_of (refine_cleanups levels connected inc) n.
Proof.
  intros H n. unfold refine_cleanups.
  destruct (function_group_nodes connected Cleanup) as [|c cs]; [apply H|].
  etransitivity; [apply (H n) | apply pull_cleanups_mono].
Qed.

Lemma assign_remaining_nonneg levels connected inc :
  (forall n, 0 <= level_of levels n) ->
  forall n, 0 <= level_of (assign_remaining levels connected inc) n.
Proof.
  unfold assign_remaining. generalize (dict_keys connected) as todo.
  intros todo. revert levels.
  induction todo as [|m todo IH]; intros levels H; cbn [fold_left]; [exact H|].
  apply IH. intros n. unfold assign_remaining_node.
  destruct (dict_has levels m); [apply H|].
  destruct (inc m) as [|parent parents] eqn:E; rewrite level_of_set;
    destruct (String.eqb m n); try apply H; [lia|].
  assert (0 <= max_list 0 (map (level_of levels) (parent :: parents))); [|lia].
  apply max_list_nonneg. intros x Hx.
  apply in_map_iff in Hx as (y & <- & _). apply H.
Qed.

Section NonNegative.
Variables (nodes : dict string) (edges : list edge).

Lemma first_pass_nonneg n : 0 <= level_of (first_pass_levels nodes edges) n.
Proof.
  destruct (bfs_levels_order nodes (layout_connected nodes edges)
              (incoming nodes edges) (outgoing nodes edges)
              (layout_roots nodes edges) (select_roots_connected _ _ _))
    as (Hnonneg & _).
  fold (first_pass_levels nodes edges) in Hnonneg.
  unfold level_of, dict_get_default.
  destruct (dict_get (first_pass_levels nodes edges) n) as [l|] eqn:E; [|lia].
  now apply Hnonneg with n.
Qed.

Lemma assign_levels_nonneg n l :
  dict_get (assign_levels nodes edges) n = Some l -> 0 <= l.
Proof.
  intros H. apply level_of_get in H. rewrite <- H.
  rewrite assign_levels_unfold.
  apply assign_remaining_nonneg. unfold second_pass_levels,
    refine_levels_by_function_type.
  apply refine_cleanups_nonneg, refine_errors_nonneg, first_pass_nonneg.
Qed.

Lemma final_ranks_nonneg n r :
  dict_get (final_ranks nodes edges) n = Some r -> 0 <= r.
Proof.
  intros H. pose proof (final_ranks_invariant nodes edges) as Hinv.
  pose proof (ranked_original _ _ _ _ Hinv n (dict_get_has _ _ _ H)) as Hl.
  unfold dict_has in Hl.
  destruct (dict_get (assign_levels nodes edges) n) as [l|] eqn:El;
    [|discriminate].
  pose proof (assign_levels_nonneg n l El) as Hl0.
  destruct (rank_of_original _ _ _ _ Hinv n l El) as [E | E];
    rewrite E in H; injection H as <-; unfold half_above, rank_of_level; lia.
Qed.
End NonNegative.

(** X26: no level, rank or coordinate is ever negative, and every box
    keeps the margins: the levels of all connected nodes and their final
    ranks are at least 0, and every position has x and y at least 200. *)
Theorem boxes_within_margins (nodes : dict string) (edges : list edge)
    (n : string) (p : position) :
  dict_get (positions (calculate_hierarchical_layout nodes edges)) n = Some p ->
  200 <= pos_x p /\ 2 * 200 <= pos_y2 p
  /\ (forall l, dict_get (assign_levels nodes edges) n = Some l -> 0 <= l)
  /\ (forall r, dict_get (final_ranks nodes edges) n = Some r -> 0 <= r).
Proof.
  intros Hp.
  assert (Hpos : 200 <= pos_x p /\ 2 * 200 <= pos_y2 p).
  { destruct (layout_spacing_facts nodes edges) as ([Hbns _] & _ & Hls & _).
    destruct (placed_cases nodes edges n p Hp) as [[Hr _] | Hi].
    - unfold dict_has in Hr.
      destruct (dict_get (final_ranks nodes edges) n) as [r|] eqn:Er;
        [|discriminate].
      pose proof (final_ranks_nonneg nodes edges n r Er) as Hr0.
      destruct (ranked_position nodes edges n r p Er Hp) as (Hy & j & _ & Hx).
      pose proof (node_spacing_positive
                    (lenZ (groups_get (layout_groups nodes edges) r))
                    (layout_main_width nodes edges)
                    (layout_base_spacing nodes edges) Hbns) as Hns.
      rewrite Hx, Hy. unfold slot_x. split; nia.
    - pose proof (isolated_beyond nodes edges n p Hi Hp) as Hx.
      destruct (isolated_position nodes edges n p Hi Hp) as (j & _ & _ & Hy).
      pose proof (main_graph_width_bound (lenZ nodes)
                    (max_nodes_in_level (layout_groups nodes edges))
                    (layout_base_spacing nodes edges)) as Hmgw.
      fold (layout_main_width nodes edges) in Hmgw.
      assert (Hm : 0 <= max_nodes_in_level (layout_groups nodes edges)).
      { unfold max_nodes_in_level.
        destruct (layout_groups nodes edges) as [|g gs]; [lia|].
        apply max_list_nonneg. intros x Hx0.
        apply in_map_iff in Hx0 as (y & <- & _). unfold lenZ. lia. }
      pose proof (isolated_columns_bounds (lenZ (layout_isolated nodes edges)))
        as [Hcols _].
      assert (Hrow : 0 <= Z.of_nat j
                          / fst (isolated_columns
                                   (lenZ (layout_isolated nodes edges))))
        by (apply Z.div_pos; lia).
      assert (Hh : 0 <= layout_max_height nodes edges).
      { unfold layout_max_height, max_height_of.
        apply (fold_max_bounds
                 (fun kv => snd (snd (node_size_of
                                        (layout_isolated nodes edges) kv)))). }
      split; [nia|]. rewrite Hy. nia. }
  destruct Hpos as [Hx Hy]. split; [exact Hx|]. split; [exact Hy|].
  split.
  - intros l. apply assign_levels_nonneg.
  - intros r. apply final_ranks_nonneg.
Qed.

Lemma boxes_within_margins_witness :
  200 <= 360 /\ 2 * 200 <= 1280
  /\ (forall l, dict_get (assign_levels cleanup_nodes cleanup_edges) "node-5"
                = Some l -> 0 <= l)
  /\ (forall r, dict_get (final_ranks cleanup_nodes cleanup_edges) "node-5"
                = Some r -> 0 <= r).
Proof.
  apply (boxes_within_margins cleanup_nodes cleanup_edges "node-5"
           {| pos_x := 360; pos_y2 := 1280 |}).
  vm_compute. reflexivity.
Defined.

(** ** Reading a document a second time *)

Lemma clean_label_stable j k label :
  label <> EmptyString -> cleaned_form label <> EmptyString ->
  clean_node_label j label = clean_node_label k label.
Proof.
  intros Hl Hc. unfold clean_node_label, finish_label.
  destruct (String.eqb_spec label EmptyString); [contradiction|].
  destruct (String.eqb_spec (cleaned_form label) EmptyString);
    [contradiction | reflexivity].
Qed.

Lemma dict_get_app_some {V : Type} (d d' : dict V) k v :
  dict_get d k = Some v -> dict_get (d ++ d')%list k = Some v.
Proof.
  induction d as [|[k0 v0] d IH]; simpl; [discriminate|].
  destruct (String.eqb k0 k); auto.
Qed.

Lemma dict_get_app_none {V : Type} (d d' : dict V) k :
  dict_get d k = None -> dict_get (d ++ d')%list k = dict_get d' k.
Proof.
  induction d as [|[k0 v0] d IH]; simpl; [reflexivity|].
  destruct (String.eqb k0 k); [discriminate | auto].
Qed.

Lemma dict_set_same_value {V : Type} (d : dict V) k v :
  dict_get d k = Some v -> dict_set d k v = d.
Proof.
  induction d as [|[k0 v0] d IH]; simpl; [discriminate|].
  destruct (String.eqb_spec k0 k) as [-> | Hne].
  - now intros [= ->].
  - intros H. now rewrite IH.
Qed.

Lemma first_similar_app label d d' id :
  first_similar label d = Some id ->
  first_similar label (d ++ d')%list = Some id.
Proof.
  induction d as [|[l id0] d IH]; simpl; [discriminate|].
  destruct (are_labels_similar label l); auto.
Qed.

Lemma first_similar_found label d id :
  first_similar label d = Some id ->
  exists l, In (l, id) d /\ are_labels_similar label l = true.
Proof.
  induction d as [|[l id0] d IH]; simpl; [discriminate|].
  destruct (are_labels_similar label l) eqn:E.
  - intros [= ->]. exists l. split; [now left | assumption].
  - intros H. destruct (IH H) as (l' & Hl & Hs). exists l'. split; auto.
Qed.

Lemma ForallOrdPairs_app_cross {A : Type} (R : A -> A -> Prop) l1 l2 x y :
  ForallOrdPairs R (l1 ++ l2)%list -> In x l1 -> In y l2 -> R x y.
Proof.
  induction l1 as [|a l1 IH]; simpl; [intros _ []|].
  intros H. inversion H as [|? ? Ha Hl]; subst.
  intros [<- | Hx] Hy; [|now apply IH].
  rewrite Forall_forall in Ha. apply Ha, in_or_app. now right.
Qed.

(** The node that a label is merged into stays the same while the label
    table grows *)
Lemma canonical_extends c cf label id more :
  find_similar_node c label = Some id ->
  label_to_simple cf = (label_to_simple c ++ more)%list ->
  ingest_invariant cf ->
  find_similar_node cf label = Some id.
Proof.
  unfold find_similar_node. intros Hfind Hgrow Hinv. rewrite Hgrow.
  destruct (dict_get (label_to_simple c) label) as [id0|] eqn:E.
  - injection Hfind as ->. now rewrite (dict_get_app_some _ _ _ _ E).
  - rewrite (dict_get_app_none _ _ _ E).
    destruct (dict_get more label) as [id2|] eqn:E2.
    + exfalso. apply first_similar_found in Hfind as (l0 & Hl0 & Hsim).
      apply dict_get_In in E2.
      pose proof (labels_dissimilar cf Hinv) as Hd. rewrite Hgrow in Hd.
      pose proof (ForallOrdPairs_app_cross _ _ _ _ _ Hd Hl0 E2) as Hno.
      cbn [fst] in Hno. congruence.
    + now apply first_similar_app.
Qed.

Lemma scoped_id_inj basename a b :
  scoped_id basename a = scoped_id basename b -> a = b.
Proof.
  unfold scoped_id. induction basename as [|c s IH]; simpl.
  - now intros [= H].
  - intros [= H]. auto.
Qed.

Section Reingest.
Variable basename : string.

Local Abbreviation key_of m := (scoped_id basename (match_original_id m)).

Local Abbreviation inadmissible label :=
  (negb (truthy label) || PyStr.mem (PyStr.lower label) reserved_labels).

(** What one round of the node loop does *)
Lemma ingest_node_cases c P m :
  ingest_invariant c ->
  let label := clean_node_label (node_counter c) (match_label m) in
  (PyStr.mem (key_of m) P = true /\ ingest_node basename (c, P) m = (c, P))
  \/ (PyStr.mem (key_of m) P = false /\ inadmissible label = true
      /\ ingest_node basename (c, P) m = (c, key_of m :: P))
  \/ (PyStr.mem (key_of m) P = false /\ inadmissible label = false
      /\ exists c1 id more,
           ingest_node basename (c, P) m = (c1, key_of m :: P)
           /\ find_similar_node c1 label = Some id
           /\ truthy id = true
           /\ label_to_simple c1 = (label_to_simple c ++ more)%list
           /\ original_to_simple c1
              = dict_set (dict_set (original_to_simple c) (key_of m) id)
                         (match_original_id m) id).
Proof.
  intros Hinv label. unfold ingest_node. fold label.
  destruct (PyStr.mem (key_of m) P) eqn:Hmem; [left; auto | right].
  destruct (inadmissible label) eqn:Hbad; [left; auto | right].
  split; [reflexivity|]. split; [reflexivity|].
  destruct (find_similar_node c label) as [id|] eqn:Hsim.
  - pose proof Hsim as Hfound.
    apply find_similar_node_some in Hfound as (l & Hl).
    destruct (known_id c l id Hinv Hl) as [_ Htruthy]. rewrite Htruthy.
    eexists. exists id, []. split; [reflexivity|].
    cbn [label_to_simple original_to_simple].
    split; [exact Hsim|]. split; [exact Htruthy|].
    split; [now rewrite List.app_nil_r | reflexivity].
  - apply find_similar_node_none in Hsim as [Hnew _].
    unfold mint_node. fold (node_id (node_counter c)).
    eexists. exists (node_id (node_counter c)), [(label, node_id (node_counter c))].
    split; [reflexivity|].
    cbn [label_to_simple original_to_simple node_counter].
    split.
    + unfold find_similar_node. cbn [label_to_simple].
      now rewrite dict_get_set_same.
    + split; [apply node_id_truthy|].
      split; [now apply dict_set_append | reflexivity].
Qed.

Lemma ingest_node_fst_invariant c P m :
  ingest_invariant c -> ingest_invariant (fst (ingest_node basename (c, P) m)).
Proof. apply (ingest_node_invariant basename (c, P) m). Qed.

(** The label table only grows at its end *)
Lemma ingest_nodes_grow ms c P :
  ingest_invariant c ->
  exists more,
    label_to_simple (fst (fold_left (ingest_node basename) ms (c, P)))
    = (label_to_simple c ++ more)%list.
Proof.
  revert c P. induction ms as [|m ms IH]; intros c P Hinv; cbn [fold_left].
  - exists []. now rewrite List.app_nil_r.
  - pose proof (ingest_node_fst_invariant c P m Hinv) as Hinv1.
    destruct (ingest_node_cases c P m Hinv)
      as [[_ E] | [(_ & _ & E) | (_ & _ & c1 & id & more & E & _ & _ & Hg & _)]];
      rewrite E in *; cbn [fst] in Hinv1.
    + now apply IH.
    + now apply IH.
    + destruct (IH c1 (key_of m :: P) Hinv1) as (more' & Hm).
      exists (more ++ more')%list. now rewrite Hm, Hg, List.app_assoc.
Qed.

(** An alias that no later node statement writes is kept *)
Lemma ingest_nodes_frame ms c P k :
  ingest_invariant c ->
  (forall m, In m ms ->
     PyStr.mem (key_of m) P = true
     \/ (k <> key_of m /\ k <> match_original_id m)) ->
  dict_get (original_to_simple
              (fst (fold_left (ingest_node basename) ms (c, P)))) k
  = dict_get (original_to_simple c) k.
Proof.
  revert c P. induction ms as [|m ms IH]; intros c P Hinv Hk; cbn [fold_left];
    [reflexivity|].
  pose proof (ingest_node_fst_invariant c P m Hinv) as Hinv1.
  assert (Hrest : forall P', (forall x, PyStr.mem x P = true ->
                                        PyStr.mem x P' = true) ->
            forall m', In m' ms ->
              PyStr.mem (key_of m') P' = true
              \/ (k <> key_of m' /\ k <> match_original_id m')).
  { intros P' Hmono m' Hm'. destruct (Hk m' (or_intror Hm')) as [H | H]; auto. }
  assert (Hcons : forall x, PyStr.mem x P = true ->
                            PyStr.mem x (key_of m :: P) = true).
  { intros x Hx. apply mem_In. right. now apply mem_In. }
  destruct (ingest_node_cases c P m Hinv)
    as [[_ E] | [(_ & _ & E) | (Hmem & _ & c1 & id & more & E & _ & _ & _ & Ho)]];
    rewrite E in *; cbn [fst] in Hinv1.
  - apply IH; [assumption | apply Hrest; auto].
  - apply IH; [assumption | apply Hrest; exact Hcons].
  - rewrite IH; [|assumption | apply Hrest; exact Hcons].
    destruct (Hk m (or_introl eq_refl)) as [H | [H1 H2]]; [congruence|].
    rewrite Ho, !dict_get_set_other; auto.
Qed.

(** A node statement that is read again changes nothing when its label is
    already settled and its aliases are in place *)
Lemma ingest_node_again cf P m id :
  PyStr.mem (key_of m) P = false ->
  inadmissible (clean_node_label (node_counter cf) (match_label m)) = false ->
  find_similar_node cf (clean_node_label (node_counter cf) (match_label m))
  = Some id ->
  truthy id = true ->
  dict_get (original_to_simple cf) (key_of m) = Some id ->
  dict_get (original_to_simple cf) (match_original_id m) = Some id ->
  ingest_node basename (cf, P) m = (cf, key_of m :: P).
Proof.
  intros Hmem Hok Hfind Htruthy Hkey Horig. unfold ingest_node.
  rewrite Hmem, Hok, Hfind, Htruthy.
  rewrite (dict_set_same_value _ _ _ Hkey), (dict_set_same_value _ _ _ Horig).
  now destruct cf.
Qed.

Lemma ingest_nodes_again ms :
  forall c P cf,
    ingest_invariant c -> ingest_invariant cf ->
    (forall m, In m ms ->
       match_label m <> EmptyString
       /\ cleaned_form (match_label m) <> EmptyString) ->
    (forall m m', In m ms -> In m' ms ->
       match_original_id m <> key_of m') ->
    (exists more,
       label_to_simple cf
       = (label_to_simple (fst (fold_left (ingest_node basename) ms (c, P)))
          ++ more)%list) ->
    original_to_simple cf
    = original_to_simple (fst (fold_left (ingest_node basename) ms (c, P))) ->
    fold_left (ingest_node basename) ms (cf, P)
    = (cf, snd (fold_left (ingest_node basename) ms (c, P))).
Proof.
  induction ms as [|m ms IH]; intros c P cf Hinv Hinvf Hplain Hids Hgrow Halias;
    cbn [fold_left] in *; [reflexivity|].
  pose proof (ingest_node_fst_invariant c P m Hinv) as Hinv1.
  destruct (Hplain m (or_introl eq_refl)) as [Hl Hc].
  pose proof (clean_label_stable (node_counter cf) (node_counter c)
                (match_label m) Hl Hc) as Hstable.
  assert (Hplain' : forall m', In m' ms ->
            match_label m' <> EmptyString
            /\ cleaned_form (match_label m') <> EmptyString)
    by (intros m' Hm'; apply Hplain; now right).
  assert (Hids' : forall m1 m2, In m1 ms -> In m2 ms ->
            match_original_id m1 <> key_of m2)
    by (intros m1 m2 H1 H2; apply Hids; now right).
  destruct (ingest_node_cases c P m Hinv)
    as [[Hmem E] | [(Hmem & Hbad & E)
                   | (Hmem & Hok & c1 & id & more1 & E & Hfind & Htruthy & Hg & Ho)]];
    rewrite E in *; cbn [fst] in Hinv1.
  - assert (E2 : ingest_node basename (cf, P) m = (cf, P)).
    { unfold ingest_node. now rewrite Hmem. }
    rewrite E2. now apply IH.
  - assert (E2 : ingest_node basename (cf, P) m = (cf, key_of m :: P)).
    { unfold ingest_node. now rewrite Hmem, Hstable, Hbad. }
    rewrite E2. now apply IH.
  - assert (E2 : ingest_node basename (cf, P) m = (cf, key_of m :: P)).
    { destruct (ingest_nodes_grow ms c1 (key_of m :: P) Hinv1) as (more2 & Hg2).
      destruct Hgrow as (more & Hgrow).
      assert (Hframe : forall k,
                (k = key_of m \/ k = match_original_id m) ->
                dict_get (original_to_simple cf) k = Some id).
      { intros k Hk. rewrite Halias.
        rewrite ingest_nodes_frame; [|assumption|].
        - rewrite Ho. destruct Hk as [-> | ->].
          + rewrite dict_get_set.
            destruct (String.eqb _ _); [reflexivity | apply dict_get_set_same].
          + apply dict_get_set_same.
        - intros m' Hm'.
          destruct (string_dec (match_original_id m') (match_original_id m))
            as [Esame | Hdiff].
          + left. apply mem_In. left. now rewrite Esame.
          + right. destruct Hk as [-> | ->]; split.
            * intros Heq. apply scoped_id_inj in Heq. congruence.
            * intros Heq. apply (Hids m' m); [now right | now left | now symmetry].
            * apply Hids; [now left | now right].
            * congruence. }
      apply ingest_node_again with id; auto.
      - now rewrite Hstable.
      - rewrite Hstable.
        apply (canonical_extends c1 cf _ id (more2 ++ more)%list);
          [assumption | | assumption].
        now rewrite Hgrow, Hg2, List.app_assoc. }
    rewrite E2. now apply IH.
Qed.

(** The edge loop *)
Lemma ingest_edge_cases c Q e :
  (ingest_edge basename (c, Q) e = (c, Q)
   /\ forall cf Qf,
        original_to_simple cf = original_to_simple c ->
        incl Q (all_edges cf) -> incl (all_edges c) (all_edges cf) ->
        ingest_edge basename (cf, Qf) e = (cf, Qf))
  \/ (exists edge,
        ingest_edge basename (c, Q) e
        = ({| label_to_simple := label_to_simple c;
              simple_to_label := simple_to_label c;
              all_edges := (all_edges c ++ [edge])%list;
              node_counter := node_counter c;
              original_to_simple := original_to_simple c;
              file_sources := file_sources c |}, edge :: Q)
        /\ forall cf Qf,
             original_to_simple cf = original_to_simple c ->
             In edge (all_edges cf) ->
             ingest_edge basename (cf, Qf) e = (cf, Qf)).
Proof.
  destruct e as [source_original target_original]. unfold ingest_edge.
  destruct (resolve (original_to_simple c) [_; source_original]) as [src|] eqn:Hs.
  2:{ left. split; [reflexivity|]. intros cf Qf Ho _ _. now rewrite Ho, Hs. }
  destruct (resolve (original_to_simple c) [_; target_original]) as [tgt|] eqn:Ht.
  2:{ left. split; [reflexivity|]. intros cf Qf Ho _ _. now rewrite Ho, Hs, Ht. }
  destruct (truthy src && truthy tgt && negb (String.eqb src tgt)) eqn:Hvalid.
  2:{ left. split; [reflexivity|]. intros cf Qf Ho _ _.
      now rewrite Ho, Hs, Ht, Hvalid. }
  destruct (negb (edge_in (src, tgt) Q) && negb (edge_in (src, tgt) (all_edges c)))
    eqn:Hnew.
  - right. exists (src, tgt). split; [reflexivity|].
    intros cf Qf Ho Hin. rewrite Ho, Hs, Ht, Hvalid.
    apply edge_in_In in Hin. rewrite Hin, andb_false_r. reflexivity.
  - left. split; [reflexivity|]. intros cf Qf Ho HQ Hall.
    rewrite Ho, Hs, Ht, Hvalid.
    assert (Hin : edge_in (src, tgt) (all_edges cf) = true).
    { apply edge_in_In. apply andb_false_iff in Hnew as [H | H];
        apply negb_false_iff, edge_in_In in H; auto. }
    rewrite Hin, andb_false_r. reflexivity.
Qed.

Lemma ingest_edges_keep es c Q :
  let r := fold_left (ingest_edge basename) es (c, Q) in
  incl (all_edges c) (all_edges (fst r))
  /\ label_to_simple (fst r) = label_to_simple c
  /\ original_to_simple (fst r) = original_to_simple c.
Proof.
  revert c Q. induction es as [|e es IH]; intros c Q; cbn [fold_left].
  - split; [apply incl_refl | split; reflexivity].
  - destruct (ingest_edge_cases c Q e) as [[E _] | (edge & E & _)]; rewrite E.
    + apply IH.
    + destruct (IH {| label_to_simple := label_to_simple c;
                      simple_to_label := simple_to_label c;
                      all_edges := (all_edges c ++ [edge])%list;
                      node_counter := node_counter c;
                      original_to_simple := original_to_simple c;
                      file_sources := file_sources c |} (edge :: Q))
        as (H1 & H2 & H3).
      cbn [all_edges label_to_simple original_to_simple] in H1, H2, H3.
      split; [|split; assumption].
      intros x Hx. apply H1, in_or_app. now left.
Qed.

Lemma ingest_edges_again es :
  forall c Q cf Qf,
    incl Q (all_edges c) ->
    original_to_simple cf = original_to_simple c ->
    incl (all_edges (fst (fold_left (ingest_edge basename) es (c, Q))))
         (all_edges cf) ->
    fold_left (ingest_edge basename) es (cf, Qf) = (cf, Qf).
Proof.
  induction es as [|e es IH]; intros c Q cf Qf HQ Ho Hall; cbn [fold_left] in *;
    [reflexivity|].
  destruct (ingest_edge_cases c Q e) as [[E Hagain] | (edge & E & Hagain)];
    rewrite E in Hall.
  - destruct (ingest_edges_keep es c Q) as (Hkeep & _).
    rewrite Hagain; [now apply IH with c Q | assumption | |].
    + intros x Hx. apply Hall, Hkeep, HQ, Hx.
    + intros x Hx. apply Hall, Hkeep, Hx.
  - match type of Hall with
    | incl (all_edges (fst (fold_left _ es (?c1, ?Q1)))) _ =>
        destruct (ingest_edges_keep es c1 Q1) as (Hkeep & _);
        rewrite Hagain; [apply IH with c1 Q1 | assumption |]
    end.
    + cbn [all_edges]. intros x [<- | Hx]; apply in_or_app;
        [right; now left | left; now apply HQ].
    + assumption.
    + assumption.
    + apply Hall, Hkeep. cbn [all_edges]. apply in_or_app. right. now left.
Qed.
End Reingest.

(** Reading a plain document again changes nothing *)
Lemma process_again c doc :
  ingest_invariant c -> plain_document doc ->
  process_single_dot_file (process_single_dot_file c doc) doc
  = process_single_dot_file c doc.
Proof.
  intros Hinv [Hplain Hids].
  pose proof (process_single_dot_file_invariant c doc Hinv) as Hinv2.
  unfold process_single_dot_file in *.
  destruct (negb (readable doc)); [reflexivity|].
  destruct (negb (has_digraph doc)); [reflexivity|].
  destruct (_ || _); [reflexivity|].
  destruct (fold_left (ingest_node _) (node_matches doc) (c, []))
    as [c1 P1] eqn:Hnodes.
  destruct (fold_left (ingest_edge _) (edge_matches doc) (c1, []))
    as [c2 Q2] eqn:Hedges.
  destruct (ingest_edges_keep (file_basename doc) (edge_matches doc) c1 [])
    as (_ & Hlabels & Haliases).
  rewrite Hedges in Hlabels, Haliases. cbn [fst] in Hlabels, Haliases.
  rewrite (ingest_nodes_again (file_basename doc) (node_matches doc) c [] c2);
    try assumption.
  - rewrite (ingest_edges_again (file_basename doc) (edge_matches doc)
               c1 [] c2 []); [reflexivity | intros x [] | assumption|].
    rewrite Hedges. apply incl_refl.
  - rewrite Hnodes. cbn [fst]. exists []. now rewrite List.app_nil_r.
  - now rewrite Hnodes.
Qed.

(** X27: reading a document a second time changes nothing, provided none of
    its labels falls back to the synthetic label and no original identifier
    looks like a file-prefixed one: no node is minted, no alias changes and
    no edge is added, so the converter after the documents and the document
    twice is the converter after the documents and the document once. *)
Theorem reingestion_changes_nothing (docs : list document) (doc : document) :
  plain_document doc ->
  ingest_all (docs ++ [doc; doc]) = ingest_all (docs ++ [doc]).
Proof.
  intros Hplain. unfold ingest_all. f_equal.
  rewrite !fold_left_app. cbn [fold_left].
  apply process_again; [|assumption].
  apply (ingest_documents_invariant docs).
Qed.

Lemma reingestion_changes_nothing_witness :
  ingest_all ([first_document] ++ [second_document; second_document])
  = ingest_all ([first_document] ++ [second_document]).
Proof.
  apply reingestion_changes_nothing. split.
  - intros m Hm. simpl in Hm.
    destruct Hm as [<- | [<- | []]]; split; vm_compute; discriminate.
  - intros m m' Hm Hm'. simpl in Hm, Hm'.
    destruct Hm as [<- | [<- | []]], Hm' as [<- | [<- | []]];
      vm_compute; discriminate.
Defined.

(** Without the condition on the labels the statement fails: a label that
    is cleaned away falls back to a synthetic label that carries the node
    counter, and the second reading mints a second node. *)
Lemma synthetic_label_minted_again :
  simple_to_label (ingest_all [blank_document]) = [("node-1", "Node1")]
  /\ simple_to_label (ingest_all [blank_document; blank_document])
     = [("node-1", "Node1"); ("node-2", "Node2")].
Proof. split; vm_compute; reflexivity. Qed.

(** ** The page *)

Lemma calculate_node_size_width_short label isolated :
  (String.length label <= 25)%nat ->
  fst (calculate_node_size label (get_node_font_size label isolated) isolated)
  <= if isolated then 160 else 195.
Proof.
  intros Hlen. unfold calculate_node_size. cbn [fst].
  set (font := get_node_font_size label isolated).
  assert (Hcw : 12 <= char_width2 font <= 14
                /\ (isolated = true -> char_width2 font = 12)).
  { unfold font, get_node_font_size. destruct isolated.
    - split; [vm_compute; split; discriminate | reflexivity].
    - split; [|discriminate].
      destruct (font_size_values label false) as [H | [H | H]];
        unfold get_node_font_size in H; rewrite H; vm_compute;
        split; discriminate. }
  destruct Hcw as [Hcw Hiso].
  set (tw := Z.of_nat (String.length label) * char_width2 font) in *.
  destruct isolated.
  - assert (tw <= 300) by (unfold tw; rewrite Hiso by reflexivity; lia).
    apply Z.div_le_upper_bound; lia.
  - assert (tw <= 350) by (unfold tw; nia).
    apply Z.div_le_upper_bound; lia.
Qed.

Section Page.
Variables (nodes : dict string) (edges : list edge).
Hypothesis nodes_nodup : NoDup (dict_keys nodes).
Hypothesis labels_short :
  forall n label, dict_get nodes n = Some label ->
                  (String.length label <= 25)%nat.

Lemma short_max_width : layout_max_width nodes edges <= 195.
Proof.
  unfold layout_max_width, max_width_of.
  apply (fold_max_upper
           (fun kv => fst (snd (node_size_of (layout_isolated nodes edges) kv))));
    [lia|].
  intros [n label] Hin. cbn [node_size_of snd].
  pose proof (calculate_node_size_width_short label
                (PyStr.mem n (layout_isolated nodes edges))) as Hw.
  assert (Hl : dict_get nodes n = Some label) by now apply dict_In_get.
  specialize (Hw (labels_short n label Hl)).
  destruct (PyStr.mem n (layout_isolated nodes edges)); lia.
Qed.

Lemma short_isolated_width n w h :
  In n (layout_isolated nodes edges) ->
  dict_get (node_sizes (calculate_hierarchical_layout nodes edges)) n
  = Some (w, h) ->
  w <= 160.
Proof.
  intros Hi Hs.
  assert (Hn : dict_has nodes n = true).
  { apply dict_has_In_keys. now apply (isolated_In nodes edges). }
  unfold dict_has in Hn.
  destruct (dict_get nodes n) as [label|] eqn:El; [|discriminate].
  rewrite layout_node_sizes in Hs.
  rewrite (compute_node_sizes_get _ _ n label nodes_nodup El) in Hs.
  cbn [node_size_of snd] in Hs.
  replace (PyStr.mem n (layout_isolated nodes edges)) with true in Hs
    by (symmetry; now apply mem_In).
  assert (Hsize : calculate_node_size label (get_node_font_size label true) true
                  = (w, h)) by congruence.
  apply (f_equal fst) in Hsize. cbn [fst] in Hsize. rewrite <- Hsize.
  apply (calculate_node_size_width_short label true).
  now apply labels_short with n.
Qed.
End Page.

(** X28: when all labels have at most 25 characters, every box lies within
    the page width that the emitter declares: it starts at 200 or more and
    ends at or before [max(1800, canvas width + 400)]. *)
Theorem page_holds_boxes (nodes : dict string) (edges : list edge)
    (n : string) (p : position) (w h : Z) :
  let lay := calculate_hierarchical_layout nodes edges in
  NoDup (dict_keys nodes) ->
  (forall n label, dict_get nodes n = Some label ->
                   (String.length label <= 25)%nat) ->
  dict_get (positions lay) n = Some p ->
  dict_get (node_sizes lay) n = Some (w, h) ->
  200 <= pos_x p /\ pos_x p + w <= page_width lay.
Proof.
  intros lay Hnd Hshort Hp Hs. subst lay. unfold page_width.
  destruct (layout_canvas nodes edges) as [Hcanvas _]. rewrite Hcanvas.
  destruct (placed_cases nodes edges n p Hp) as [[Hr _] | Hi].
  - destruct (ranked_within nodes edges n p w h Hr Hp Hs) as [Hlo Hhi].
    split; [exact Hlo|].
    assert (0 <= isolated_area_width_of (lenZ (layout_isolated nodes edges))).
    { unfold isolated_area_width_of.
      destruct (0 <? _); [|lia]. destruct (_ <=? 5); [lia|].
      destruct (_ <=? 15); lia. }
    lia.
  - pose proof (isolated_beyond nodes edges n p Hi Hp) as Hlo.
    pose proof (main_graph_width_bound (lenZ nodes)
                  (max_nodes_in_level (layout_groups nodes edges))
                  (layout_base_spacing nodes edges)) as Hmgw.
    fold (layout_main_width nodes edges) in Hmgw.
    assert (Hmain : 1200 <= layout_main_width nodes edges).
    { unfold layout_main_width, main_graph_width_of.
      destruct (_ <=? 20); [lia|]. destruct (_ <=? 50); lia. }
    split; [lia|].
    pose proof (short_isolated_width nodes edges Hnd Hshort n w h Hi Hs) as Hw.
    pose proof (short_max_width nodes edges Hnd Hshort) as Hmax.
    pose proof (max_width_of_nonneg nodes (layout_isolated nodes edges)) as Hw0.
    fold (layout_max_width nodes edges) in Hw0.
    destruct (isolated_position nodes edges n p Hi Hp) as (j & _ & Hx & _).
    assert (Hcount : 0 < lenZ (layout_isolated nodes edges)).
    { unfold lenZ. destruct (layout_isolated nodes edges); [destruct Hi|].
      simpl. lia. }
    set (count := lenZ (layout_isolated nodes edges)) in *.
    assert (Hcell : snd (isolated_columns count)
                    + (Z.of_nat j mod fst (isolated_columns count))
                      * (layout_max_width nodes edges + 60) + 160
                    <= isolated_area_width_of count + 400).
    { unfold isolated_columns, isolated_area_width_of.
      destruct (Z.ltb_spec 0 count); [|lia].
      destruct (Z.leb_spec count 6); cbn [fst snd].
      - rewrite Z.mod_1_r.
        destruct (Z.leb_spec count 5); [lia|].
        destruct (Z.leb_spec count 15); lia.
      - destruct (Z.leb_spec count 18); cbn [fst snd].
        + pose proof (Z.mod_pos_bound (Z.of_nat j) 2 ltac:(lia)).
          destruct (Z.leb_spec count 5); [lia|].
          destruct (Z.leb_spec count 15); nia.
        + pose proof (Z.mod_pos_bound (Z.of_nat j) 3 ltac:(lia)).
          destruct (Z.leb_spec count 5); [lia|].
          destruct (Z.leb_spec count 15); [lia | nia]. }
    lia.
Qed.

Lemma page_holds_boxes_witness :
  200 <= 1590
  /\ 1590 + 90
     <= page_width (calculate_hierarchical_layout orphan_nodes cleanup_edges).
Proof.
  apply (page_holds_boxes orphan_nodes cleanup_edges "node-7"
           {| pos_x := 1590; pos_y2 := 400 |} 90 45);
    try (vm_compute; reflexivity).
  - repeat constructor; simpl; intuition discriminate.
  - intros n label H. apply dict_get_In in H. simpl in H.
    repeat (destruct H as [H | H]; [injection H as <- <-;
                                    cbn [String.length]; lia|]).
    destruct H.
Defined.
